(** * VKDumper: resumable photo dump of a VK conversation

    A shallow embedding of [VKDumper.py] and the verification of its
    resume, planning and download policies, of its command line and of its
    token store.

    Conventions of the embedding.
    - Values decoded from JSON (API responses, the resume-state file) are
      terms of [json].  JSON numbers are integers: the [id] and [width]
      fields of the API are integers, and fractional numbers are outside the
      model.  A Python [str] is a Rocq [string] holding its UTF-8 bytes; the
      separators the program splits on are ASCII, and bytewise order of UTF-8
      text is code-point order.
    - A Python [dict] is an association list read by its first binding of a
      key; [dict_set] and [dict_pop] keep that reading consistent.
    - Exceptions are values of [exn]; all of them derive from Python's
      [Exception].  An operator interrupt is asynchronous and not modelled.
    - The outside world (remote API, HTTP transfers, disk failures, thread
      scheduling) is not computed: each of its decisions is an explicit
      argument of the function that meets it. *)

From Stdlib Require Import ZArith String Ascii List Lia.
From Stdlib Require Import DecimalString DecimalPos DecimalZ.
From stdpp Require Import gmap strings list.

Open Scope string_scope.
Set Warnings "-register-all".

(** ** Constants (lines 11-14) *)

Definition MAX_WORKERS : nat := 6.
Definition COUNT_PER_REQUEST : Z := 200.
Definition STATE_FILE : string := "resume_state.json".

(** ** Python values and the operations the program applies to them *)

Module Py.

Inductive exn : Type :=
| KeyError
| TypeError
| AttributeError
| ValueError
| IndexError
| OSError
| JSONDecodeError
| RequestException
| HTTPError
| ApiError (msg : string).

Inductive result (A : Type) : Type :=
| Ok (a : A)
| Raise (e : exn).
Arguments Ok {A} a.
Arguments Raise {A} e.

Definition bind {A B : Type} (m : result A) (k : A -> result B) : result B :=
  match m with
  | Ok a => k a
  | Raise e => Raise e
  end.

Inductive json : Type :=
| JNull
| JBool (b : bool)
| JInt (n : Z)
| JStr (s : string)
| JArr (l : list json)
| JObj (d : list (string * json)).

(** [bool(v)]: what [if v:] and [if not v:] test. *)
Definition truthy (v : json) : bool :=
  match v with
  | JNull => false
  | JBool b => b
  | JInt n => negb (n =? 0)%Z
  | JStr s => negb (String.eqb s "")
  | JArr l => match l with [] => false | _ => true end
  | JObj d => match d with [] => false | _ => true end
  end.

Fixpoint dict_lookup (k : string) (d : list (string * json)) : option json :=
  match d with
  | [] => None
  | (k', v) :: d' => if String.eqb k k' then Some v else dict_lookup k d'
  end.

(** [d[k] = v]: an existing key keeps its position, a new one goes last. *)
Fixpoint dict_set (k : string) (v : json) (d : list (string * json))
  : list (string * json) :=
  match d with
  | [] => [(k, v)]
  | (k', v') :: d' =>
      if String.eqb k k' then (k', v) :: d' else (k', v') :: dict_set k v d'
  end.

(** [d.pop(k, None)], the dictionary that is left. *)
Fixpoint dict_pop (k : string) (d : list (string * json))
  : list (string * json) :=
  match d with
  | [] => []
  | (k', v') :: d' =>
      if String.eqb k k' then dict_pop k d' else (k', v') :: dict_pop k d'
  end.

(** [v[k]] for a string key [k]. *)
Definition getitem (v : json) (k : string) : result json :=
  match v with
  | JObj d => match dict_lookup k d with
              | Some x => Ok x
              | None => Raise KeyError
              end
  | _ => Raise TypeError
  end.

(** [v.get(k, default)]; only a dict has the method. *)
Definition get (v : json) (k : string) (default : json) : result json :=
  match v with
  | JObj d => match dict_lookup k d with
              | Some x => Ok x
              | None => Ok default
              end
  | _ => Raise AttributeError
  end.

(** [v[k] = x]. *)
Definition setitem (v : json) (k : string) (x : json) : result json :=
  match v with
  | JObj d => Ok (JObj (dict_set k x d))
  | _ => Raise TypeError
  end.

(** [v.pop(k, None)], the object that is left. *)
Definition pop (v : json) (k : string) : result json :=
  match v with
  | JObj d => Ok (JObj (dict_pop k d))
  | JArr _ => Raise TypeError
  | _ => Raise AttributeError
  end.

(** The elements [for x in v] runs over: those of a list, the keys of a
    dict, the characters of a string (here its bytes, each a string of
    length one; the program does nothing with them but fail on each). *)
Definition iter (v : json) : result (list json) :=
  match v with
  | JArr l => Ok l
  | JObj d => Ok (map (fun kv => JStr (fst kv)) d)
  | JStr s => Ok (map (fun c => JStr (String c EmptyString))
                      (list_ascii_of_string s))
  | _ => Raise TypeError
  end.

(** Booleans are integers in comparisons. *)
Definition as_int (v : json) : option Z :=
  match v with
  | JInt n => Some n
  | JBool b => Some (if b then 1 else 0)%Z
  | _ => None
  end.

Fixpoint distinct_keys (seen : list string) (d : list (string * json)) : nat :=
  match d with
  | [] => 0
  | (k, _) :: d' =>
      if existsb (String.eqb k) seen then distinct_keys seen d'
      else S (distinct_keys (k :: seen) d')
  end.

(** [a == b]. *)
Fixpoint eq (a b : json) {struct a} : bool :=
  match a, b with
  | JNull, JNull => true
  | JStr s, JStr t => String.eqb s t
  | JArr l, JArr m =>
      (fix all2 (l m : list json) {struct l} : bool :=
         match l, m with
         | [], [] => true
         | x :: l', y :: m' => eq x y && all2 l' m'
         | _, _ => false
         end) l m
  | JObj d, JObj e =>
      Nat.eqb (distinct_keys [] d) (distinct_keys [] e)
      && (fix sub (seen : list string) (d : list (string * json))
            {struct d} : bool :=
            match d with
            | [] => true
            | (k, v) :: d' =>
                if existsb (String.eqb k) seen then sub seen d'
                else match dict_lookup k e with
                     | Some w => eq v w && sub (k :: seen) d'
                     | None => false
                     end
            end) [] d
  | (JBool _ | JInt _), (JBool _ | JInt _) =>
      match as_int a, as_int b with
      | Some x, Some y => (x =? y)%Z
      | _, _ => false
      end
  | _, _ => false
  end.

(** [a > b]: numbers by value, strings and lists lexicographically, a
    [TypeError] for every other pair of operands. *)
Fixpoint gt (a b : json) {struct a} : result bool :=
  match a, b with
  | JStr s, JStr t => Ok (String.ltb t s)
  | JArr l, JArr m =>
      (fix lex (l m : list json) {struct l} : result bool :=
         match l, m with
         | [], _ => Ok false
         | _ :: _, [] => Ok true
         | x :: l', y :: m' => if eq x y then lex l' m' else gt x y
         end) l m
  | (JBool _ | JInt _), (JBool _ | JInt _) =>
      match as_int a, as_int b with
      | Some x, Some y => Ok (y <? x)%Z
      | _, _ => Raise TypeError
      end
  | _, _ => Raise TypeError
  end.

(** The loop of [max(iterable, key=...)]: a later element replaces the
    current maximum only when its key is strictly greater. *)
Fixpoint max_loop (key : json -> result json) (rest : list json)
    (maxitem maxval : json) : result json :=
  match rest with
  | [] => Ok maxitem
  | item :: rest' =>
      bind (key item) (fun val =>
      bind (gt val maxval) (fun replace =>
      if replace then max_loop key rest' item val
      else max_loop key rest' maxitem maxval))
  end.

Definition max (v : json) (key : json -> result json) : result json :=
  bind (iter v) (fun xs =>
  match xs with
  | [] => Raise ValueError
  | item :: rest => bind (key item) (fun val => max_loop key rest item val)
  end).

(** [str(n)] for an integer. *)
Definition str_of_int (n : Z) : string :=
  NilZero.string_of_int (Z.to_int n).

(** What an f-string inserts for [{v}].  The text of a list or a dict is
    Python's [repr], which quotes and escapes by the Unicode tables; it is
    left to the parameter [repr]. *)
Definition str (repr : json -> string) (v : json) : string :=
  match v with
  | JNull => "None"
  | JBool true => "True"
  | JBool false => "False"
  | JInt n => str_of_int n
  | JStr s => s
  | JArr _ | JObj _ => repr v
  end.

(** [s.split(sep)] for a one-character separator, as
    [(piece before the first sep, pieces after it)]. *)
Fixpoint split_aux (sep : ascii) (s : string) : string * list string :=
  match s with
  | EmptyString => (EmptyString, [])
  | String c s' =>
      let (piece, more) := split_aux sep s' in
      if Ascii.eqb c sep then (EmptyString, piece :: more)
      else (String c piece, more)
  end.

Definition split (sep : ascii) (s : string) : list string :=
  let (piece, more) := split_aux sep s in piece :: more.

(** The receiver of [v.split(...)]: only a string has the method. *)
Definition receiver_str (v : json) : result string :=
  match v with
  | JStr s => Ok s
  | _ => Raise AttributeError
  end.

(** [l[0]] and [l[-1]]. *)
Definition index_first (l : list string) : result string :=
  match l with
  | [] => Raise IndexError
  | x :: _ => Ok x
  end.

Fixpoint index_last (l : list string) : result string :=
  match l with
  | [] => Raise IndexError
  | [x] => Ok x
  | _ :: l' => index_last l'
  end.

Definition startswith_sep (s : string) : bool :=
  match s with
  | String "/" _ => true
  | _ => false
  end.

Fixpoint endswith_sep (s : string) : bool :=
  match s with
  | EmptyString => false
  | String c EmptyString => Ascii.eqb c "/"
  | String _ s' => endswith_sep s'
  end.

(** [os.path.join(a, b)] of [posixpath]. *)
Definition os_path_join (a b : string) : string :=
  if startswith_sep b then b
  else if String.eqb a "" || endswith_sep a then a ++ b
  else a ++ "/" ++ b.

End Py.

Import Py.

Notation "x <- m ;; k" := (bind m (fun x => k))
  (at level 100, m at next level, right associativity, only parsing).

(** A download task, [(url, path)]. *)
Abbreviation task := (string * string)%type.

(** ** The world outside the program *)

Abbreviation bytes := (list Byte.byte).

(** Text of the resume-state file. *)
Inductive text : Type :=
| Json (v : json)      (* the JSON encoding of [v] *)
| Garbled.             (* not JSON, for instance a dump cut short *)

(** The resume-state file as the program can observe it. *)
Inductive sfile : Type :=
| Absent
| Present (readable : bool) (content : text).

(** The resume-state file is kept apart from the files the downloads write:
    a destination path has a [/] in it, [STATE_FILE] has none
    ([destination_not_state_file]). *)
Record world : Type := World {
  state_file : sfile;                (* STATE_FILE *)
  files : gmap string bytes;         (* the photo files, by path *)
  requests : list task               (* GET requests issued, oldest first, each
                                        with the path it was to fill *)
}.

Definition set_state_file (f : sfile) (w : world) : world :=
  World f (files w) (requests w).
Definition set_files (fs : gmap string bytes) (w : world) : world :=
  World (state_file w) fs (requests w).
Definition log_request (t : task) (w : world) : world :=
  World (state_file w) (files w) (requests w ++ [t]).

(** Computations that change the world and may raise. *)
Definition io (A : Type) : Type := world -> world * result A.

Definition ret {A : Type} (a : A) : io A := fun w => (w, Ok a).
Definition raise {A : Type} (e : exn) : io A := fun w => (w, Raise e).
Definition iobind {A B : Type} (m : io A) (k : A -> io B) : io B :=
  fun w => match m w with
           | (w', Ok a) => k a w'
           | (w', Raise e) => (w', Raise e)
           end.

Notation "x <~ m ;; k" := (iobind m (fun x => k))
  (at level 100, m at next level, right associativity, only parsing).

(** [try: body / except Exception: handler]; what [body] did to the world
    before it raised stays done. *)
Definition try_except {A : Type} (body : io A) (handler : exn -> io A) : io A :=
  fun w => match body w with
           | (w', Ok a) => (w', Ok a)
           | (w', Raise e) => handler e w'
           end.

(** ** The resume store (lines 88-103) *)

(** [os.path.exists(STATE_FILE)] *)
Definition state_file_exists : io bool :=
  fun w => (w, Ok (match state_file w with Absent => false | Present _ _ => true end)).

(** [with open(STATE_FILE, "r") as f: return json.load(f)] *)
Definition read_state_file : io json :=
  fun w => (w, match state_file w with
               | Absent => Raise OSError
               | Present false _ => Raise OSError
               | Present true Garbled => Raise JSONDecodeError
               | Present true (Json v) => Ok v
               end).

Definition load_state : io json :=
  found <~ state_file_exists ;;
  if found then try_except read_state_file (fun _ => ret (JObj []))
  else ret (JObj []).

(** How a write of the resume-state file goes. *)
Inductive write_outcome : Type :=
| Written          (* all of the text reaches the file *)
| OpenFails        (* [open(STATE_FILE, "w")] raises; the file is untouched *)
| DumpFails.       (* the file is truncated by [open], then the dump raises *)

Definition keeps_readable (f : sfile) : bool :=
  match f with
  | Absent => true
  | Present r _ => r
  end.

(** [with open(STATE_FILE, "w") as f: json.dump(state, f, ...)] *)
Definition write_state_file (o : write_outcome) (state : json) : io unit :=
  fun w =>
    match o with
    | Written =>
        (set_state_file (Present (keeps_readable (state_file w)) (Json state)) w, Ok tt)
    | OpenFails => (w, Raise OSError)
    | DumpFails =>
        (set_state_file (Present (keeps_readable (state_file w)) Garbled) w, Raise OSError)
    end.

Definition save_state (o : write_outcome) (state : json) : io unit :=
  try_except (write_state_file o state) (fun _ => ret tt).

(** ** One download (lines 106-118) *)

(** How the transfer and the file writes of one call go. *)
Record attempt : Type := Attempt {
  get_ok : bool;            (* [requests.get] returns a response *)
  status_ok : bool;         (* [raise_for_status] returns *)
  open_ok : bool;           (* [open(path, "wb")] succeeds *)
  chunks : list bytes;      (* the chunks written before the loop ends *)
  stream_ok : bool          (* the loop ends normally, not by an exception *)
}.

Definition path_exists (path : string) (w : world) : bool :=
  bool_decide (is_Some (files w !! path)).

(** [os.path.exists(path)] *)
Definition os_path_exists (path : string) : io bool :=
  fun w => (w, Ok (path_exists path w)).

Definition requests_get (a : attempt) (url path : string) : io unit :=
  fun w => (log_request (url, path) w,
            if get_ok a then Ok tt else Raise RequestException).

Definition raise_for_status (a : attempt) : io unit :=
  if status_ok a then ret tt else raise HTTPError.

(** [open(path, "wb")]: the file is created, or emptied if it exists. *)
Definition open_wb (a : attempt) (path : string) : io unit :=
  if open_ok a then fun w => (set_files (<[path := []]> (files w)) w, Ok tt)
  else raise OSError.

(** [f.write(chunk)] *)
Definition file_write (path : string) (chunk : bytes) : io unit :=
  fun w => (set_files (<[path := (default [] (files w !! path) ++ chunk)%list]> (files w)) w,
            Ok tt).

(** [for chunk in r.iter_content(1024): f.write(chunk)] *)
Fixpoint write_chunks (path : string) (cs : list bytes) (ok : bool) : io unit :=
  match cs with
  | [] => if ok then ret tt else raise RequestException
  | c :: cs' => _ <~ file_write path c ;; write_chunks path cs' ok
  end.

(** Lines 110-118. *)
Definition download_body (a : attempt) (t : task) : io bool :=
  let (url, path) := t in
  try_except
    (_ <~ requests_get a url path ;;
     _ <~ raise_for_status a ;;
     _ <~ open_wb a path ;;
     _ <~ write_chunks path (chunks a) (stream_ok a) ;;
     ret true)
    (fun _ => ret false).

Definition download_photo (a : attempt) (t : task) : io bool :=
  found <~ os_path_exists (snd t) ;;
  if found then ret false else download_body a t.

(** ** The token store (lines 32-47)

    [TOKEN_FILE] is a file of its own; its state is an [sfile] as for the
    resume-state file. *)

Definition TOKEN_FILE : string := "token.json".

(** Lines 35-36, inside the [try]: read the file, then [.get("access_token")]
    on what it decodes to. *)
Definition read_token_file (f : sfile) : result json :=
  match f with
  | Absent => Raise OSError
  | Present false _ => Raise OSError
  | Present true Garbled => Raise JSONDecodeError
  | Present true (Json v) => get v "access_token" JNull
  end.

(** [load_token]: [None] is [JNull]. *)
Definition load_token (f : sfile) : json :=
  match f with
  | Absent => JNull
  | Present _ _ =>
      match read_token_file f with
      | Ok token => token
      | Raise _ => JNull
      end
  end.

(** [save_token]: the file that is left; a failure is swallowed. *)
Definition save_token (o : write_outcome) (token : string) (f : sfile) : sfile :=
  match o with
  | Written => Present (keeps_readable f) (Json (JObj [("access_token", JStr token)]))
  | OpenFails => f
  | DumpFails => Present (keeps_readable f) Garbled
  end.

(** ** The command line (lines 76-85 and 121-133)

    Links are taken as typed on a terminal: the model covers ASCII text of
    at most 4300 characters ([covered]); on it [\d] is a digit [0]-[9],
    [strip] removes ASCII white space, and [int] has no digit limit to hit. *)

Module Cli.

Inductive exc : Type :=
| ValueErrorWith (msg : option string)   (* [ValueError], bare or with a message *)
| EOFError.                              (* [input] at the end of the input *)

Inductive outcome (A : Type) : Type :=
| Returns (a : A)
| Raises (e : exc).
Arguments Returns {A} a.
Arguments Raises {A} e.

(** What the terminal shows: the prompts of [input] and the lines of [print]. *)
Inductive shown : Type :=
| Prompt (text : string)
| Printed (line : string).

Definition is_digit (c : ascii) : bool :=
  match c with
  | "0" | "1" | "2" | "3" | "4" | "5" | "6" | "7" | "8" | "9" => true
  | _ => false
  end%char.

Definition is_space (c : ascii) : bool :=
  let n := nat_of_ascii c in
  ((9 <=? n) && (n <=? 13) || (28 <=? n) && (n <=? 32))%nat.

Definition covered (s : string) : bool :=
  forallb (fun c => (nat_of_ascii c <? 128)%nat) (list_ascii_of_string s)
  && (String.length s <=? 4300)%nat.

Fixpoint lstrip (s : string) : string :=
  match s with
  | EmptyString => EmptyString
  | String c s' => if is_space c then lstrip s' else s
  end.

Fixpoint rstrip (s : string) : string :=
  match s with
  | EmptyString => EmptyString
  | String c s' =>
      match rstrip s' with
      | EmptyString => if is_space c then EmptyString else String c EmptyString
      | r => String c r
      end
  end.

(** [s.strip()] *)
Definition strip (s : string) : string := rstrip (lstrip s).

(** The longest run of digits at the start of [s], and what follows it:
    [\d+] is greedy. *)
Fixpoint digits (s : string) : string * string :=
  match s with
  | EmptyString => (EmptyString, EmptyString)
  | String c s' =>
      if is_digit c then let (ds, rest) := digits s' in (String c ds, rest)
      else (EmptyString, s)
  end.

Fixpoint strip_prefix (p s : string) : option string :=
  match p with
  | EmptyString => Some s
  | String a p' =>
      match s with
      | EmptyString => None
      | String b s' => if Ascii.eqb a b then strip_prefix p' s' else None
      end
  end.

(** [-?\d+] tried at the start of [r]: the text it matches. *)
Definition number_at (r : string) : option string :=
  match r with
  | EmptyString => None
  | String c r' =>
      if Ascii.eqb c "-" then
        match fst (digits r') with
        | EmptyString => None
        | ds => Some (String "-" ds)
        end
      else
        match fst (digits r) with
        | EmptyString => None
        | ds => Some ds
        end
  end.

(** The pattern [/convo/(-?\d+)] tried at the start of [s]: its group 1. *)
Definition match_at (s : string) : option string :=
  match strip_prefix "/convo/" s with
  | None => None
  | Some r => number_at r
  end.

Fixpoint no_digit (s : string) : bool :=
  match s with
  | EmptyString => true
  | String c s' => negb (is_digit c) && no_digit s'
  end.

Fixpoint all_digits (s : string) : bool :=
  match s with
  | EmptyString => true
  | String c s' => is_digit c && all_digits s'
  end.

(** A decimal number as the pattern takes it: digits, at least one, after
    an optional minus sign. *)
Definition is_number (g : string) : bool :=
  match g with
  | EmptyString => false
  | String c g' =>
      if Ascii.eqb c "-" then all_digits g' && negb (String.eqb g' "")
      else all_digits g
  end.

Definition starts_with_digit (s : string) : bool :=
  match s with
  | EmptyString => false
  | String c _ => is_digit c
  end.

(** [re.search]: the match at the leftmost position that has one. *)
Fixpoint re_search (s : string) : option string :=
  match match_at s with
  | Some g => Some g
  | None =>
      match s with
      | EmptyString => None
      | String _ s' => re_search s'
      end
  end.

(** [int(text)] for the text of group 1. *)
Definition int_of_group (g : string) : outcome Z :=
  match NilZero.int_of_string g with
  | Some d => Returns (Z.of_int d)
  | None => Raises (ValueErrorWith (Some "invalid literal for int()"))
  end.

Definition extract_peer_id_from_link (url : string) : outcome Z :=
  match re_search url with
  | None => Raises (ValueErrorWith None)
  | Some g => int_of_group g
  end.

Definition unsupported : string :=
  "Dialogs with bots or communities are not supported".

Definition validate_peer_id (peer_id : Z) : outcome unit :=
  if (peer_id <? 0)%Z then Raises (ValueErrorWith (Some unsupported))
  else Returns tt.

(** [bool(e)] for an exception object: it has neither [__bool__] nor
    [__len__]. *)
Definition exc_truthy (msg : option string) : bool := true.

(** [str(e)] for a [ValueError]. *)
Definition exc_str (msg : option string) : string :=
  match msg with
  | None => EmptyString
  | Some m => m
  end.

(** The line of 133, [f"❌ {e or 'Invalid conversation link'}"]. *)
Definition reject_line (msg : option string) : string :=
  "❌ " ++ (if exc_truthy msg then exc_str msg else "Invalid conversation link").

(** The lines of [print] among what was shown. *)
Fixpoint printed (seen : list shown) : list string :=
  match seen with
  | [] => []
  | Printed line :: rest => line :: printed rest
  | Prompt _ :: rest => printed rest
  end.

(** Lines 127-130. *)
Definition parse_conversation (convo_link folder : string) : outcome (Z * string) :=
  match extract_peer_id_from_link convo_link with
  | Raises e => Raises e
  | Returns peer_id =>
      match validate_peer_id peer_id with
      | Raises e => Raises e
      | Returns _ => Returns (peer_id, folder)
      end
  end.

(** The two prompts of one turn of the loop (lines 124-125). *)
Definition prompts : list shown :=
  [Prompt "Conversation link: "; Prompt "Output folder: "].

(** [input_conversation] reading the lines [inputs]: its result and what it
    shows.  Each turn of the loop reads two lines. *)
Fixpoint input_conversation (inputs : list string)
  : outcome (Z * string) * list shown :=
  match inputs with
  | [] => (Raises EOFError, [Prompt "Conversation link: "])
  | link :: inputs1 =>
      match inputs1 with
      | [] => (Raises EOFError, prompts)
      | dir :: rest =>
          match parse_conversation (strip link) (strip dir) with
          | Returns r => (Returns r, prompts)
          | Raises (ValueErrorWith msg) =>
              let (res, more) := input_conversation rest in
              (res, prompts ++ Printed (reject_line msg) :: more)%list
          | Raises e => (Raises e, prompts)
          end
      end
  end.

End Cli.

(** ** Getting a token (lines 50-73)

    [is_token_valid] asks the API and [extract_token_from_oauth_url] takes
    the URL apart with [urlparse] and [parse_qs]; neither is computed here.
    Both are arguments of the model: what the API answers at each check, and
    the token the URL text gives, if it gives one.  Nothing of what they
    raise gets past the [except Exception] of lines 55 and 72.  The loop of
    line 64 need not end, so the model counts its turns: [fuel] bounds
    them. *)

Section Login.

(** [extract_token_from_oauth_url]: the token, or [None] when it raises. *)
Variable extract_token_from_oauth_url : string -> option string.

(** [is_token_valid(token)] at the check number [n] of the run. *)
Variable is_token_valid : nat -> json -> bool.

(** How the write of [save_token] goes, when it comes to it. *)
Variable saving : write_outcome.

Inductive login : Type :=
| Token (token : json) (file : sfile)  (* returned; the token file that is left *)
| Waiting.                             (* still in the loop when the turns are used up *)

Definition oauth_prompt : Cli.shown := Cli.Prompt "OAuth URL: ".

(** The loop of lines 64-73, [checks] validity checks having been made.  At
    the end of the input [input] raises [EOFError], which line 72 catches as
    it does every [Exception]. *)
Fixpoint token_loop (fuel checks : nat) (inputs : list string) (f : sfile)
  : login * list Cli.shown :=
  match fuel with
  | 0 => (Waiting, [])
  | S fuel' =>
      match inputs with
      | [] =>
          let (r, seen) := token_loop fuel' checks [] f in
          (r, oauth_prompt :: Cli.Printed "Invalid OAuth URL" :: seen)
      | line :: rest =>
          match extract_token_from_oauth_url (Cli.strip line) with
          | None =>
              let (r, seen) := token_loop fuel' checks rest f in
              (r, oauth_prompt :: Cli.Printed "Invalid OAuth URL" :: seen)
          | Some token =>
              if is_token_valid checks (JStr token)
              then (Token (JStr token) (save_token saving token f), [oauth_prompt])
              else
                let (r, seen) := token_loop fuel' (S checks) rest f in
                (r, oauth_prompt :: Cli.Printed "Invalid token" :: seen)
          end
      end
  end.

(** [get_valid_token], the token file being [f]. *)
Definition get_valid_token (fuel : nat) (inputs : list string) (f : sfile)
  : login * list Cli.shown :=
  let token := load_token f in
  if truthy token then
    if is_token_valid 0 token then (Token token f, [])
    else token_loop fuel 1 inputs f
  else token_loop fuel 0 inputs f.

End Login.

Section Dumper.

(** Python's [repr] of lists and dicts, see [Py.str]. *)
Variable repr : json -> string.

(** ** Planning the downloads of a page (lines 175-189) *)

(** [lambda s: s.get("width", 0)] *)
Definition width_key (s : json) : result json := get s "width" (JInt 0).

(** [url.split("?")[0].split(".")[-1]] *)
Definition extension (u : string) : result string :=
  head <- index_first (split "?" u) ;;
  index_last (split "." head).

(** The body of the [try] for one item (lines 178-187): [Ok (Some t)] when
    the task [t] is appended, [Ok None] at the [continue] of line 181,
    [Raise e] when a statement raises. *)
Definition plan_item (folder : string) (item : json) : result (option task) :=
  attachment <- getitem item "attachment" ;;
  photo <- getitem attachment "photo" ;;
  sizes <- get photo "sizes" (JArr []) ;;
  if negb (truthy sizes) then Ok None
  else
    best <- max sizes width_key ;;
    url <- getitem best "url" ;;
    u <- receiver_str url ;;
    ext <- extension u ;;
    id <- getitem photo "id" ;;
    let filename := "photo_" ++ str repr id ++ "." ++ ext in
    let path := os_path_join folder filename in
    Ok (Some (u, path)).

(** The [for] loop of lines 176-189 over the items left, [tasks] being the
    list built so far; [except Exception: continue] drops the item. *)
Fixpoint plan_loop (folder : string) (items : list json) (tasks : list task)
  : list task :=
  match items with
  | [] => tasks
  | item :: rest =>
      match plan_item folder item with
      | Ok (Some t) => plan_loop folder rest (tasks ++ [t])
      | Ok None => plan_loop folder rest tasks
      | Raise _ => plan_loop folder rest tasks
      end
  end.

Definition plan_tasks (folder : string) (items : list json) : list task :=
  plan_loop folder items [].

(** ** The orchestrator (lines 145-207)

    [main] from line 145 on, with its thread pool, as a transition system.
    The main thread moves between the program points of [pc]; the pool holds
    the futures.  Every transition is chosen by an [event], which also
    carries what the outside world answers at that point. *)

Variable peer_id : Z.
Variable folder : string.

Inductive pc : Type :=
| Loading                    (* before line 145 *)
| Fetching                   (* line 152, the top of [while True] *)
| Collecting (resp : json)   (* line 192, inside [as_completed] *)
| Clearing                   (* line 202, [next_from] was empty *)
| Finished                   (* line 207 done *)
| Crashed (e : exn).         (* an exception has left [main] *)

(** The life of a work item of the executor. *)
Inductive fstatus : Type :=
| Pending                        (* queued, no worker has taken it *)
| Running (found : option bool)  (* a worker executes [download_photo]; the
                                    answer of line 108 once it is known *)
| Done (r : result bool)         (* the call has ended with [r] *)
| Yielded (r : result bool).     (* and [as_completed] has handed the future
                                    to [main] *)

Record config : Type := Config {
  at_pc : pc;
  state : json;                          (* [state] *)
  start_from : json;                     (* [start_from] *)
  total : nat;                           (* [total] *)
  futures : list (task * fstatus);       (* every future submitted so far, in
                                            the order of submission *)
  wld : world;
  calls : list json;                     (* [params] of each API request *)
  output : list string                   (* lines printed *)
}.

Inductive event : Type :=
| Load                         (* main: lines 145-146 *)
| Fetch (r : result json)      (* main: the request of line 162 returns or
                                  raises [r]; then lines 164-191 *)
| Start                        (* pool: a worker takes the oldest pending item *)
| Check (f : nat)              (* pool: the worker on [f] tests line 108 *)
| Finish (f : nat) (a : attempt)
                               (* pool: the worker on [f] returns from
                                  [download_photo]; the request and the writes,
                                  if any, went as [a] *)
| Yield (f : nat)              (* main: [as_completed] yields [f], lines 193-195 *)
| Save (o : write_outcome)     (* main: lines 197-201 *)
| Clear (o : write_outcome).   (* main: lines 202-204 *)

(** [str(peer_id)] *)
Definition key : string := str_of_int peer_id.

(** [params] of lines 154-160. *)
Definition params (cursor : json) : json :=
  JObj ([("peer_id", JInt peer_id); ("media_type", JStr "photo");
         ("count", JInt COUNT_PER_REQUEST)]
        ++ (if truthy cursor then [("start_from", cursor)] else []))%list.

Definition newline : string := String "010" EmptyString.

Definition api_error_line (msg : string) : string :=
  newline ++ "VK API error: " ++ msg.
Definition unexpected_error_line : string :=
  newline ++ "Unexpected error while requesting VK API".
Definition done_line (n : nat) : string :=
  "Done. Downloaded: " ++ str_of_int (Z.of_nat n).

Definition set_pc (p : pc) (c : config) : config :=
  Config p (state c) (start_from c) (total c) (futures c) (wld c) (calls c)
         (output c).

Definition set_wld (w : world) (c : config) : config :=
  Config (at_pc c) (state c) (start_from c) (total c) (futures c) w (calls c)
         (output c).

Definition set_vars (st sf : json) (c : config) : config :=
  Config (at_pc c) st sf (total c) (futures c) (wld c) (calls c) (output c).

Definition set_total (n : nat) (c : config) : config :=
  Config (at_pc c) (state c) (start_from c) n (futures c) (wld c) (calls c)
         (output c).

Definition set_futures (fs : list (task * fstatus)) (c : config) : config :=
  Config (at_pc c) (state c) (start_from c) (total c) fs (wld c) (calls c)
         (output c).

Definition print (line : string) (c : config) : config :=
  Config (at_pc c) (state c) (start_from c) (total c) (futures c) (wld c)
         (calls c) (output c ++ [line]).

Definition log_call (p : json) (c : config) : config :=
  Config (at_pc c) (state c) (start_from c) (total c) (futures c) (wld c)
         (calls c ++ [p]) (output c).

(** An exception nothing catches ends [main]. *)
Definition crash (e : exn) (c : config) : config := set_pc (Crashed e) c.

(** After a [break]: lines 206-207. *)
Definition leave_loop (c : config) : config :=
  set_pc Finished (print (done_line (total c)) c).

(** Line 191: every task becomes a pending future of the executor. *)
Definition submit (ts : list task) (c : config) : config :=
  set_futures (futures c ++ map (fun t => (t, Pending)) ts) c.

(** Lines 145-146. *)
Definition do_load (c : config) : config :=
  match load_state (wld c) with
  | (w, Raise e) => crash e (set_wld w c)
  | (w, Ok st) =>
      match get st key JNull with
      | Raise e => crash e (set_vars st (start_from c) (set_wld w c))
      | Ok sf => set_pc Fetching (set_vars st sf (set_wld w c))
      end
  end.

(** Lines 153-191, the request having returned or raised [r]. *)
Definition do_fetch (r : result json) (c : config) : config :=
  let c := log_call (params (start_from c)) c in
  match r with
  | Raise (ApiError msg) => leave_loop (print (api_error_line msg) c)
  | Raise _ => leave_loop (print unexpected_error_line c)
  | Ok resp =>
      match get resp "items" (JArr []) with
      | Raise e => crash e c
      | Ok items =>
          if negb (truthy items) then leave_loop c
          else match iter items with
               | Raise e => crash e c
               | Ok xs => set_pc (Collecting resp) (submit (plan_tasks folder xs) c)
               end
      end
  end.

(** Lines 193-195 for the future [f] of task [t], whose result is [r]. *)
Definition do_yield (f : nat) (t : task) (r : result bool) (c : config) : config :=
  let c := set_futures (<[f := (t, Yielded r)]> (futures c)) c in
  match r with
  | Raise e => crash e c
  | Ok true => set_total (total c + 1) c
  | Ok false => c
  end.

(** Lines 197-201. *)
Definition do_save (o : write_outcome) (resp : json) (c : config) : config :=
  match get resp "next_from" JNull with
  | Raise e => crash e c
  | Ok sf =>
      match setitem (state c) key sf with
      | Raise e => crash e (set_vars (state c) sf c)
      | Ok st =>
          let c := set_vars st sf c in
          match save_state o st (wld c) with
          | (w, Raise e) => crash e (set_wld w c)
          | (w, Ok _) =>
              set_pc (if negb (truthy sf) then Clearing else Fetching)
                     (set_wld w c)
          end
      end
  end.

(** Lines 202-204. *)
Definition do_clear (o : write_outcome) (c : config) : config :=
  match pop (state c) key with
  | Raise e => crash e c
  | Ok st =>
      let c := set_vars st (start_from c) c in
      match save_state o st (wld c) with
      | (w, Raise e) => crash e (set_wld w c)
      | (w, Ok _) => leave_loop (set_wld w c)
      end
  end.

Definition is_running (ft : task * fstatus) : bool :=
  match snd ft with
  | Running _ => true
  | _ => false
  end.

Fixpoint count (p : task * fstatus -> bool) (fs : list (task * fstatus)) : nat :=
  match fs with
  | [] => 0
  | ft :: fs' => (if p ft then 1 else 0) + count p fs'
  end.

(** The number of work items being executed. *)
Definition in_flight (fs : list (task * fstatus)) : nat := count is_running fs.

(** The oldest pending future. *)
Fixpoint first_pending (fs : list (task * fstatus)) : option nat :=
  match fs with
  | [] => None
  | (_, Pending) :: _ => Some 0
  | _ :: fs' => option_map S (first_pending fs')
  end.

(** A worker thread takes the oldest pending work item; the executor has
    [MAX_WORKERS] threads, each busy with one item until the call returns. *)
Definition do_start (c : config) : option config :=
  if (in_flight (futures c) <? MAX_WORKERS)%nat then
    match first_pending (futures c) with
    | Some f =>
        match futures c !! f with
        | Some (t, _) => Some (set_futures (<[f := (t, Running None)]> (futures c)) c)
        | None => None
        end
    | None => None
    end
  else None.

(** The worker on [f] evaluates [os.path.exists(path)]. *)
Definition do_check (f : nat) (c : config) : option config :=
  match futures c !! f with
  | Some (t, Running None) =>
      let found := path_exists (snd t) (wld c) in
      Some (set_futures (<[f := (t, Running (Some found))]> (futures c)) c)
  | _ => None
  end.

(** The worker on [f] returns from [download_photo]: at once with [False]
    if the path was found, else after lines 110-118, whose effects on the
    world are applied here in one piece.  The world between line 110 and the
    return, with the request out and the file open and partly written, is
    not a state of the model: what is stated of a future whose call is
    still running holds of the call from line 108 on, not only of one that
    has returned. *)
Definition do_finish (f : nat) (a : attempt) (c : config) : option config :=
  match futures c !! f with
  | Some (t, Running (Some found)) =>
      let (w, r) := (if found then ret false else download_body a t) (wld c) in
      Some (set_wld w (set_futures (<[f := (t, Done r)]> (futures c)) c))
  | _ => None
  end.

Definition is_yielded (ft : task * fstatus) : bool :=
  match snd ft with
  | Yielded _ => true
  | _ => false
  end.

(** One transition; [None] when the event cannot happen in [c].  The loop
    of line 192 ends when every future has been yielded. *)
Definition step (e : event) (c : config) : option config :=
  match e, at_pc c with
  | Load, Loading => Some (do_load c)
  | Fetch r, Fetching => Some (do_fetch r c)
  | Start, _ => do_start c
  | Check f, _ => do_check f c
  | Finish f a, _ => do_finish f a c
  | Yield f, Collecting _ =>
      match futures c !! f with
      | Some (t, Done r) => Some (do_yield f t r c)
      | _ => None
      end
  | Save o, Collecting resp =>
      if forallb is_yielded (futures c) then Some (do_save o resp c) else None
  | Clear o, Clearing => Some (do_clear o c)
  | _, _ => None
  end.

Fixpoint run (es : list event) (c : config) : option config :=
  match es with
  | [] => Some c
  | e :: es' =>
      match step e c with
      | Some c' => run es' c'
      | None => None
      end
  end.

(** [main] is entered with nothing submitted and nothing printed. *)
Definition init (w : world) : config :=
  Config Loading JNull JNull 0 [] w [] [].

(** ** Vocabulary of the properties *)

(** [item["attachment"]["photo"]] *)
Definition photo_of (item : json) : result json :=
  attachment <- getitem item "attachment" ;;
  getitem attachment "photo".

(** The width the selection compares: the [width] field, zero when the field
    is missing; [None] when there is no integer to compare. *)
Definition width_of (s : json) : option Z :=
  match width_key s with
  | Ok v => as_int v
  | Raise _ => None
  end.

(** The same, as a total function. *)
Definition wz (s : json) : Z := default 0%Z (width_of s).

(** An object without a [width] field. *)
Definition lacks_width (s : json) : Prop := getitem s "width" = Raise KeyError.

(** The selection as C5 words it, for the size variants [l]: the selected
    variant has maximal width, and one without a [width] is selected only
    when it is the only variant. *)
Definition selects_as_claimed (l : list json) : Prop :=
  forall best,
    max (JArr l) width_key = Ok best ->
    (forall s, In s l -> (wz s <= wz best)%Z) /\
    (lacks_width best -> l = [best]).

(** The URL without its query string: the text before the first [?]. *)
Fixpoint strip_query (u : string) : string :=
  match u with
  | EmptyString => EmptyString
  | String c u' => if Ascii.eqb c "?" then EmptyString else String c (strip_query u')
  end.

Fixpoint has_dot (s : string) : bool :=
  match s with
  | EmptyString => false
  | String c s' => Ascii.eqb c "." || has_dot s'
  end.

(** The final dot-delimited segment: the text after the last [.], all of the
    text when it has no dot. *)
Fixpoint final_segment (s : string) : string :=
  match s with
  | EmptyString => EmptyString
  | String c s' =>
      if has_dot s' then final_segment s'
      else if Ascii.eqb c "." then s'
      else s
  end.

Fixpoint has_slash (s : string) : bool :=
  match s with
  | EmptyString => false
  | String c s' => Ascii.eqb c "/" || has_slash s'
  end.

(** The text of [u] before its first [#]: the URL without its fragment. *)
Fixpoint strip_fragment (u : string) : string :=
  match u with
  | EmptyString => EmptyString
  | String c u' =>
      if Ascii.eqb c "#" then EmptyString else String c (strip_fragment u')
  end.

(** The text after the first [://] of [s], when there is one: what follows
    the scheme. *)
Fixpoint after_scheme (s : string) : option string :=
  match s with
  | EmptyString => None
  | String c s' =>
      if Ascii.eqb c ":" then
        match s' with
        | String c1 (String c2 r) =>
            if Ascii.eqb c1 "/" && Ascii.eqb c2 "/" then Some r
            else after_scheme s'
        | _ => after_scheme s'
        end
      else after_scheme s'
  end.

(** The text of [s] from its first [/] on: what follows the authority. *)
Fixpoint from_slash (s : string) : string :=
  match s with
  | EmptyString => EmptyString
  | String c s' => if Ascii.eqb c "/" then s else from_slash s'
  end.

(** The path component of a URL, as C4 words the extension's origin: the URL
    without its fragment, its query string, its scheme and its authority. *)
Definition url_path (u : string) : string :=
  let t := strip_query (strip_fragment u) in
  match after_scheme t with
  | Some r => from_slash r
  | None => t
  end.

(** C4 as it is worded, for one item: the destination is
    [{folder}/photo_{id}.{ext}] with [ext] the final dot-delimited segment
    of the URL's path component. *)
Definition destination_as_claimed (dir : string) (item : json) : Prop :=
  forall url path,
    plan_item dir item = Ok (Some (url, path)) ->
    exists photo id,
      photo_of item = Ok photo /\ getitem photo "id" = Ok id /\
      path = dir ++ "/" ++ "photo_" ++ str repr id ++ "."
                 ++ final_segment (url_path url).

(** What one item contributes to the tasks of its page. *)
Definition planned (folder : string) (item : json) : list task :=
  match plan_item folder item with
  | Ok (Some t) => [t]
  | _ => []
  end.







(** The same task executed again and again, the transfers going as
    [attempts]: the world that is left and the value of each call. *)
Fixpoint repeat_download (attempts : list attempt) (t : task) (w : world)
  : world * list (result bool) :=
  match attempts with
  | [] => (w, [])
  | a :: rest =>
      let (w1, r) := download_photo a t w in
      let (w2, rs) := repeat_download rest t w1 in
      (w2, r :: rs)
  end.

(** Program points at which [main] is not waiting for futures. *)
Definition quiet (p : pc) : bool :=
  match p with
  | Collecting _ | Crashed _ => false
  | _ => true
  end.

(** Every future submitted so far has ended, its [Finish] event being in
    the history [es], and has been yielded to [main]. *)
Definition batch_over (es : list event) (c : config) : Prop :=
  forall f t st,
    futures c !! f = Some (t, st) ->
    (exists r, st = Yielded r) /\ exists a, In (Finish f a) es.

(** The call of the future has returned. *)
Definition has_ended (st : fstatus) : bool :=
  match st with
  | Done _ | Yielded _ => true
  | _ => false
  end.

(** A worker has taken the future past line 108 and found no file: the
    call is at lines 110-116, or has returned, or was one that found the
    file. *)
Definition past_check (st : fstatus) : bool :=
  match st with
  | Running (Some false) | Done _ | Yielded _ => true
  | _ => false
  end.

(** The call of the future has returned [True]. *)
Definition has_succeeded (st : fstatus) : bool :=
  match st with
  | Done (Ok true) | Yielded (Ok true) => true
  | _ => false
  end.

(** The future went through lines 193-195 with a true result: it has been
    counted in [total]. *)
Definition is_counted (ft : task * fstatus) : bool :=
  match snd ft with
  | Yielded (Ok true) => true
  | _ => false
  end.

(** The line an error of the request prints (lines 164-168). *)
Definition error_line (e : exn) : string :=
  match e with
  | ApiError msg => api_error_line msg
  | _ => unexpected_error_line
  end.

(** The cursor the resume-state file holds for the conversation, as
    [load_state().get(str(peer_id))] reads it. *)
Definition persisted_cursor (w : world) : result json :=
  match load_state w with
  | (_, Ok st) => get st key JNull
  | (_, Raise e) => Raise e
  end.

(** The GET requests issued since the world was [w0]. *)
Definition new_requests (w0 w : world) : list task :=
  drop (length (requests w0)) (requests w).

(** The transfer and the writes of the attempt all go through. *)
Definition succeeds (a : attempt) : bool :=
  get_ok a && status_ok a && open_ok a && stream_ok a.

(** The resume states [st] and [st0] hold the same cursor, or none, for
    every conversation but the one being dumped. *)
Definition others_agree (st st0 : json) : Prop :=
  forall other : Z,
    other <> peer_id ->
    getitem st (str_of_int other) = getitem st0 (str_of_int other).

(** The resume-state file after a step: untouched, cut short by a failed
    dump, or holding [st]. *)
Definition file_after (f0 f : sfile) (st : json) : Prop :=
  f = f0 \/ (exists r, f = Present r Garbled) \/ exists r, f = Present r (Json st).

(** The events a future still has before it: taken by a worker, line 108,
    the return of the call, and its turn in the loop of line 192. *)
Definition remaining (st : fstatus) : nat :=
  match st with
  | Pending => 4
  | Running None => 3
  | Running (Some _) => 2
  | Done _ => 1
  | Yielded _ => 0
  end.

Fixpoint work (fs : list (task * fstatus)) : nat :=
  match fs with
  | [] => 0
  | ft :: fs' => remaining (snd ft) + work fs'
  end.

(** ** The scenario of the specification

    Conversation 12345; the first page has three items, with size variants
    of widths 100 and 600, of width 50, and none, and the cursor [abc]; the
    second page has no items. *)

Definition size_variant (width : Z) (url : string) : json :=
  JObj [("type", JStr "x"); ("url", JStr url); ("width", JInt width)].

Definition photo_item (id : Z) (sizes : list json) : json :=
  JObj [("attachment",
         JObj [("type", JStr "photo");
               ("photo", JObj [("id", JInt id); ("sizes", JArr sizes)])])].

Definition sizes1 : list json :=
  [size_variant 100 "https://cdn.example/a_s.jpg?size=100x75";
   size_variant 600 "https://cdn.example/a_x.jpg?size=600x450"].

Definition item1 : json := photo_item 101 sizes1.
Definition item2 : json :=
  photo_item 102 [size_variant 50 "https://cdn.example/b_s.jpg"].
Definition item3 : json := photo_item 103 [].

Definition page1 : json :=
  JObj [("items", JArr [item1; item2; item3]); ("next_from", JStr "abc")].
Definition page2 : json := JObj [("items", JArr [])].

(** A last page: one item and no cursor. *)
Definition page_last : json := JObj [("items", JArr [item2])].

(** Size variants of an old photo: no width on the first, width 0 on the
    second. *)
Definition sizes_old : list json :=
  [JObj [("url", JStr "https://cdn.example/o_a.jpg")];
   JObj [("url", JStr "https://cdn.example/o_b.jpg"); ("width", JInt 0)]].

Definition no_repr : json -> string := fun _ => "".

Definition empty_world : world := World Absent ∅ [].

Definition url1 : string := "https://cdn.example/a_x.jpg?size=600x450".
Definition path1 : string := "out/photo_101.jpg".

(** A folder left by an interrupted run: the first photo is there. *)
Definition half_done_world : world :=
  World Absent {[path1 := [Byte.x89; Byte.x50]]} [].

(** A transfer that goes through, and one cut after its first chunk. *)
Definition whole : attempt :=
  Attempt true true true [[Byte.x89; Byte.x50]; [Byte.x4e; Byte.x47]] true.
Definition cut_short : attempt :=
  Attempt true true true [[Byte.x89; Byte.x50]] false.

(** A photo whose URL has a fragment with a dot in it, and a photo whose
    [id] is [null]. *)
Definition item_fragment : json :=
  photo_item 5 [size_variant 600 "https://cdn.example.com/p.jpg#v1.2"].

(** A transfer whose request fails. *)
Definition refused : attempt := Attempt false true true [] true.

(** A resume-state file left by earlier runs, with the cursors of two
    conversations; and one that holds a JSON list. *)
Definition resumed_world : world :=
  World (Present true (Json (JObj [("12345", JStr "abc"); ("777", JStr "xyz")])))
        ∅ [].
Definition list_state_world : world := World (Present true (Json (JArr []))) ∅ [].

(** A page that names the same photo twice. *)
Definition page_twice : json :=
  JObj [("items", JArr [item2; item2]); ("next_from", JStr "abc")].

(** The first page, fetched and downloaded by two workers. *)
Definition first_page : list event :=
  [Load; Fetch (Ok page1); Start; Start; Check 0; Check 1;
   Finish 1 whole; Finish 0 whole; Yield 1; Yield 0].

(** * Properties *)

(** ** Strings *)

Lemma split_aux_no_sep (sep : ascii) (s : string) :
  (forall c, In c (list_ascii_of_string s) -> Ascii.eqb c sep = false) ->
  split_aux sep s = (s, []).
Proof.
  induction s as [|c s IH]; simpl; intros H; [reflexivity|].
  rewrite IH by (intros; apply H; now right).
  now rewrite (H c (or_introl eq_refl)).
Qed.

Lemma has_dot_false (s : string) :
  has_dot s = false ->
  forall c, In c (list_ascii_of_string s) -> Ascii.eqb c "." = false.
Proof.
  induction s as [|c s IH]; simpl; intros H d Hd; [contradiction|].
  apply orb_false_iff in H as [Hc Hs].
  destruct Hd as [<-|Hd]; [exact Hc|now apply IH].
Qed.

Lemma has_dot_split_aux (s : string) :
  has_dot s = match snd (split_aux "." s) with [] => false | _ => true end.
Proof.
  induction s as [|c s IH]; simpl; [reflexivity|].
  destruct (split_aux "." s) as [piece more]; simpl in *.
  destruct (Ascii.eqb c "."); simpl; [reflexivity|exact IH].
Qed.

Lemma final_segment_no_dot (s : string) : has_dot s = false -> final_segment s = s.
Proof.
  destruct s as [|c s]; simpl; [reflexivity|].
  intros H. apply orb_false_iff in H as [Hc Hs]. now rewrite Hs, Hc.
Qed.

Lemma index_first_split (sep : ascii) (s : string) :
  index_first (split sep s) = Ok (fst (split_aux sep s)).
Proof. unfold split. now destruct (split_aux sep s). Qed.

Lemma split_aux_strip_query (u : string) : fst (split_aux "?" u) = strip_query u.
Proof.
  induction u as [|c u IH]; simpl; [reflexivity|].
  destruct (split_aux "?" u) as [piece more]; simpl in *.
  destruct (Ascii.eqb c "?"); simpl; [reflexivity|now rewrite IH].
Qed.

Lemma index_last_split (s : string) :
  index_last (split "." s) = Ok (final_segment s).
Proof.
  induction s as [|c s IH]; [reflexivity|].
  unfold split in *. simpl.
  pose proof (has_dot_split_aux s) as Hd.
  destruct (split_aux "." s) as [piece more]; simpl in Hd.
  destruct (Ascii.eqb c ".").
  - change (index_last (piece :: more) =
            Ok (if has_dot s then final_segment s else s)).
    rewrite IH. destruct (has_dot s) eqn:E; [reflexivity|].
    now rewrite final_segment_no_dot.
  - destruct more as [|m more]; rewrite Hd.
    + simpl in *. rewrite final_segment_no_dot in IH by exact Hd.
      now inversion IH.
    + exact IH.
Qed.

Lemma extension_spec (u : string) :
  extension u = Ok (final_segment (strip_query u)).
Proof.
  unfold extension. rewrite index_first_split. simpl.
  rewrite split_aux_strip_query. apply index_last_split.
Qed.

Lemma os_path_join_relative (a b : string) :
  startswith_sep b = false ->
  os_path_join a b = if String.eqb a "" || endswith_sep a then a ++ b
                     else a ++ "/" ++ b.
Proof. unfold os_path_join. now intros ->. Qed.

(** ** Planning *)

(** Splits a [bind] in a hypothesis that some computation returned. *)
Tactic Notation "bind_inv" hyp(H) "as" ident(x) ident(E) :=
  match type of H with
  | bind ?m _ = Ok _ =>
      destruct m as [x|] eqn:E; simpl in H; [|discriminate H]
  end.

Lemma plan_item_inv (dir : string) (item : json) (u path : string) :
  plan_item dir item = Ok (Some (u, path)) ->
  exists photo sizes best id,
    photo_of item = Ok photo /\ get photo "sizes" (JArr []) = Ok sizes /\
    truthy sizes = true /\ max sizes width_key = Ok best /\
    getitem best "url" = Ok (JStr u) /\ getitem photo "id" = Ok id /\
    path = os_path_join dir
             ("photo_" ++ str repr id ++ "." ++ final_segment (strip_query u)).
Proof.
  unfold plan_item, photo_of. intros H.
  bind_inv H as attachment Ea. bind_inv H as photo Ep. bind_inv H as sizes Es.
  destruct (truthy sizes) eqn:Et; simpl in H; [|discriminate H].
  bind_inv H as best Eb. bind_inv H as url Eu. bind_inv H as u' Er.
  rewrite extension_spec in H. simpl in H. bind_inv H as pid Ei.
  destruct url; try discriminate Er. injection Er as ->.
  injection H as -> <-.
  exists photo, sizes, best, pid. simpl. now rewrite Ep.
Qed.


Lemma has_slash_app (a b : string) :
  has_slash (a ++ b) = has_slash a || has_slash b.
Proof.
  induction a as [|c a IH]; simpl; [reflexivity|].
  now rewrite IH, orb_assoc.
Qed.

Lemma endswith_sep_has_slash (a : string) :
  endswith_sep a = true -> has_slash a = true.
Proof.
  induction a as [|c a IH]; simpl; [discriminate|].
  destruct a as [|d a]; [intros ->; reflexivity|].
  intros H. rewrite (IH H). apply orb_true_r.
Qed.

(** The files the downloads write are not the resume-state file. *)
Lemma destination_not_state_file (dir : string) (item : json) (u path : string) :
  plan_item dir item = Ok (Some (u, path)) -> dir <> "" -> path <> STATE_FILE.
Proof.
  intros H Hdir Heq.
  apply plan_item_inv in H as (photo & sizes & best & pid & _ & _ & _ & _ & _ & _ & ->).
  assert (Hs : has_slash STATE_FILE = true); [|discriminate Hs].
  rewrite <- Heq, os_path_join_relative by reflexivity.
  destruct (String.eqb_spec dir ""); [contradiction|]. simpl.
  destruct (endswith_sep dir) eqn:E; rewrite !has_slash_app.
  - now rewrite (endswith_sep_has_slash dir E).
  - simpl. apply orb_true_r.
Qed.

Lemma has_dot_app (a b : string) : has_dot (a ++ b) = has_dot a || has_dot b.
Proof.
  induction a as [|c a IH]; [reflexivity|].
  change (String c a ++ b) with (String c (a ++ b)). cbn [has_dot].
  now rewrite IH, orb_assoc.
Qed.

Lemma final_segment_app (a b : string) :
  has_dot b = true -> final_segment (a ++ b) = final_segment b.
Proof.
  intros Hb. induction a as [|c a IH]; [reflexivity|].
  change (String c a ++ b) with (String c (a ++ b)). cbn [final_segment].
  now rewrite has_dot_app, Hb, orb_true_r.
Qed.

Lemma after_scheme_suffix (s : string) :
  forall r, after_scheme s = Some r -> exists a, s = a ++ r.
Proof.
  induction s as [|c s IH]; intros r H; [discriminate H|].
  assert (Hrec : after_scheme s = Some r -> exists a, String c s = a ++ r).
  { intros Hs. destruct (IH r Hs) as [a Ha]. exists (String c a).
    exact (f_equal (String c) Ha). }
  cbn [after_scheme] in H. destruct (Ascii.eqb c ":"); [|exact (Hrec H)].
  destruct s as [|c1 [|c2 r']]; try exact (Hrec H).
  destruct (Ascii.eqb c1 "/" && Ascii.eqb c2 "/"); [|exact (Hrec H)].
  injection H as <-. now exists (String c (String c1 (String c2 ""))).
Qed.

Lemma from_slash_suffix (s : string) : exists a, s = a ++ from_slash s.
Proof.
  induction s as [|c s [a Ha]]; [now exists ""|]. cbn [from_slash].
  destruct (Ascii.eqb c "/"); [now exists ""|].
  exists (String c a). exact (f_equal (String c) Ha).
Qed.

Lemma append_assoc (a b c : string) : (a ++ b) ++ c = a ++ (b ++ c).
Proof.
  induction a as [|x a IH]; [reflexivity|].
  change (String x (a ++ b) ++ c = String x (a ++ (b ++ c))).
  change (String x ((a ++ b) ++ c) = String x (a ++ (b ++ c))).
  now rewrite IH.
Qed.

Lemma url_path_suffix (u : string) :
  strip_fragment u = u -> exists a, strip_query u = a ++ url_path u.
Proof.
  intros Hu. unfold url_path. rewrite Hu.
  destruct (after_scheme (strip_query u)) as [r|] eqn:E; [|now exists ""].
  destruct (after_scheme_suffix _ _ E) as [a Ha].
  destruct (from_slash_suffix r) as [b Hb].
  exists (a ++ b). rewrite append_assoc, <- Hb. exact Ha.
Qed.

(** C4, amended: a planned task's destination is [photo_<id>.<ext>] inside
    the output folder, where [<id>] is the attachment's [id] and [<ext>] is
    the final dot-delimited segment of the text of the task's URL before its
    first [?], the whole text and not its path component alone.  The path is
    [os.path.join] of the folder and that file name: the folder, a [/], and
    the file name, the [/] being left out only after a folder that already
    ends in one.  Whenever the URL has no fragment and its path component
    has a dot, [<ext>] is the final dot-delimited segment of the URL's path
    component, and the destination is as C4 words it. *)
Theorem C4_destination_path (dir : string) (item : json) (url path : string) :
  plan_item dir item = Ok (Some (url, path)) ->
  exists photo id,
    photo_of item = Ok photo /\ getitem photo "id" = Ok id /\
    extension url = Ok (final_segment (strip_query url)) /\
    let filename := "photo_" ++ str repr id ++ "." ++ final_segment (strip_query url) in
    path = os_path_join dir filename /\
    (dir <> "" -> endswith_sep dir = false -> path = dir ++ "/" ++ filename) /\
    (endswith_sep dir = true -> path = dir ++ filename) /\
    (strip_fragment url = url -> has_dot (url_path url) = true ->
     final_segment (strip_query url) = final_segment (url_path url) /\
     (dir <> "" -> endswith_sep dir = false ->
      path = dir ++ "/" ++ "photo_" ++ str repr id ++ "."
                 ++ final_segment (url_path url))).
Proof.
  intros H. apply plan_item_inv in H as (photo & sizes & best & id & Hp & _ & _ & _ & _ & Hi & ->).
  exists photo, id.
  split; [exact Hp|]. split; [exact Hi|]. split; [apply extension_spec|].
  cbv zeta. split; [reflexivity|]. split; [|split].
  - intros Hne He. rewrite os_path_join_relative by reflexivity.
    rewrite He. destruct (String.eqb_spec dir ""); [contradiction|reflexivity].
  - intros He. rewrite os_path_join_relative by reflexivity.
    rewrite He. now rewrite orb_true_r.
  - intros Hfrag Hdot. destruct (url_path_suffix url Hfrag) as [a Ha].
    assert (Hext : final_segment (strip_query url) = final_segment (url_path url))
      by (rewrite Ha; now apply final_segment_app).
    split; [exact Hext|]. intros Hne He.
    rewrite os_path_join_relative by reflexivity.
    rewrite He, Hext. destruct (String.eqb_spec dir ""); [contradiction|].
    reflexivity.
Qed.

Lemma gt_as_int (a b : json) (x y : Z) :
  as_int a = Some x -> as_int b = Some y -> gt a b = Ok (y <? x)%Z.
Proof.
  destruct a, b; simpl; try discriminate; intros [= <-] [= <-]; reflexivity.
Qed.

Lemma width_of_key (s : json) (n : Z) :
  width_of s = Some n -> exists v, width_key s = Ok v /\ as_int v = Some n.
Proof.
  unfold width_of. destruct (width_key s) as [v|]; [|discriminate].
  intros H. now exists v.
Qed.

Lemma wz_width_of (s : json) (n : Z) : width_of s = Some n -> wz s = n.
Proof. unfold wz. now intros ->. Qed.

Lemma lacks_width_wz (s : json) : lacks_width s -> wz s = 0%Z.
Proof.
  unfold lacks_width, wz, width_of, width_key, getitem, get.
  destruct s; try discriminate.
  destruct (dict_lookup "width" d); [discriminate|reflexivity].
Qed.

(** The loop of [max] over variants with integer widths: either the current
    maximum stays, nothing later being wider, or the result is the first of
    the widest later elements. *)
Lemma max_loop_widths (rest : list json) :
  forall item val,
    width_key item = Ok val -> is_Some (as_int val) ->
    Forall (fun s => is_Some (width_of s)) rest ->
    exists best,
      max_loop width_key rest item val = Ok best /\
      ((best = item /\ forall s, In s rest -> (wz s <= wz item)%Z) \/
       (exists pre post,
          rest = (pre ++ best :: post)%list /\ (wz item < wz best)%Z /\
          (forall s, In s pre -> (wz s < wz best)%Z) /\
          (forall s, In s post -> (wz s <= wz best)%Z))).
Proof.
  induction rest as [|s rest IH]; intros item val Hk [n Hn] Hall.
  - exists item. split; [reflexivity|]. left. split; [reflexivity|]. intros ? [].
  - apply Forall_cons in Hall as [[m Hm] Hall].
    destruct (width_of_key s m Hm) as (v & Hv & Hvm).
    assert (Hwi : wz item = n) by (unfold wz, width_of; now rewrite Hk, Hn).
    pose proof (wz_width_of s m Hm) as Hws.
    simpl. rewrite Hv. simpl. rewrite (gt_as_int v val m n Hvm Hn). simpl.
    destruct (Z.ltb_spec n m) as [Hlt|Hge].
    + destruct (IH s v Hv (ex_intro _ m Hvm) Hall) as (best & -> & Hcase).
      exists best. split; [reflexivity|]. right.
      destruct Hcase as [[-> Hrest]|(pre & post & -> & Hsb & Hpre & Hpost)].
      * exists [], rest. repeat split; [lia| intros ? [] | exact Hrest].
      * exists (s :: pre), post. repeat split; [lia| |exact Hpost].
        intros t [<-|Ht]; [exact Hsb|now apply Hpre].
    + destruct (IH item val Hk (ex_intro _ n Hn) Hall) as (best & -> & Hcase).
      exists best. split; [reflexivity|].
      destruct Hcase as [[-> Hrest]|(pre & post & -> & Hib & Hpre & Hpost)].
      * left. split; [reflexivity|]. intros t [<-|Ht]; [lia|now apply Hrest].
      * right. exists (s :: pre), post. repeat split; [exact Hib| |exact Hpost].
        intros t [<-|Ht]; [lia|now apply Hpre].
Qed.

Lemma max_widths (l : list json) :
  l <> [] -> Forall (fun s => is_Some (width_of s)) l ->
  exists best pre post,
    max (JArr l) width_key = Ok best /\ l = (pre ++ best :: post)%list /\
    (forall s, In s pre -> (wz s < wz best)%Z) /\
    (forall s, In s post -> (wz s <= wz best)%Z).
Proof.
  destruct l as [|item rest]; [congruence|]. intros _ Hall.
  apply Forall_cons in Hall as [[n Hn] Hall].
  destruct (width_of_key item n Hn) as (v & Hv & Hvn).
  destruct (max_loop_widths rest item v Hv (ex_intro _ n Hvn) Hall)
    as (best & Hmax & Hcase).
  exists best. unfold max. simpl. rewrite Hv. simpl.
  destruct Hcase as [[-> Hrest]|(pre & post & -> & Hib & Hpre & Hpost)].
  - exists [], rest. repeat split; [exact Hmax| intros ? [] | exact Hrest].
  - exists (item :: pre), post. repeat split; [exact Hmax| |exact Hpost].
    intros t [<-|Ht]; [exact Hib|now apply Hpre].
Qed.

Lemma getitem_get (v : json) (k : string) (x d : json) :
  getitem v k = Ok x -> get v k d = Ok x.
Proof.
  unfold getitem, get. destruct v; try discriminate.
  now destruct (dict_lookup k d0).
Qed.

(** C5 (amended): from a non-empty list of size variants whose widths are
    integers or missing, the planner selects the first variant of maximal
    width, a missing width counting as zero; so a variant without a width is
    selected only when no variant has a positive width.  The URL of a planned
    task is the URL of that variant. *)
Theorem C5_first_widest_variant (l : list json) :
  l <> [] -> Forall (fun s => is_Some (width_of s)) l ->
  exists best pre post,
    max (JArr l) width_key = Ok best /\ l = (pre ++ best :: post)%list /\
    (forall s, In s pre -> (wz s < wz best)%Z) /\
    (forall s, In s post -> (wz s <= wz best)%Z) /\
    (lacks_width best -> forall s, In s l -> (wz s <= 0)%Z) /\
    (forall dir item photo url path,
        photo_of item = Ok photo -> getitem photo "sizes" = Ok (JArr l) ->
        plan_item dir item = Ok (Some (url, path)) ->
        getitem best "url" = Ok (JStr url)).
Proof.
  intros Hne Hall.
  destruct (max_widths l Hne Hall) as (best & pre & post & Hmax & Hl & Hpre & Hpost).
  exists best, pre, post. repeat split; try assumption.
  - intros Hlack s Hs. rewrite <- (lacks_width_wz best Hlack).
    rewrite Hl in Hs. apply in_app_or in Hs as [Hs|[<-|Hs]];
      [specialize (Hpre s Hs); lia|lia|now apply Hpost].
  - intros dir item photo url path Hp Hs Hplan.
    apply plan_item_inv in Hplan
      as (photo' & sizes & best' & pid & Hp' & Hs' & _ & Hmax' & Hu & _).
    rewrite Hp in Hp'. injection Hp' as <-.
    rewrite (getitem_get _ _ _ _ Hs) in Hs'. injection Hs' as <-.
    rewrite Hmax in Hmax'. now injection Hmax' as <-.
Qed.

Lemma plan_loop_planned (dir : string) (items : list json) :
  forall tasks,
    plan_loop dir items tasks = (tasks ++ flat_map (planned dir) items)%list.
Proof.
  induction items as [|item rest IH]; intros tasks; simpl.
  - now rewrite app_nil_r.
  - unfold planned at 1.
    destruct (plan_item dir item) as [[t|]|e]; rewrite IH; simpl;
      [now rewrite <- app_assoc|reflexivity|reflexivity].
Qed.

Lemma plan_tasks_planned (dir : string) (items : list json) :
  plan_tasks dir items = flat_map (planned dir) items.
Proof. unfold plan_tasks. now rewrite plan_loop_planned. Qed.














(** ** The resume store *)

Lemma load_state_total (w : world) : exists v, load_state w = (w, Ok v).
Proof.
  unfold load_state, iobind, state_file_exists, try_except, read_state_file, ret.
  destruct w as [[|[] []] fs rq]; simpl; eauto.
Qed.

Lemma save_state_total (o : write_outcome) (st : json) (w : world) :
  exists w', save_state o st w = (w', Ok tt) /\
             files w' = files w /\ requests w' = requests w.
Proof.
  unfold save_state, try_except, write_state_file, ret.
  destruct o; eauto.
Qed.

Lemma save_state_written (st : json) (w : world) :
  exists r, state_file (fst (save_state Written st w)) = Present r (Json st).
Proof. now eexists. Qed.

(** ** One download *)

Lemma write_chunks_spec (path : string) (cs : list bytes) (ok : bool) :
  forall w old,
    files w !! path = Some old ->
    exists w',
      write_chunks path cs ok w = (w', if ok then Ok tt else Raise RequestException) /\
      files w' = <[path := (old ++ concat cs)%list]> (files w) /\
      state_file w' = state_file w /\ requests w' = requests w.
Proof.
  induction cs as [|c cs IH]; intros w old Hold; simpl.
  - exists w. rewrite app_nil_r, insert_id by exact Hold.
    destruct ok; repeat split; reflexivity.
  - unfold iobind, file_write. rewrite Hold. simpl.
    edestruct (IH (set_files (<[path:=(old ++ c)%list]> (files w)) w) (old ++ c)%list)
      as (w' & -> & Hf & Hs & Hr).
    { simpl. apply lookup_insert_eq. }
    exists w'. split; [reflexivity|]. simpl in *.
    now rewrite Hf, insert_insert_eq, app_assoc.
Qed.

(** What lines 110-118 do, by the way the attempt goes. *)
Lemma download_body_spec (a : attempt) (url path : string) (w : world) :
  exists w' b,
    download_body a (url, path) w = (w', Ok b) /\
    state_file w' = state_file w /\
    requests w' = (requests w ++ [(url, path)])%list /\
    files w' =
      (if get_ok a && status_ok a && open_ok a
       then <[path := concat (chunks a)]> (files w) else files w) /\
    b = get_ok a && status_ok a && open_ok a && stream_ok a.
Proof.
  unfold download_body, try_except, iobind, requests_get, raise_for_status, open_wb.
  destruct (get_ok a); simpl; [|eauto 10].
  destruct (status_ok a); simpl; [|unfold raise, ret; eauto 10].
  destruct (open_ok a); simpl; [|unfold raise, ret; eauto 10].
  edestruct (write_chunks_spec path (chunks a) (stream_ok a)
               (set_files (<[path:=[]]> (files w)) (log_request (url, path) w)) [])
    as (w' & -> & Hf & Hs & Hr).
  { simpl. apply lookup_insert_eq. }
  simpl in *. rewrite insert_insert_eq in Hf.
  destruct (stream_ok a); unfold ret; eauto 10.
Qed.

Lemma download_photo_found (a : attempt) (t : task) (w : world) :
  path_exists (snd t) w = true -> download_photo a t w = (w, Ok false).
Proof.
  intros H. unfold download_photo, iobind, os_path_exists. now rewrite H.
Qed.

Lemma download_photo_not_found (a : attempt) (t : task) (w : world) :
  path_exists (snd t) w = false -> download_photo a t w = download_body a t w.
Proof.
  intros H. unfold download_photo, iobind, os_path_exists. now rewrite H.
Qed.

Lemma path_exists_true (path : string) (w : world) :
  path_exists path w = true <-> is_Some (files w !! path).
Proof. unfold path_exists. apply bool_decide_eq_true. Qed.

Lemma path_exists_false (path : string) (w : world) :
  path_exists path w = false <-> files w !! path = None.
Proof.
  unfold path_exists. rewrite bool_decide_eq_false. symmetry. apply eq_None_not_Some.
Qed.

Lemma repeat_download_found (attempts : list attempt) (t : task) (w : world) :
  path_exists (snd t) w = true ->
  repeat_download attempts t w = (w, map (fun _ => Ok false) attempts).
Proof.
  intros H. induction attempts as [|a rest IH]; simpl; [reflexivity|].
  now rewrite (download_photo_found a t w H), IH.
Qed.

(** ** The orchestrator *)

Lemma run_app (es1 es2 : list event) (c : config) :
  run (es1 ++ es2) c =
  match run es1 c with
  | Some c1 => run es2 c1
  | None => None
  end.
Proof.
  revert c. induction es1 as [|e es1 IH]; intros c; simpl; [reflexivity|].
  destruct (step e c); [apply IH|reflexivity].
Qed.

(** Induction over the runs from a configuration. *)
Lemma run_ind (c0 : config) (P : list event -> config -> Prop) :
  P [] c0 ->
  (forall es c e c',
      run es c0 = Some c -> P es c -> step e c = Some c' -> P (es ++ [e])%list c') ->
  forall es c, run es c0 = Some c -> P es c.
Proof.
  intros Hinit Hstep es. induction es as [|e es IH] using rev_ind; intros c Hrun.
  - simpl in Hrun. now injection Hrun as <-.
  - rewrite run_app in Hrun. destruct (run es c0) as [c1|] eqn:E; [|discriminate].
    simpl in Hrun. destruct (step e c1) as [c2|] eqn:Es; [|discriminate].
    injection Hrun as <-. eapply Hstep; eauto.
Qed.

Lemma first_pending_lookup (fs : list (task * fstatus)) (f : nat) :
  first_pending fs = Some f -> exists t, fs !! f = Some (t, Pending).
Proof.
  revert f. induction fs as [|[t st] fs IH]; intros f; simpl; [discriminate|].
  destruct st; try (intros [= <-]; now exists t);
    (destruct (first_pending fs) as [g|]; [|discriminate]);
    intros [= <-]; exact (IH g eq_refl).
Qed.

(** What a transition is, event by event. *)
Lemma step_inv (e : event) (c c' : config) :
  step e c = Some c' ->
  match e with
  | Load => at_pc c = Loading /\ c' = do_load c
  | Fetch r => at_pc c = Fetching /\ c' = do_fetch r c
  | Start =>
      exists (f : nat) (t : task),
        in_flight (futures c) < MAX_WORKERS /\
        futures c !! f = Some (t, Pending) /\
        c' = set_futures (<[f := (t, Running None)]> (futures c)) c
  | Check f =>
      exists t : task,
        futures c !! f = Some (t, Running None) /\
        c' = set_futures
               (<[f := (t, Running (Some (path_exists (snd t) (wld c))))]> (futures c)) c
  | Finish f a =>
      exists (t : task) found w r,
        futures c !! f = Some (t, Running (Some found)) /\
        (if found then ret false else download_body a t) (wld c) = (w, r) /\
        c' = set_wld w (set_futures (<[f := (t, Done r)]> (futures c)) c)
  | Yield f =>
      exists resp (t : task) r,
        at_pc c = Collecting resp /\ futures c !! f = Some (t, Done r) /\
        c' = do_yield f t r c
  | Save o =>
      exists resp,
        at_pc c = Collecting resp /\ forallb is_yielded (futures c) = true /\
        c' = do_save o resp c
  | Clear o => at_pc c = Clearing /\ c' = do_clear o c
  end.
Proof.
  unfold step. destruct e.
  - destruct (at_pc c); try discriminate. now intros [= <-].
  - destruct (at_pc c); try discriminate. now intros [= <-].
  - assert (H : do_start c = Some c' ->
                exists (f : nat) (t : task), in_flight (futures c) < MAX_WORKERS /\
                  futures c !! f = Some (t, Pending) /\
                  c' = set_futures (<[f := (t, Running None)]> (futures c)) c).
    { unfold do_start.
      destruct (Nat.ltb_spec (in_flight (futures c)) MAX_WORKERS) as [Hlt|];
        [|discriminate].
      destruct (first_pending (futures c)) as [f|] eqn:Ef; [|discriminate].
      destruct (first_pending_lookup _ _ Ef) as [t Ht]. rewrite Ht.
      intros [= <-]. now exists f, t. }
    destruct (at_pc c); exact H.
  - assert (H : do_check f c = Some c' ->
                exists t : task, futures c !! f = Some (t, Running None) /\
                  c' = set_futures
                         (<[f := (t, Running (Some (path_exists (snd t) (wld c))))]>
                            (futures c)) c).
    { unfold do_check. destruct (futures c !! f) as [[t [|[b|]| |]]|]; try discriminate.
      intros [= <-]. now exists t. }
    destruct (at_pc c); exact H.
  - assert (H : do_finish f a c = Some c' ->
                exists (t : task) found w r,
                  futures c !! f = Some (t, Running (Some found)) /\
                  (if found then ret false else download_body a t) (wld c) = (w, r) /\
                  c' = set_wld w (set_futures (<[f := (t, Done r)]> (futures c)) c)).
    { unfold do_finish. destruct (futures c !! f) as [[t [|[b|]| |]]|]; try discriminate.
      destruct ((if b then ret false else download_body a t) (wld c)) as [w r] eqn:E.
      intros [= <-]. now exists t, b, w, r. }
    destruct (at_pc c); exact H.
  - destruct (at_pc c) as [| |resp| | |]; try discriminate.
    destruct (futures c !! f) as [[t [| |r|]]|]; try discriminate.
    intros [= <-]. now exists resp, t, r.
  - destruct (at_pc c) as [| |resp| | |]; try discriminate.
    destruct (forallb is_yielded (futures c)) eqn:E; [|discriminate].
    intros [= <-]. now exists resp.
  - destruct (at_pc c); try discriminate. now intros [= <-].
Qed.

(** [download_photo] never raises. *)
Lemma download_photo_total (a : attempt) (t : task) (w : world) :
  exists w' b, download_photo a t w = (w', Ok b).
Proof.
  destruct (path_exists (snd t) w) eqn:E.
  - rewrite (download_photo_found a t w E). eauto.
  - rewrite (download_photo_not_found a t w E). destruct t as [url path].
    destruct (download_body_spec a url path w) as (w' & b & H & _). eauto.
Qed.

(** The two steps of a worker, taken one after the other, are one call of
    [download_photo]. *)
Lemma check_finish_is_download_photo
    (c : config) (f : nat) (t : task) (a : attempt) :
  futures c !! f = Some (t, Running None) ->
  exists c1 c2,
    step (Check f) c = Some c1 /\ step (Finish f a) c1 = Some c2 /\
    wld c2 = fst (download_photo a t (wld c)) /\
    futures c2 = <[f := (t, Done (snd (download_photo a t (wld c))))]> (futures c).
Proof.
  intros Hf.
  assert (Hlt : f < length (futures c)) by (eapply lookup_lt_Some; eauto).
  pose (c1 := set_futures
                (<[f := (t, Running (Some (path_exists (snd t) (wld c))))]>
                   (futures c)) c).
  assert (Hc : do_check f c = Some c1) by (unfold do_check; now rewrite Hf).
  assert (Hd : exists w r,
             download_photo a t (wld c) = (w, r) /\
             (if path_exists (snd t) (wld c) then ret false else download_body a t)
               (wld c) = (w, r)).
  { unfold download_photo, iobind, os_path_exists.
    destruct (path_exists (snd t) (wld c)); simpl;
      [eexists; eexists; split; reflexivity|].
    destruct (download_body a t (wld c)) as [w r]. now exists w, r. }
  destruct Hd as (w & r & Hdl & Hbody).
  assert (Hfin : do_finish f a c1 =
                 Some (set_wld w (set_futures (<[f := (t, Done r)]> (futures c)) c))).
  { unfold do_finish, c1. simpl. rewrite list_lookup_insert_eq by exact Hlt.
    rewrite Hbody. simpl. unfold set_futures, set_wld. simpl.
    now rewrite list_insert_insert_eq. }
  exists c1, (set_wld w (set_futures (<[f := (t, Done r)]> (futures c)) c)).
  split; [unfold step; destruct (at_pc c); exact Hc|].
  split; [unfold step; simpl; destruct (at_pc c); exact Hfin|].
  rewrite Hdl. split; reflexivity.
Qed.

(** What each block of [main] leaves untouched, and where it goes next. *)

Lemma do_load_frame (c : config) :
  futures (do_load c) = futures c /\ wld (do_load c) = wld c /\
  total (do_load c) = total c /\
  (at_pc (do_load c) = Fetching \/ exists e, at_pc (do_load c) = Crashed e).
Proof.
  unfold do_load. destruct (load_state_total (wld c)) as [st ->].
  destruct (get st key JNull); simpl; eauto 10.
Qed.

Lemma do_fetch_cases (r : result json) (c : config) :
  wld (do_fetch r c) = wld c /\ total (do_fetch r c) = total c /\
  state (do_fetch r c) = state c /\
  calls (do_fetch r c) = (calls c ++ [params (start_from c)])%list /\
  ((futures (do_fetch r c) = futures c /\
    (at_pc (do_fetch r c) = Finished \/ exists e, at_pc (do_fetch r c) = Crashed e)) \/
   (exists resp items xs,
       r = Ok resp /\ get resp "items" (JArr []) = Ok items /\
       truthy items = true /\ iter items = Ok xs /\
       at_pc (do_fetch r c) = Collecting resp /\
       futures (do_fetch r c) =
         (futures c ++ map (fun t => (t, Pending)) (plan_tasks folder xs))%list)).
Proof.
  unfold do_fetch. destruct r as [resp|e].
  - destruct (get resp "items" (JArr [])) as [items|e] eqn:Ei; simpl; [|eauto 10].
    destruct (truthy items) eqn:Et; simpl; [|eauto 10].
    destruct (iter items) as [xs|e] eqn:Ex; simpl; [|eauto 10].
    do 4 (split; [reflexivity|]). right. exists resp, items, xs. auto 10.
  - destruct e; simpl; eauto 10.
Qed.

Lemma do_save_frame (o : write_outcome) (resp : json) (c : config) :
  futures (do_save o resp c) = futures c /\
  files (wld (do_save o resp c)) = files (wld c) /\
  requests (wld (do_save o resp c)) = requests (wld c) /\
  total (do_save o resp c) = total c /\
  (at_pc (do_save o resp c) = Clearing \/ at_pc (do_save o resp c) = Fetching \/
   exists e, at_pc (do_save o resp c) = Crashed e).
Proof.
  unfold do_save. destruct (get resp "next_from" JNull) as [sf|e]; simpl; [|eauto 10].
  destruct (setitem (state c) key sf) as [st|e]; simpl; [|eauto 10].
  destruct (save_state_total o st (wld c)) as (w & -> & Hf & Hr). simpl.
  destruct (truthy sf); simpl; eauto 10.
Qed.

Lemma do_clear_frame (o : write_outcome) (c : config) :
  futures (do_clear o c) = futures c /\
  files (wld (do_clear o c)) = files (wld c) /\
  requests (wld (do_clear o c)) = requests (wld c) /\
  total (do_clear o c) = total c /\
  (at_pc (do_clear o c) = Finished \/ exists e, at_pc (do_clear o c) = Crashed e).
Proof.
  unfold do_clear. destruct (pop (state c) key) as [st|e]; simpl; [|eauto 10].
  destruct (save_state_total o st (wld c)) as (w & -> & Hf & Hr). simpl. eauto 10.
Qed.

Lemma do_yield_frame (f : nat) (t : task) (r : result bool) (c : config) :
  futures (do_yield f t r c) = <[f := (t, Yielded r)]> (futures c) /\
  wld (do_yield f t r c) = wld c /\
  total (do_yield f t r c) =
    total c + (match r with Ok true => 1 | _ => 0 end) /\
  (at_pc (do_yield f t r c) = at_pc c \/ exists e, at_pc (do_yield f t r c) = Crashed e).
Proof.
  unfold do_yield. destruct r as [[]|e]; simpl; auto using Nat.add_0_r; eauto 10.
Qed.

(** ** Invariants of the runs *)

Lemma forallb_is_yielded_lookup (fs : list (task * fstatus)) :
  forallb is_yielded fs = true ->
  forall f t st, fs !! f = Some (t, st) -> exists r, st = Yielded r.
Proof.
  intros H f t st Hf. rewrite forallb_forall in H.
  specialize (H (t, st)). unfold is_yielded in H. simpl in H.
  destruct st; eauto;
    (discriminate H; apply list_elem_of_In; eapply list_elem_of_lookup_2; exact Hf).
Qed.

(** Where [main] is not waiting, every future has been yielded. *)
Lemma quiet_all_yielded (w0 : world) (es : list event) (c : config) :
  run es (init w0) = Some c ->
  quiet (at_pc c) = true -> forallb is_yielded (futures c) = true.
Proof.
  revert es c.
  apply (run_ind (init w0)
           (fun _ c => quiet (at_pc c) = true -> forallb is_yielded (futures c) = true));
    [reflexivity|].
  intros es c e c' _ IH Hstep Hq. apply step_inv in Hstep.
  destruct e.
  - destruct Hstep as [Hpc ->]. destruct (do_load_frame c) as (-> & _).
    apply IH. now rewrite Hpc.
  - destruct Hstep as [Hpc ->].
    destruct (do_fetch_cases r c) as (_ & _ & _ & _ & [[Hf _]|(resp & items & xs & _ & _ & _ & _ & Hpc' & _)]).
    + rewrite Hf. apply IH. now rewrite Hpc.
    + now rewrite Hpc' in Hq.
  - destruct Hstep as (f & t & _ & Hf & ->). simpl in Hq.
    destruct (forallb_is_yielded_lookup _ (IH Hq) f t _ Hf) as [? [=]].
  - destruct Hstep as (t & Hf & ->). simpl in Hq.
    destruct (forallb_is_yielded_lookup _ (IH Hq) f t _ Hf) as [? [=]].
  - destruct Hstep as (t & found & w & r & Hf & _ & ->). simpl in Hq.
    destruct (forallb_is_yielded_lookup _ (IH Hq) f t _ Hf) as [? [=]].
  - destruct Hstep as (resp & t & r & Hpc & _ & ->).
    destruct (do_yield_frame f t r c) as (_ & _ & _ & [Hpc'|[e Hpc']]);
      rewrite Hpc' in Hq; [now rewrite Hpc in Hq|discriminate].
  - destruct Hstep as (resp & _ & Hall & ->).
    now destruct (do_save_frame o resp c) as (-> & _).
  - destruct Hstep as [Hpc ->]. destruct (do_clear_frame o c) as (-> & _).
    apply IH. now rewrite Hpc.
Qed.

Lemma count_app (p : task * fstatus -> bool) (fs gs : list (task * fstatus)) :
  count p (fs ++ gs) = count p fs + count p gs.
Proof. induction fs as [|ft fs IH]; simpl; [reflexivity|]. rewrite IH. lia. Qed.

Lemma count_pending (p : task * fstatus -> bool) (ts : list task) :
  (forall t, p (t, Pending) = false) ->
  count p (map (fun t => (t, Pending)) ts) = 0.
Proof.
  intros Hp. induction ts as [|t ts IH]; simpl; [reflexivity|].
  now rewrite Hp, IH.
Qed.

Lemma count_insert (p : task * fstatus -> bool) (fs : list (task * fstatus)) :
  forall f x y,
    fs !! f = Some x ->
    count p (<[f := y]> fs) + (if p x then 1 else 0) =
    count p fs + (if p y then 1 else 0).
Proof.
  induction fs as [|ft fs IH]; intros [|f] x y Hf; simpl in *; try discriminate.
  - injection Hf as ->. lia.
  - specialize (IH f x y Hf). lia.
Qed.

(** A step of the pool that leaves the counted property as it was. *)
Lemma count_insert_same (p : task * fstatus -> bool) (fs : list (task * fstatus))
    (f : nat) (x y : task * fstatus) :
  fs !! f = Some x -> p x = p y -> count p (<[f := y]> fs) = count p fs.
Proof.
  intros Hf Hp. pose proof (count_insert p fs f x y Hf) as H.
  rewrite Hp in H. now apply Nat.add_cancel_r in H.
Qed.

(** At most [MAX_WORKERS] work items are executed at any time. *)
Lemma in_flight_bounded (w0 : world) (es : list event) (c : config) :
  run es (init w0) = Some c -> in_flight (futures c) <= MAX_WORKERS.
Proof.
  revert es c.
  apply (run_ind (init w0) (fun _ c => in_flight (futures c) <= MAX_WORKERS));
    [unfold in_flight, MAX_WORKERS; simpl; lia|].
  unfold in_flight.
  intros es c e c' _ IH Hstep. apply step_inv in Hstep. destruct e.
  - destruct Hstep as [_ ->]. now destruct (do_load_frame c) as (-> & _).
  - destruct Hstep as [_ ->].
    destruct (do_fetch_cases r c)
      as (_ & _ & _ & _ & [[-> _]|(resp & items & xs & _ & _ & _ & _ & _ & ->)]);
      [exact IH|].
    rewrite count_app, count_pending by reflexivity. lia.
  - destruct Hstep as (f & t & Hlt & Hf & ->). simpl.
    pose proof (count_insert is_running _ f _ (t, Running None) Hf) as H.
    unfold in_flight, is_running in *. simpl in H. lia.
  - destruct Hstep as (t & Hf & ->). simpl.
    now rewrite (count_insert_same is_running _ f _ _ Hf).
  - destruct Hstep as (t & found & w & r & Hf & _ & ->). simpl.
    pose proof (count_insert is_running _ f _ (t, Done r) Hf) as H.
    unfold is_running in *. simpl in H. lia.
  - destruct Hstep as (resp & t & r & _ & Hf & ->).
    destruct (do_yield_frame f t r c) as (-> & _).
    now rewrite (count_insert_same is_running _ f _ _ Hf).
  - destruct Hstep as (resp & _ & _ & ->).
    now destruct (do_save_frame o resp c) as (-> & _).
  - destruct Hstep as [_ ->]. now destruct (do_clear_frame o c) as (-> & _).
Qed.

(** A future that has ended has its [Finish] event in the history. *)
Lemma ended_has_finished (w0 : world) (es : list event) (c : config) :
  run es (init w0) = Some c ->
  forall f t st,
    futures c !! f = Some (t, st) -> has_ended st = true ->
    exists a, In (Finish f a) es.
Proof.
  revert es c.
  apply (run_ind (init w0)
           (fun es c => forall f t st,
                futures c !! f = Some (t, st) -> has_ended st = true ->
                exists a, In (Finish f a) es)).
  { intros f t st H. discriminate H. }
  intros es c e c' _ IH Hstep g u st Hg Hst.
  assert (Hold : forall s, futures c !! g = Some (u, s) -> has_ended s = true ->
                   exists a, In (Finish g a) (es ++ [e])).
  { intros s Hs Hs'. destruct (IH g u s Hs Hs') as [a Ha].
    exists a. apply in_or_app. now left. }
  apply step_inv in Hstep. destruct e.
  - destruct Hstep as [_ ->]. destruct (do_load_frame c) as (Hf & _).
    rewrite Hf in Hg. eauto.
  - destruct Hstep as [_ ->].
    destruct (do_fetch_cases r c)
      as (_ & _ & _ & _ & [[Hf _]|(resp & items & xs & _ & _ & _ & _ & _ & Hf)]);
      rewrite Hf in Hg; [eauto|].
    apply lookup_app_Some in Hg as [Hg|[_ Hg]]; [eauto|].
    rewrite list_lookup_fmap in Hg.
    apply fmap_Some in Hg as (t' & _ & [= _ ->]). discriminate Hst.
  - destruct Hstep as (f & t & _ & Hf & ->). simpl in Hg.
    apply list_lookup_insert_Some in Hg as [(_ & [= _ <-] & _)|[_ Hg]]; [|eauto].
    discriminate Hst.
  - destruct Hstep as (t & Hf & ->). simpl in Hg.
    apply list_lookup_insert_Some in Hg as [(_ & [= _ <-] & _)|[_ Hg]]; [|eauto].
    discriminate Hst.
  - destruct Hstep as (t & found & w & r & Hf & _ & ->). simpl in Hg.
    apply list_lookup_insert_Some in Hg as [(<- & _ & _)|[_ Hg]]; [|eauto].
    exists a. apply in_or_app. right. now left.
  - destruct Hstep as (resp & t & r & _ & Hf & ->).
    destruct (do_yield_frame f t r c) as (Hfs & _). rewrite Hfs in Hg.
    apply list_lookup_insert_Some in Hg as [(<- & [= <- <-] & _)|[_ Hg]]; [|eauto].
    now apply (Hold (Done r)).
  - destruct Hstep as (resp & _ & _ & ->).
    destruct (do_save_frame o resp c) as (Hf & _). rewrite Hf in Hg. eauto.
  - destruct Hstep as [_ ->]. destruct (do_clear_frame o c) as (Hf & _).
    rewrite Hf in Hg. eauto.
Qed.

Lemma tasks_insert (fs : list (task * fstatus)) :
  forall f t s0 s,
    fs !! f = Some (t, s0) -> map fst (<[f := (t, s)]> fs) = map fst fs.
Proof.
  induction fs as [|ft fs IH]; intros [|f] t s0 s Hf; simpl in *; try discriminate.
  - now injection Hf as ->.
  - f_equal. eapply IH. exact Hf.
Qed.

(** While [main] collects the results of a page, the tasks planned from the
    items of that page are the futures submitted last. *)
Lemma collecting_page_tasks (w0 : world) (es : list event) (c : config) :
  run es (init w0) = Some c ->
  forall resp,
    at_pc c = Collecting resp ->
    exists items xs n,
      get resp "items" (JArr []) = Ok items /\ iter items = Ok xs /\
      drop n (map fst (futures c)) = plan_tasks folder xs.
Proof.
  revert es c.
  apply (run_ind (init w0)
           (fun _ c => forall resp,
                at_pc c = Collecting resp ->
                exists items xs n,
                  get resp "items" (JArr []) = Ok items /\ iter items = Ok xs /\
                  drop n (map fst (futures c)) = plan_tasks folder xs)).
  { intros resp H. discriminate H. }
  intros es c e c' _ IH Hstep resp' Hpc'. apply step_inv in Hstep. destruct e.
  - destruct Hstep as [_ ->].
    destruct (do_load_frame c) as (_ & _ & _ & [H|[e H]]); rewrite H in Hpc';
      discriminate.
  - destruct Hstep as [_ ->].
    destruct (do_fetch_cases r c)
      as (_ & _ & _ & _ & [[_ [H|[e H]]]|(resp & items & xs & _ & Hi & _ & Hx & H & Hf)]);
      rewrite H in Hpc'; try discriminate.
    injection Hpc' as <-. exists items, xs, (length (futures c)).
    repeat split; try assumption. rewrite Hf, map_app, map_map. simpl.
    rewrite map_id. rewrite <- (length_map fst (futures c)).
    now rewrite drop_app_length.
  - destruct Hstep as (f & t & _ & Hf & ->). simpl in *.
    rewrite (tasks_insert _ _ _ _ _ Hf). now apply IH.
  - destruct Hstep as (t & Hf & ->). simpl in *.
    rewrite (tasks_insert _ _ _ _ _ Hf). now apply IH.
  - destruct Hstep as (t & found & w & r & Hf & _ & ->). simpl in *.
    rewrite (tasks_insert _ _ _ _ _ Hf). now apply IH.
  - destruct Hstep as (resp & t & r & Hpc & Hf & ->).
    destruct (do_yield_frame f t r c) as (Hfs & _ & _ & [H|[e H]]);
      rewrite H in Hpc'; [|discriminate].
    rewrite Hfs, (tasks_insert _ _ _ _ _ Hf). now apply IH.
  - destruct Hstep as (resp & _ & _ & ->).
    destruct (do_save_frame o resp c) as (_ & _ & _ & _ & [H|[H|[e H]]]);
      rewrite H in Hpc'; discriminate.
  - destruct Hstep as [_ ->].
    destruct (do_clear_frame o c) as (_ & _ & _ & _ & [H|[e H]]);
      rewrite H in Hpc'; discriminate.
Qed.

(** Once [main] has finished and every future is yielded, nothing happens
    any more. *)
Lemma finished_is_final (c : config) :
  at_pc c = Finished -> forallb is_yielded (futures c) = true ->
  forall e, step e c = None.
Proof.
  intros Hpc Hall e. destruct (step e c) as [c'|] eqn:E; [exfalso|reflexivity].
  apply step_inv in E. destruct e.
  - destruct E as [H _]. congruence.
  - destruct E as [H _]. congruence.
  - destruct E as (f & t & _ & Hf & _).
    destruct (forallb_is_yielded_lookup _ Hall _ _ _ Hf) as [? [=]].
  - destruct E as (t & Hf & _).
    destruct (forallb_is_yielded_lookup _ Hall _ _ _ Hf) as [? [=]].
  - destruct E as (t & found & w & r & Hf & _).
    destruct (forallb_is_yielded_lookup _ Hall _ _ _ Hf) as [? [=]].
  - destruct E as (resp & t & r & H & _). congruence.
  - destruct E as (resp & H & _). congruence.
  - destruct E as [H _]. congruence.
Qed.

(** From the start of [main] on: a file that was there keeps its bytes, a
    download that goes on to its request or has returned [True] has a path
    that was not there, and so has every request issued. *)
Lemma files_kept (w0 : world) (es : list event) (c : config) :
  run es (init w0) = Some c ->
  (forall p b, files w0 !! p = Some b -> files (wld c) !! p = Some b) /\
  (forall f t st,
      futures c !! f = Some (t, st) ->
      st = Running (Some false) \/ has_succeeded st = true ->
      files w0 !! snd t = None) /\
  (exists new, requests (wld c) = (requests w0 ++ new)%list /\
               forall t, In t new -> files w0 !! snd t = None).
Proof.
  revert es c.
  apply (run_ind (init w0)
           (fun _ c =>
              (forall p b, files w0 !! p = Some b -> files (wld c) !! p = Some b) /\
              (forall f t st,
                  futures c !! f = Some (t, st) ->
                  st = Running (Some false) \/ has_succeeded st = true ->
                  files w0 !! snd t = None) /\
              (exists new, requests (wld c) = (requests w0 ++ new)%list /\
                           forall t, In t new -> files w0 !! snd t = None))).
  { repeat split; [auto|intros f t st H; discriminate H|].
    exists []. simpl. split; [now rewrite app_nil_r|intros t []]. }
  intros es c e c' _ (Hkeep & Hrun & Hreq) Hstep. apply step_inv in Hstep.
  destruct e.
  - destruct Hstep as [_ ->]. now destruct (do_load_frame c) as (-> & -> & _).
  - destruct Hstep as [_ ->].
    destruct (do_fetch_cases r c)
      as (-> & _ & _ & _ & [[-> _]|(resp & items & xs & _ & _ & _ & _ & _ & ->)]);
      [auto|].
    repeat split; try assumption. intros f t st Hf Hst.
    apply lookup_app_Some in Hf as [Hf|[_ Hf]]; [eauto|].
    rewrite list_lookup_fmap in Hf.
    apply fmap_Some in Hf as (t' & _ & [= _ ->]).
    destruct Hst as [|]; discriminate.
  - destruct Hstep as (f & t & _ & Hf & ->). simpl.
    repeat split; try assumption. intros g u st Hg Hst.
    apply list_lookup_insert_Some in Hg as [(_ & [= _ <-] & _)|[_ Hg]]; [|eauto].
    destruct Hst as [|]; discriminate.
  - destruct Hstep as (t & Hf & ->). simpl.
    repeat split; try assumption. intros g u st Hg Hst.
    apply list_lookup_insert_Some in Hg as [(_ & [= <- <-] & _)|[_ Hg]];
      [|eauto].
    destruct Hst as [[= Hfound]|]; [|discriminate].
    apply path_exists_false in Hfound.
    destruct (files w0 !! snd t) as [b|] eqn:E; [|reflexivity].
    rewrite (Hkeep _ _ E) in Hfound. discriminate.
  - destruct Hstep as (t & found & w & r & Hf & Hdl & ->). simpl.
    assert (Hold : forall g u st,
               <[f := (t, Done r)]> (futures c) !! g = Some (u, st) ->
               st = Running (Some false) \/ has_succeeded st = true ->
               found = false \/ r = Ok false ->
               files w0 !! snd u = None).
    { intros g u st Hg Hst Hr.
      apply list_lookup_insert_Some in Hg as [(_ & [= <- <-] & _)|[_ Hg]]; [|eauto].
      destruct Hr as [->| ->]; [now apply (Hrun f t _ Hf); left|].
      destruct Hst as [|]; discriminate. }
    destruct found.
    + injection Hdl as <- <-. repeat split; [assumption| |assumption].
      intros g u st Hg Hst. eapply Hold; eauto.
    + destruct t as [url path].
      destruct (download_body_spec a url path (wld c))
        as (w' & b & Hb & _ & Hr & Hfs & _).
      rewrite Hb in Hdl. injection Hdl as <- <-.
      assert (Hnone : files w0 !! path = None)
        by (apply (Hrun f (url, path) _ Hf); now left).
      repeat split.
      * intros p bs Hp. rewrite Hfs.
        destruct (get_ok a && status_ok a && open_ok a); [|auto].
        rewrite lookup_insert_ne; [auto|]. intros <-. congruence.
      * intros g u st Hg Hst. eapply Hold; eauto.
      * destruct Hreq as (new & Hnew & Hall).
        exists (new ++ [(url, path)])%list. split.
        -- now rewrite Hr, Hnew, app_assoc.
        -- intros t Ht. apply in_app_or in Ht as [Ht|[<-|[]]]; auto.
  - destruct Hstep as (resp & t & r & _ & Hf & ->).
    destruct (do_yield_frame f t r c) as (-> & -> & _).
    repeat split; try assumption. intros g u st Hg Hst.
    apply list_lookup_insert_Some in Hg as [(_ & [= <- <-] & _)|[_ Hg]]; [|eauto].
    apply (Hrun f t (Done r) Hf). right.
    destruct Hst as [|Hst]; [discriminate|exact Hst].
  - destruct Hstep as (resp & _ & _ & ->).
    now destruct (do_save_frame o resp c) as (-> & -> & -> & _).
  - destruct Hstep as [_ ->].
    now destruct (do_clear_frame o c) as (-> & -> & -> & _).
Qed.

(** [total] is the number of futures yielded with a true result. *)
Lemma total_counts (w0 : world) (es : list event) (c : config) :
  run es (init w0) = Some c -> total c = count is_counted (futures c).
Proof.
  revert es c.
  apply (run_ind (init w0) (fun _ c => total c = count is_counted (futures c)));
    [reflexivity|].
  intros es c e c' _ IH Hstep. apply step_inv in Hstep. destruct e.
  - destruct Hstep as [_ ->]. now destruct (do_load_frame c) as (-> & _ & -> & _).
  - destruct Hstep as [_ ->].
    destruct (do_fetch_cases r c)
      as (_ & -> & _ & _ & [[-> _]|(resp & items & xs & _ & _ & _ & _ & _ & ->)]);
      [exact IH|].
    rewrite count_app, count_pending by reflexivity. lia.
  - destruct Hstep as (f & t & _ & Hf & ->). simpl.
    now rewrite (count_insert_same is_counted _ f _ _ Hf).
  - destruct Hstep as (t & Hf & ->). simpl.
    now rewrite (count_insert_same is_counted _ f _ _ Hf).
  - destruct Hstep as (t & found & w & r & Hf & _ & ->). simpl.
    now rewrite (count_insert_same is_counted _ f _ _ Hf).
  - destruct Hstep as (resp & t & r & _ & Hf & ->).
    destruct (do_yield_frame f t r c) as (-> & _ & -> & _).
    pose proof (count_insert is_counted _ f _ (t, Yielded r) Hf) as H.
    change (is_counted (t, Done r)) with false in H.
    rewrite Nat.add_0_r in H. rewrite H, IH.
    now destruct r as [[]|].
  - destruct Hstep as (resp & _ & _ & ->).
    now destruct (do_save_frame o resp c) as (-> & _ & _ & -> & _).
  - destruct Hstep as [_ ->].
    now destruct (do_clear_frame o c) as (-> & _ & _ & -> & _).
Qed.

Lemma all_yielded_batch_over (w0 : world) (es : list event) (c : config) :
  run es (init w0) = Some c ->
  forallb is_yielded (futures c) = true -> batch_over es c.
Proof.
  intros Hrun Hall f t st Hf.
  destruct (forallb_is_yielded_lookup _ Hall f t st Hf) as [r ->].
  split; [now exists r|]. eapply ended_has_finished; eauto.
Qed.

(** C2: the resume-state file is written by lines 197-204 only, and when
    they run every future submitted so far has finished and been collected,
    the tasks planned from the items of the page among them.  No other step
    of the program touches the file. *)
Theorem C2_cursor_saved_after_batch
    (w0 : world) (es : list event) (c : config) (e : event) (c' : config) :
  run es (init w0) = Some c -> step e c = Some c' ->
  match e with
  | Save _ =>
      batch_over es c /\
      exists resp items xs n,
        at_pc c = Collecting resp /\
        get resp "items" (JArr []) = Ok items /\ iter items = Ok xs /\
        drop n (map fst (futures c)) = plan_tasks folder xs
  | Clear _ => batch_over es c
  | _ => state_file (wld c') = state_file (wld c)
  end.
Proof.
  intros Hrun Hstep. apply step_inv in Hstep. destruct e.
  - destruct Hstep as [_ ->]. now destruct (do_load_frame c) as (_ & -> & _).
  - destruct Hstep as [_ ->]. now destruct (do_fetch_cases r c) as (-> & _).
  - now destruct Hstep as (f & t & _ & _ & ->).
  - now destruct Hstep as (t & _ & ->).
  - destruct Hstep as (t & found & w & r & _ & Hdl & ->). simpl.
    destruct found; [now injection Hdl as <- _|].
    destruct t as [url path].
    destruct (download_body_spec a url path (wld c)) as (w' & b & Hb & Hs & _).
    rewrite Hb in Hdl. now injection Hdl as <- _.
  - destruct Hstep as (resp & t & r & _ & _ & ->).
    now destruct (do_yield_frame f t r c) as (_ & -> & _).
  - destruct Hstep as (resp & Hpc & Hall & _). split.
    + eapply all_yielded_batch_over; eauto.
    + destruct (collecting_page_tasks w0 es c Hrun resp Hpc)
        as (items & xs & n & Hi & Hx & Hn).
      now exists resp, items, xs, n.
  - destruct Hstep as [Hpc _]. eapply all_yielded_batch_over; eauto.
    eapply quiet_all_yielded; eauto. now rewrite Hpc.
Qed.

Lemma running_until_finish (c : config) (e : event) (c' : config)
    (f : nat) (t : task) (x : option bool) :
  futures c !! f = Some (t, Running x) -> step e c = Some c' ->
  (exists y, futures c' !! f = Some (t, Running y)) \/ (exists a, e = Finish f a).
Proof.
  intros Hf Hstep. apply step_inv in Hstep. destruct e.
  - destruct Hstep as [_ ->]. destruct (do_load_frame c) as (-> & _). eauto.
  - destruct Hstep as [_ ->].
    destruct (do_fetch_cases r c)
      as (_ & _ & _ & _ & [[-> _]|(resp & items & xs & _ & _ & _ & _ & _ & ->)]);
      [eauto|].
    left. exists x. now apply lookup_app_l_Some.
  - destruct Hstep as (g & u & _ & Hg & ->). simpl. left. exists x.
    rewrite list_lookup_insert_ne; [exact Hf|]. intros ->. congruence.
  - destruct Hstep as (u & Hg & ->). simpl. left.
    destruct (decide (f0 = f)) as [Heq|Hne].
    + rewrite Heq in *. rewrite Hf in Hg. injection Hg as <- ->.
      eexists. apply list_lookup_insert_eq. eapply lookup_lt_Some; eauto.
    + exists x. now rewrite list_lookup_insert_ne.
  - destruct Hstep as (u & found & w & r & Hg & _ & ->). simpl.
    destruct (decide (f0 = f)) as [Heq|Hne]; [rewrite Heq; right; eauto|].
    left. exists x. now rewrite list_lookup_insert_ne.
  - destruct Hstep as (resp & u & r & _ & Hg & ->).
    destruct (do_yield_frame f0 u r c) as (-> & _). left. exists x.
    rewrite list_lookup_insert_ne; [exact Hf|]. intros ->. congruence.
  - destruct Hstep as (resp & _ & _ & ->).
    destruct (do_save_frame o resp c) as (-> & _). eauto.
  - destruct Hstep as [_ ->]. destruct (do_clear_frame o c) as (-> & _). eauto.
Qed.

(** C10: at no point of a run are more than 6 downloads being executed.
    The tasks of a page all become work items of the executor; a worker takes
    an item only while fewer than [MAX_WORKERS] = 6 are being executed, and
    an item stays in execution until its own call has returned. *)
Theorem C10_at_most_six_downloads (w0 : world) (es : list event) (c : config) :
  run es (init w0) = Some c ->
  in_flight (futures c) <= 6 /\
  (in_flight (futures c) = 6 -> step Start c = None) /\
  (forall r c' resp,
      step (Fetch r) c = Some c' -> at_pc c' = Collecting resp ->
      exists items xs,
        get resp "items" (JArr []) = Ok items /\ iter items = Ok xs /\
        futures c' =
          (futures c ++ map (fun t => (t, Pending)) (plan_tasks folder xs))%list) /\
  (forall e c' f t x,
      futures c !! f = Some (t, Running x) -> step e c = Some c' ->
      (exists y, futures c' !! f = Some (t, Running y)) \/ (exists a, e = Finish f a)).
Proof.
  intros Hrun. split; [exact (in_flight_bounded w0 es c Hrun)|]. split; [|split].
  - intros Hfull. destruct (step Start c) as [c'|] eqn:E; [|reflexivity].
    apply step_inv in E as (f & t & Hlt & _). unfold MAX_WORKERS in Hlt. lia.
  - intros r c' resp Hstep Hpc. apply step_inv in Hstep as [_ ->].
    destruct (do_fetch_cases r c)
      as (_ & _ & _ & _ & [[_ [H|[e H]]]|(resp' & items & xs & _ & Hi & _ & Hx & H & Hf)]);
      rewrite H in Hpc; try discriminate.
    injection Hpc as <-. now exists items, xs.
  - intros e c' f t x. apply running_until_finish.
Qed.

(** C7: when the request for a page raises, whatever the exception, [main]
    prints the error and leaves the loop: after a line break, the text
    [VK API error: ] and the message of the API for an error the API
    reported, the text [Unexpected error while requesting VK API] for any
    other; then the line [Done. Downloaded: <total>].  It ends with the
    files, the resume-state file included, exactly as they were before the
    request, the one request made, and no further step, so no second
    request. *)
Theorem C7_fetch_error_aborts
    (w0 : world) (es : list event) (c : config) (e : exn) :
  run es (init w0) = Some c -> at_pc c = Fetching ->
  exists c',
    step (Fetch (Raise e)) c = Some c' /\
    at_pc c' = Finished /\
    wld c' = wld c /\
    state c' = state c /\
    calls c' = (calls c ++ [params (start_from c)])%list /\
    output c' =
      (output c
       ++ [match e with
           | ApiError msg => String "010" ("VK API error: " ++ msg)%string
           | _ => String "010" "Unexpected error while requesting VK API"
           end;
           ("Done. Downloaded: " ++ str_of_int (Z.of_nat (total c)))%string])%list /\
    forall ev, step ev c' = None.
Proof.
  intros Hrun Hpc. exists (do_fetch (Raise e) c).
  assert (Hall : forallb is_yielded (futures c) = true).
  { eapply quiet_all_yielded; eauto. now rewrite Hpc. }
  split; [unfold step; now rewrite Hpc|].
  assert (H : at_pc (do_fetch (Raise e) c) = Finished /\
              futures (do_fetch (Raise e) c) = futures c /\
              output (do_fetch (Raise e) c) =
                (output c
                 ++ [match e with
                     | ApiError msg => String "010" ("VK API error: " ++ msg)%string
                     | _ => String "010" "Unexpected error while requesting VK API"
                     end;
                     ("Done. Downloaded: " ++ str_of_int (Z.of_nat (total c)))%string])%list).
  { unfold do_fetch, leave_loop, print, log_call, set_pc.
    cbn [at_pc futures output total].
    destruct e; rewrite <- app_assoc; repeat split; reflexivity. }
  destruct H as (Hfin & Hfs & Hout).
  destruct (do_fetch_cases (Raise e) c) as (Hw & _ & Hst & Hcalls & _).
  repeat split; try assumption.
  apply finished_is_final; [exact Hfin|now rewrite Hfs].
Qed.

Lemma new_requests_app (w0 w : world) (new : list task) :
  requests w = (requests w0 ++ new)%list -> new_requests w0 w = new.
Proof. unfold new_requests. intros ->. apply drop_app_length. Qed.

(** A file that is there when [main] starts is neither rewritten nor
    requested again, in any run, and no future for its path returns [True]. *)
Lemma present_file_untouched (w0 : world) (es : list event) (c : config)
    (path : string) (b : bytes) :
  files w0 !! path = Some b -> run es (init w0) = Some c ->
  files (wld c) !! path = Some b /\
  (forall u, In u (new_requests w0 (wld c)) -> snd u <> path) /\
  (forall f u st, futures c !! f = Some (u, st) -> snd u = path ->
                  has_succeeded st = false).
Proof.
  intros Hb Hrun.
  destruct (files_kept w0 es c Hrun) as (Hkeep & Hfut & new & Hnew & Hall).
  split; [now apply Hkeep|]. split.
  - rewrite (new_requests_app _ _ _ Hnew). intros u Hu Heq.
    rewrite <- Heq, (Hall u Hu) in Hb. discriminate.
  - intros f u st Hf Heq.
    destruct (has_succeeded st) eqn:E; [|reflexivity].
    rewrite <- Heq, (Hfut f u st Hf (or_intror E)) in Hb. discriminate.
Qed.

(** C3: a task whose destination path exists is skipped: [download_photo]
    issues no request, leaves the world, so the bytes of the file, as it is,
    and returns [False], for which [main] does not count the task.  So in a
    run of the program over a folder that holds the file, whatever the run,
    the file keeps its bytes, no request is issued for its path, and no
    future for its path is among those that returned [True], which are the
    ones [total] counts. *)
Theorem C3_existing_file_skipped (a : attempt) (t : task) (w : world) :
  is_Some (files w !! snd t) ->
  download_photo a t w = (w, Ok false) /\
  (forall f c, total (do_yield f t (Ok false) c) = total c) /\
  (forall es c,
      run es (init w) = Some c ->
      files (wld c) !! snd t = files w !! snd t /\
      (forall u, In u (new_requests w (wld c)) -> snd u <> snd t) /\
      (forall f u st, futures c !! f = Some (u, st) -> snd u = snd t ->
                      has_succeeded st = false) /\
      total c = count is_counted (futures c)).
Proof.
  intros [b Hb]. split; [|split].
  - apply download_photo_found. apply path_exists_true. now exists b.
  - reflexivity.
  - intros es c Hrun.
    destruct (present_file_untouched w es c (snd t) b Hb Hrun) as (Hf & Hr & Hs).
    split; [now rewrite Hf, Hb|]. split; [exact Hr|]. split; [exact Hs|].
    eapply total_counts; eauto.
Qed.

(** C9: a download that fails after its file was opened leaves at the
    destination what had been written; from then on every execution of the
    task returns [False] and changes nothing, and every later run of the
    program over a folder that holds the file keeps it as it is and issues
    no request for it. *)
Theorem C9_partial_file_stays (a : attempt) (url path : string) (w : world) :
  files w !! path = None ->
  get_ok a = true -> status_ok a = true -> open_ok a = true ->
  stream_ok a = false ->
  exists w1,
    download_photo a (url, path) w = (w1, Ok false) /\
    files w1 !! path = Some (concat (chunks a)) /\
    (forall attempts,
        repeat_download attempts (url, path) w1 =
        (w1, map (fun _ => Ok false) attempts)) /\
    (forall w2 es c,
        files w2 !! path = Some (concat (chunks a)) ->
        run es (init w2) = Some c ->
        files (wld c) !! path = Some (concat (chunks a)) /\
        forall u, In u (new_requests w2 (wld c)) -> snd u <> path).
Proof.
  intros Hnone Hget Hstatus Hopen Hstream.
  destruct (download_body_spec a url path w) as (w1 & b & Hb & _ & _ & Hfs & ->).
  rewrite Hget, Hstatus, Hopen, Hstream in *. simpl in *.
  assert (Hfile : files w1 !! path = Some (concat (chunks a)))
    by (rewrite Hfs; apply lookup_insert_eq).
  exists w1. split; [|split; [exact Hfile|split]].
  - rewrite download_photo_not_found; [exact Hb|].
    now apply path_exists_false.
  - intros attempts. apply repeat_download_found. apply path_exists_true.
    simpl. rewrite Hfile. now eexists.
  - intros w2 es c Hfile2 Hrun.
    destruct (present_file_untouched w2 es c path _ Hfile2 Hrun) as (Hf & Hr & _).
    now split.
Qed.

(** C8: [load_state] returns in every case, with the empty mapping when the
    file is absent, unreadable or not JSON; [save_state] returns in every
    case; and lines 197-204 go the same way, with the same values of the
    program's variables, whether their write succeeds or not. *)
Theorem C8_store_never_raises :
  (forall w, exists v, load_state w = (w, Ok v)) /\
  (forall fs rq,
      load_state (World Absent fs rq) = (World Absent fs rq, Ok (JObj []))) /\
  (forall t fs rq,
      load_state (World (Present false t) fs rq) =
      (World (Present false t) fs rq, Ok (JObj []))) /\
  (forall r fs rq,
      load_state (World (Present r Garbled) fs rq) =
      (World (Present r Garbled) fs rq, Ok (JObj []))) /\
  (forall o st w, exists w', save_state o st w = (w', Ok tt)) /\
  (forall o resp c,
      at_pc (do_save o resp c) = at_pc (do_save Written resp c) /\
      state (do_save o resp c) = state (do_save Written resp c) /\
      start_from (do_save o resp c) = start_from (do_save Written resp c) /\
      total (do_save o resp c) = total (do_save Written resp c)) /\
  (forall o c,
      at_pc (do_clear o c) = at_pc (do_clear Written c) /\
      state (do_clear o c) = state (do_clear Written c) /\
      total (do_clear o c) = total (do_clear Written c)).
Proof.
  split; [exact load_state_total|].
  split; [reflexivity|]. split; [reflexivity|].
  split; [now intros [] fs rq|].
  split.
  { intros o st w. destruct (save_state_total o st w) as (w' & H & _). eauto. }
  split.
  - intros o resp c. unfold do_save.
    destruct (get resp "next_from" JNull) as [sf|e]; [|auto].
    destruct (setitem (state c) key sf) as [st|e]; [|auto].
    destruct o; simpl; auto.
  - intros o c. unfold do_clear.
    destruct (pop (state c) key) as [st|e]; [|auto].
    destruct o; simpl; auto.
Qed.

(** X20 ([main], lines 171-173).  A page without items ends the run
    without a write: the resume-state file stays as the last save left it,
    the cursor of the conversation included. *)
Lemma empty_page_keeps_world
    (w0 : world) (es : list event) (c : config) (resp items : json) :
  run es (init w0) = Some c -> at_pc c = Fetching ->
  get resp "items" (JArr []) = Ok items -> truthy items = false ->
  exists c',
    step (Fetch (Ok resp)) c = Some c' /\ at_pc c' = Finished /\
    wld c' = wld c /\ forall ev, step ev c' = None.
Proof.
  intros Hrun Hpc Hi Ht. exists (do_fetch (Ok resp) c).
  assert (Hall : forallb is_yielded (futures c) = true).
  { eapply quiet_all_yielded; eauto. now rewrite Hpc. }
  split; [unfold step; now rewrite Hpc|].
  assert (H : at_pc (do_fetch (Ok resp) c) = Finished /\
              futures (do_fetch (Ok resp) c) = futures c).
  { unfold do_fetch. rewrite Hi, Ht. simpl. auto. }
  destruct H as (Hfin & Hfs).
  destruct (do_fetch_cases (Ok resp) c) as (Hw & _).
  repeat split; try assumption.
  apply finished_is_final; [exact Hfin|now rewrite Hfs].
Qed.

Lemma dict_lookup_set (k : string) (v : json) (d : list (string * json)) :
  dict_lookup k (dict_set k v d) = Some v.
Proof.
  induction d as [|[k' v'] d IH]; simpl.
  - now rewrite String.eqb_refl.
  - destruct (String.eqb k k') eqn:E; simpl; now rewrite E.
Qed.

Lemma dict_lookup_pop (k : string) (d : list (string * json)) :
  dict_lookup k (dict_pop k d) = None.
Proof.
  induction d as [|[k' v'] d IH]; simpl; [reflexivity|].
  destruct (String.eqb k k') eqn:E; simpl; [exact IH|now rewrite E].
Qed.

(** Past line 146, and unless it has crashed, [main] holds a dict in
    [state]. *)
Lemma state_is_object (w0 : world) (es : list event) (c : config) :
  run es (init w0) = Some c ->
  at_pc c <> Loading -> (forall e, at_pc c <> Crashed e) ->
  exists d, state c = JObj d.
Proof.
  revert es c.
  apply (run_ind (init w0)
           (fun _ c => at_pc c <> Loading -> (forall e, at_pc c <> Crashed e) ->
                       exists d, state c = JObj d)).
  { intros H. now contradiction H. }
  intros es c e c' _ IH Hstep Hl Hc. apply step_inv in Hstep. destruct e.
  - destruct Hstep as [_ ->]. revert Hl Hc. unfold do_load.
    destruct (load_state_total (wld c)) as [st ->].
    destruct st; simpl; intros Hl Hc; try (now contradiction (Hc AttributeError)).
    destruct (dict_lookup key d); simpl; now eexists.
  - destruct Hstep as [Hpc ->].
    destruct (do_fetch_cases r c) as (_ & _ & -> & _).
    apply IH; [congruence|]. intros e. congruence.
  - destruct Hstep as (f & t & _ & _ & ->). now apply IH.
  - destruct Hstep as (t & _ & ->). now apply IH.
  - destruct Hstep as (t & found & w & r & _ & _ & ->). now apply IH.
  - destruct Hstep as (resp & t & r & Hpc & _ & ->). revert Hl Hc.
    unfold do_yield. destruct r as [[]|e]; simpl; intros Hl Hc;
      try (apply IH; [congruence|intros e; congruence]).
    now contradiction (Hc e).
  - destruct Hstep as (resp & Hpc & _ & ->). revert Hl Hc. unfold do_save.
    destruct (get resp "next_from" JNull) as [sf|e]; simpl;
      [|intros _ Hc; now contradiction (Hc e)].
    destruct (setitem (state c) key sf) as [st|e] eqn:Es; simpl;
      [|intros _ Hc; now contradiction (Hc e)].
    destruct (save_state_total o st (wld c)) as (w & -> & _). simpl.
    intros _ _. unfold setitem in Es. destruct (state c); try discriminate.
    injection Es as <-. now eexists.
  - destruct Hstep as [Hpc ->]. revert Hl Hc. unfold do_clear.
    destruct (pop (state c) key) as [st|e] eqn:Es; simpl;
      [|intros _ Hc; now contradiction (Hc e)].
    destruct (save_state_total o st (wld c)) as (w & -> & _). simpl.
    intros _ _. unfold pop in Es. destruct (state c); try discriminate.
    injection Es as <-. now eexists.
Qed.

(** X21 ([main], lines 197-199).  A successful write of lines 197-199
    leaves in the resume-state file the [next_from] of the page just
    processed. *)
Lemma save_persists_next_from
    (w0 : world) (es : list event) (c c' : config) (resp : json) :
  run es (init w0) = Some c -> at_pc c = Collecting resp ->
  step (Save Written) c = Some c' ->
  exists r st,
    state_file (wld c') = Present r (Json st) /\
    getitem st key = get resp "next_from" JNull.
Proof.
  intros Hrun Hpc Hstep.
  destruct (state_is_object w0 es c Hrun) as [d Hd]; [congruence|intros e; congruence|].
  apply step_inv in Hstep as (resp' & Hpc' & _ & ->).
  rewrite Hpc in Hpc'. injection Hpc' as <-.
  assert (Hresp : exists sf, get resp "next_from" JNull = Ok sf).
  { destruct (collecting_page_tasks w0 es c Hrun resp Hpc) as (items & _ & _ & Hi & _).
    destruct resp; try discriminate Hi. simpl.
    destruct (dict_lookup "next_from" d0); eauto. }
  destruct Hresp as [sf Hsf]. unfold do_save. rewrite Hsf, Hd. simpl.
  exists (keeps_readable (state_file (wld c))), (JObj (dict_set key sf d)).
  split; [now destruct (truthy sf)|]. simpl. now rewrite dict_lookup_set.
Qed.

(** X22 ([main], lines 201-204).  A successful write of lines 202-203, on
    the path where the page had no [next_from], leaves the resume-state file
    without the conversation's key. *)
Lemma clear_removes_key (w0 : world) (es : list event) (c c' : config) :
  run es (init w0) = Some c -> step (Clear Written) c = Some c' ->
  exists r st,
    state_file (wld c') = Present r (Json st) /\
    getitem st key = Raise KeyError.
Proof.
  intros Hrun Hstep. apply step_inv in Hstep as (Hpc & ->).
  destruct (state_is_object w0 es c Hrun) as [d Hd]; [congruence|intros e; congruence|].
  unfold do_clear. rewrite Hd. simpl.
  exists (keeps_readable (state_file (wld c))), (JObj (dict_pop key d)).
  split; [reflexivity|]. simpl. now rewrite dict_lookup_pop.
Qed.

(** ** The downloads, case by case *)

(** X8 ([download_photo], lines 106-118).  The call never raises; it
    returns [True] exactly when the path did not exist and the request, the
    status check, the opening of the file and the streaming all went
    through; it issues a request only when the path did not exist; it
    leaves every other path, every file that existed, and the resume-state
    file as they were. *)
Theorem download_photo_outcome (a : attempt) (url path : string) (w : world) :
  exists w',
    download_photo a (url, path) w =
      (w', Ok (negb (path_exists path w) && succeeds a)) /\
    state_file w' = state_file w /\
    (forall p, p <> path -> files w' !! p = files w !! p) /\
    (forall p b, files w !! p = Some b -> files w' !! p = Some b) /\
    requests w' =
      (requests w ++ (if path_exists path w then [] else [(url, path)]))%list.
Proof.
  destruct (path_exists path w) eqn:E.
  - exists w. rewrite download_photo_found by exact E.
    rewrite app_nil_r. auto.
  - rewrite download_photo_not_found by exact E.
    destruct (download_body_spec a url path w) as (w' & b & -> & Hs & Hr & Hf & ->).
    exists w'. apply path_exists_false in E. repeat split; auto.
    + intros p Hp. rewrite Hf.
      destruct (get_ok a && status_ok a && open_ok a); [|reflexivity].
      now rewrite lookup_insert_ne.
    + intros p b Hp. rewrite Hf.
      destruct (get_ok a && status_ok a && open_ok a); [|exact Hp].
      rewrite lookup_insert_ne; [exact Hp|]. intros <-. congruence.
Qed.

(** X9 ([download_photo], lines 106-118).  A call that fails before the
    file is opened leaves no file behind, so a later call for the same task
    transfers the photo; this is how a failed download is taken up again by
    the next run. *)
Theorem failed_request_is_retried (a a2 : attempt) (url path : string) (w : world) :
  files w !! path = None ->
  get_ok a && status_ok a && open_ok a = false ->
  exists w1,
    download_photo a (url, path) w = (w1, Ok false) /\
    files w1 = files w /\
    (succeeds a2 = true ->
     exists w2,
       download_photo a2 (url, path) w1 = (w2, Ok true) /\
       files w2 !! path = Some (concat (chunks a2))).
Proof.
  intros Hnone Hfail.
  assert (Hex : path_exists path w = false) by now apply path_exists_false.
  rewrite download_photo_not_found by exact Hex.
  destruct (download_body_spec a url path w) as (w1 & b & -> & _ & _ & Hf & ->).
  rewrite Hfail in *. exists w1. repeat split; auto.
  intros Hok. unfold succeeds in Hok.
  assert (Hex1 : path_exists path w1 = false)
    by (apply path_exists_false; now rewrite Hf).
  rewrite download_photo_not_found by exact Hex1.
  destruct (download_body_spec a2 url path w1) as (w2 & b & -> & _ & _ & Hf2 & ->).
  rewrite Hok. exists w2. split; [reflexivity|].
  apply andb_prop in Hok as [Hok _]. rewrite Hok in Hf2.
  rewrite Hf2. apply lookup_insert_eq.
Qed.

(** ** The file extension *)

Lemma final_segment_suffix (s : string) :
  exists before,
    s = before ++ final_segment s /\
    (has_dot s = true -> exists b, before = b ++ ".").
Proof.
  induction s as [|c s (before & IH & Hdot)].
  - exists "". split; [reflexivity|discriminate].
  - cbn [final_segment has_dot]. destruct (has_dot s) eqn:E.
    + exists (String c before). split; [exact (f_equal (String c) IH)|].
      intros _. destruct (Hdot eq_refl) as [b ->]. now exists (String c b).
    + destruct (Ascii.eqb_spec c ".") as [->|Hc].
      * exists ".". split; [reflexivity|]. intros _. now exists "".
      * exists "". split; [reflexivity|]. rewrite orb_false_r. discriminate.
Qed.

Lemma has_dot_final_segment (s : string) : has_dot (final_segment s) = false.
Proof.
  induction s as [|c s IH]; [reflexivity|]. cbn [final_segment].
  destruct (has_dot s) eqn:E; [exact IH|].
  destruct (Ascii.eqb c ".") eqn:Ec; [exact E|].
  cbn [has_dot]. now rewrite Ec, E.
Qed.

Lemma strip_query_suffix (before : string) :
  forall s e, strip_query s = s -> s = before ++ e -> strip_query e = e.
Proof.
  induction before as [|c before IH]; intros s e Hs He.
  - change ("" ++ e) with e in He. now subst e.
  - change (String c before ++ e) with (String c (before ++ e)) in He.
    subst s. cbn [strip_query] in Hs. destruct (Ascii.eqb c "?"); [discriminate|].
    injection Hs as Hs. exact (IH _ e Hs eq_refl).
Qed.

Lemma strip_query_idem (u : string) : strip_query (strip_query u) = strip_query u.
Proof.
  induction u as [|c u IH]; [reflexivity|]. cbn [strip_query].
  destruct (Ascii.eqb c "?") eqn:E; [reflexivity|].
  cbn [strip_query]. now rewrite E, IH.
Qed.

(** X10 (the planner, line 184).  [url.split("?")[0].split(".")[-1]] never
    raises.  The extension it gives is the end of the URL text before the
    query string, has no dot and no question mark in it, comes right after
    the last dot of that text, and is that whole text when it has no dot. *)
Theorem extension_shape (u : string) :
  exists e before,
    extension u = Ok e /\ strip_query u = before ++ e /\
    has_dot e = false /\ strip_query e = e /\
    (has_dot (strip_query u) = true -> exists b, before = b ++ ".") /\
    (has_dot (strip_query u) = false -> e = strip_query u).
Proof.
  destruct (final_segment_suffix (strip_query u)) as (before & Hb & Hdot).
  exists (final_segment (strip_query u)), before.
  split; [apply extension_spec|]. split; [exact Hb|].
  split; [apply has_dot_final_segment|].
  split; [exact (strip_query_suffix before _ _ (strip_query_idem u) Hb)|].
  split; [exact Hdot|]. intros H. now apply final_segment_no_dot.
Qed.

(** ** The start of the run *)

(** X11 ([main], lines 145-162).  The first request resumes where the
    resume-state file says: its parameters are the conversation, the media
    type [photo], the page size 200, and the cursor the file holds for the
    conversation, which is passed only when it is a true value; the file is
    not written on the way. *)
Theorem first_request_resumes (w : world) (v : json) (r : result json) :
  persisted_cursor w = Ok v ->
  exists c,
    run [Load; Fetch r] (init w) = Some c /\
    calls c = [params v] /\ wld c = w /\
    getitem (params v) "peer_id" = Ok (JInt peer_id) /\
    getitem (params v) "media_type" = Ok (JStr "photo") /\
    getitem (params v) "count" = Ok (JInt 200) /\
    getitem (params v) "start_from" = (if truthy v then Ok v else Raise KeyError).
Proof.
  unfold persisted_cursor. destruct (load_state_total w) as [st Hst].
  rewrite Hst. intros Hv.
  assert (Hl : do_load (init w) = Config Fetching st v 0 [] w [] []).
  { unfold do_load. change (wld (init w)) with w. now rewrite Hst, Hv. }
  exists (do_fetch r (Config Fetching st v 0 [] w [] [])). split.
  { change (run [Load; Fetch r] (init w))
      with (match Some (do_load (init w)) with
            | Some c' => run [Fetch r] c'
            | None => None
            end).
    now rewrite Hl. }
  destruct (do_fetch_cases r
              (Config Fetching st v 0 [] w [] [])) as (Hw & _ & _ & Hc & _).
  cbn in Hw, Hc. rewrite Hw, Hc. repeat split.
  unfold params, getitem. destruct (truthy v); reflexivity.
Qed.

(** X12 ([main], lines 145-146).  A resume-state file that holds JSON
    other than an object, a list or [null] for instance, is not taken as
    empty: [load_state] returns the value, [state.get] raises
    [AttributeError] outside every [try], and [main] ends there, before any
    request, with nothing printed. *)
Theorem non_object_state_crashes (w : world) (v : json) :
  state_file w = Present true (Json v) -> (forall d, v <> JObj d) ->
  exists c,
    run [Load] (init w) = Some c /\ at_pc c = Crashed AttributeError /\
    wld c = w /\ calls c = [] /\ output c = [] /\ forall e, step e c = None.
Proof.
  intros Hfile Hv.
  assert (Hst : load_state w = (w, Ok v)).
  { destruct w as [sf fs rq]. simpl in Hfile. now subst sf. }
  assert (Hget : get v key JNull = Raise AttributeError)
    by (destruct v; try reflexivity; now contradiction (Hv d)).
  assert (Hl : do_load (init w) = Config (Crashed AttributeError) v JNull 0 [] w [] []).
  { unfold do_load. change (wld (init w)) with w. now rewrite Hst, Hget. }
  exists (Config (Crashed AttributeError) v JNull 0 [] w [] []).
  split; [change (run [Load] (init w)) with (Some (do_load (init w))); now rewrite Hl|].
  repeat split. intros e. now destruct e.
Qed.

(** ** The cursors of the other conversations *)

Lemma int_of_string_str (n : Z) :
  NilZero.int_of_string (str_of_int n) = Some (Z.to_int n).
Proof.
  unfold str_of_int.
  apply NilZero.isi; destruct n; simpl; try discriminate;
    intros [= H]; now apply Unsigned.to_uint_nonnil in H.
Qed.

Lemma str_of_int_inj (a b : Z) : str_of_int a = str_of_int b -> a = b.
Proof.
  intros H. apply (f_equal NilZero.int_of_string) in H.
  rewrite !int_of_string_str in H. injection H as H.
  apply (f_equal Z.of_int) in H. now rewrite !DecimalZ.of_to in H.
Qed.

Lemma dict_lookup_set_ne (k k' : string) (v : json) (d : list (string * json)) :
  k' <> k -> dict_lookup k' (dict_set k v d) = dict_lookup k' d.
Proof.
  intros Hne. induction d as [|[k0 v0] d IH]; simpl.
  - now destruct (String.eqb_spec k' k).
  - destruct (String.eqb_spec k k0) as [->|Hk]; simpl.
    + now destruct (String.eqb_spec k' k0).
    + now rewrite IH.
Qed.

Lemma dict_lookup_pop_ne (k k' : string) (d : list (string * json)) :
  k' <> k -> dict_lookup k' (dict_pop k d) = dict_lookup k' d.
Proof.
  intros Hne. induction d as [|[k0 v0] d IH]; simpl; [reflexivity|].
  destruct (String.eqb_spec k k0) as [->|Hk]; simpl.
  - rewrite IH. now destruct (String.eqb_spec k' k0).
  - now rewrite IH.
Qed.

Lemma others_agree_trans (a b c : json) :
  others_agree a b -> others_agree b c -> others_agree a c.
Proof. intros Hab Hbc other Hne. now rewrite Hab, Hbc. Qed.

Lemma other_key (other : Z) : other <> peer_id -> str_of_int other <> key.
Proof. intros Hne H. now apply str_of_int_inj in H. Qed.

Lemma save_state_file_after (o : write_outcome) (st : json) (w : world) :
  file_after (state_file w) (state_file (fst (save_state o st w))) st.
Proof.
  unfold file_after.
  destruct o; unfold save_state, try_except, write_state_file; simpl; eauto.
Qed.

Lemma do_save_others (o : write_outcome) (resp : json) (c : config) :
  others_agree (state (do_save o resp c)) (state c) /\
  file_after (state_file (wld c)) (state_file (wld (do_save o resp c)))
             (state (do_save o resp c)).
Proof.
  unfold do_save. destruct (get resp "next_from" JNull) as [sf|e]; simpl;
    [|split; [intros ? ?; reflexivity|now left]].
  destruct (setitem (state c) key sf) as [st|e] eqn:Es; simpl;
    [|split; [intros ? ?; reflexivity|now left]].
  pose proof (save_state_file_after o st (wld c)) as Hfile.
  destruct (save_state_total o st (wld c)) as (w & Hw & _).
  rewrite Hw in *. simpl in *. split; [|exact Hfile].
  unfold setitem in Es. destruct (state c) as [| | | | |d]; try discriminate.
  injection Es as <-. intros other Hne. unfold getitem.
  now rewrite (dict_lookup_set_ne _ _ _ _ (other_key other Hne)).
Qed.

Lemma do_clear_others (o : write_outcome) (c : config) :
  others_agree (state (do_clear o c)) (state c) /\
  file_after (state_file (wld c)) (state_file (wld (do_clear o c)))
             (state (do_clear o c)).
Proof.
  unfold do_clear. destruct (pop (state c) key) as [st|e] eqn:Es; simpl;
    [|split; [intros ? ?; reflexivity|now left]].
  pose proof (save_state_file_after o st (wld c)) as Hfile.
  destruct (save_state_total o st (wld c)) as (w & Hw & _).
  rewrite Hw in *. simpl in *. split; [|exact Hfile].
  unfold pop in Es. destruct (state c) as [| | | | |d]; try discriminate.
  injection Es as <-. intros other Hne. unfold getitem.
  now rewrite (dict_lookup_pop_ne _ _ _ (other_key other Hne)).
Qed.

(** X13 ([main], lines 145-146 and 197-204).  The resume state is one
    mapping for all conversations, and the run changes only the entry of
    its own: whatever the run does, the variable [state], and the file as
    soon as a write of it goes through, hold for every other conversation
    the cursor that [load_state] found at the start.  The one way the
    others are lost is a dump that breaks off and leaves the file cut
    short. *)
Theorem other_conversations_kept
    (w0 : world) (st0 : json) (es : list event) (c : config) :
  load_state w0 = (w0, Ok st0) -> run es (init w0) = Some c ->
  (at_pc c = Loading \/ others_agree (state c) st0) /\
  (state_file (wld c) = state_file w0 \/
   (exists r, state_file (wld c) = Present r Garbled) \/
   exists r st, state_file (wld c) = Present r (Json st) /\ others_agree st st0).
Proof.
  intros Hload.
  pose (inv := fun c : config =>
     at_pc c <> Loading /\ others_agree (state c) st0 /\
     (state_file (wld c) = state_file w0 \/
      (exists r, state_file (wld c) = Present r Garbled) \/
      exists r st, state_file (wld c) = Present r (Json st) /\ others_agree st st0)).
  assert (Hinv : run es (init w0) = Some c -> c = init w0 \/ inv c).
  { revert es c.
    apply (run_ind (init w0) (fun _ c => c = init w0 \/ inv c)); [now left|].
    intros es c e c' _ IH Hstep. right. apply step_inv in Hstep.
    assert (Hkeep : forall c1 : config,
               at_pc c1 = at_pc c -> state c1 = state c ->
               state_file (wld c1) = state_file (wld c) ->
               futures c <> [] -> inv c1).
    { intros c1 Hpc Hst Hfile Hfs. destruct IH as [->|(H1 & H2 & H3)].
      - now contradiction Hfs.
      - unfold inv. now rewrite Hpc, Hst, Hfile. }
    assert (Hquiet : forall c1 : config,
               at_pc c <> Loading -> at_pc c1 <> Loading ->
               state c1 = state c ->
               state_file (wld c1) = state_file (wld c) -> inv c1).
    { intros c1 Hpc Hpc1 Hst Hfile. destruct IH as [->|(H1 & H2 & H3)].
      - now contradiction Hpc.
      - unfold inv. now rewrite Hst, Hfile. }
    assert (Hwrite : forall c1 : config,
               at_pc c <> Loading -> at_pc c1 <> Loading ->
               others_agree (state c1) (state c) ->
               file_after (state_file (wld c)) (state_file (wld c1)) (state c1) ->
               inv c1).
    { intros c1 Hpc Hpc1 Hst Hfile. destruct IH as [->|(H1 & H2 & H3)].
      - now contradiction Hpc.
      - assert (Hst1 : others_agree (state c1) st0)
          by exact (others_agree_trans _ _ _ Hst H2).
        split; [exact Hpc1|]. split; [exact Hst1|].
        destruct Hfile as [->|[Hg|[r Hj]]]; [exact H3|now right; left|].
        right; right. eauto. }
    destruct e.
    - destruct Hstep as [Hpc ->]. destruct IH as [->|(H1 & _)]; [|now contradiction H1].
      unfold do_load. change (wld (init w0)) with w0. rewrite Hload.
      destruct (get st0 key JNull); simpl;
        (split; [discriminate|split; [intros ? ?; reflexivity|now left]]).
    - destruct Hstep as [Hpc ->].
      destruct (do_fetch_cases r c) as (Hw & _ & Hs & _ & Hcase).
      apply Hquiet; [congruence| |exact Hs|now rewrite Hw].
      destruct Hcase as [[_ [H|[e H]]]|(resp & items & xs & _ & _ & _ & _ & H & _)];
        rewrite H; discriminate.
    - destruct Hstep as (f & t & _ & Hf & ->).
      apply Hkeep; try reflexivity. intros H. now rewrite H in Hf.
    - destruct Hstep as (t & Hf & ->).
      apply Hkeep; try reflexivity. intros H. now rewrite H in Hf.
    - destruct Hstep as (t & found & w & r & Hf & Hdl & ->).
      apply Hkeep; try reflexivity; [|intros H; now rewrite H in Hf].
      simpl. destruct found; [now injection Hdl as <- _|].
      destruct t as [url path].
      destruct (download_body_spec a url path (wld c)) as (w' & b & Hb & Hs & _).
      rewrite Hb in Hdl. now injection Hdl as <- _.
    - destruct Hstep as (resp & t & r & Hpc & Hf & ->).
      apply Hquiet; [congruence| | |].
      + destruct (do_yield_frame f t r c) as (_ & _ & _ & [H|[e H]]);
          rewrite H; [congruence|discriminate].
      + unfold do_yield. now destruct r as [[]|].
      + now destruct (do_yield_frame f t r c) as (_ & -> & _).
    - destruct Hstep as (resp & Hpc & _ & ->).
      destruct (do_save_others o resp c) as [Hs Hfile].
      apply Hwrite; [congruence| |exact Hs|exact Hfile].
      destruct (do_save_frame o resp c) as (_ & _ & _ & _ & [H|[H|[e H]]]);
        rewrite H; discriminate.
    - destruct Hstep as [Hpc ->].
      destruct (do_clear_others o c) as [Hs Hfile].
      apply Hwrite; [congruence| |exact Hs|exact Hfile].
      destruct (do_clear_frame o c) as (_ & _ & _ & _ & [H|[e H]]);
        rewrite H; discriminate. }
  intros Hrun. destruct (Hinv Hrun) as [->|(H1 & H2 & H3)].
  - split; [now left|now left].
  - split; [now right|exact H3].
Qed.

(** ** The batch of a page *)

Lemma futures_cases (fs : list (task * fstatus)) :
  (exists f (t : task) r, fs !! f = Some (t, Done r)) \/
  (exists f (t : task) x, fs !! f = Some (t, Running x)) \/
  (in_flight fs = 0 /\
   ((exists f, first_pending fs = Some f) \/ forallb is_yielded fs = true)).
Proof.
  induction fs as [|[t st] fs IH].
  - right; right. split; [reflexivity|now right].
  - destruct st as [|x|r|r].
    + destruct IH as [(f & u & r & H)|[(f & u & x & H)|[H0 H]]].
      * left. now exists (S f), u, r.
      * right; left. now exists (S f), u, x.
      * right; right. split; [exact H0|]. left. now exists 0.
    + right; left. now exists 0, t, x.
    + left. now exists 0, t, r.
    + destruct IH as [(f & u & r' & H)|[(f & u & x & H)|[H0 H]]].
      * left. now exists (S f), u, r'.
      * right; left. now exists (S f), u, x.
      * right; right. split; [exact H0|].
        destruct H as [[f H]|H]; [left|right].
        -- exists (S f). cbn [first_pending]. now rewrite H.
        -- exact H.
Qed.

(** X14 ([main], lines 191-199, and the executor).  While [main] waits in
    the loop of line 192 the program is never stuck: a finished call can be
    yielded, or a running call can go on, or a worker is free for the oldest
    pending item, or else every future has been yielded and the loop is
    left for line 197. *)
Theorem batch_never_stuck (c : config) (resp : json) :
  at_pc c = Collecting resp -> exists e c', step e c = Some c'.
Proof.
  intros Hpc.
  destruct (futures_cases (futures c))
    as [(f & t & r & H)|[(f & t & [found|] & H)|[H0 [[f H]|H]]]].
  - exists (Yield f). unfold step. rewrite Hpc, H. eauto.
  - exists (Finish f (Attempt true true true [] true)).
    unfold step, do_finish. rewrite H.
    destruct ((if found then ret false
               else download_body (Attempt true true true [] true) t) (wld c)).
    destruct (at_pc c); eauto.
  - exists (Check f). unfold step, do_check. rewrite H. destruct (at_pc c); eauto.
  - exists Start. unfold step, do_start. rewrite H0, H.
    destruct (first_pending_lookup _ _ H) as [t ->].
    destruct (at_pc c); eauto.
  - exists (Save Written). unfold step. rewrite Hpc, H. eauto.
Qed.

Lemma work_app (fs gs : list (task * fstatus)) :
  work (fs ++ gs) = work fs + work gs.
Proof. induction fs as [|ft fs IH]; simpl; [reflexivity|]. rewrite IH. lia. Qed.

Lemma work_pending (ts : list task) :
  work (map (fun t => (t, Pending)) ts) = 4 * length ts.
Proof. induction ts as [|t ts IH]; simpl; [reflexivity|]. rewrite IH. lia. Qed.

Lemma work_insert (fs : list (task * fstatus)) :
  forall f (t u : task) st st',
    fs !! f = Some (t, st) ->
    work (<[f := (u, st')]> fs) + remaining st = work fs + remaining st'.
Proof.
  induction fs as [|ft fs IH]; intros [|f] t u st st' H; try discriminate.
  - injection H as ->. simpl. lia.
  - simpl in *. specialize (IH f t u st st' H). lia.
Qed.

Lemma work_zero (fs : list (task * fstatus)) :
  work fs = 0 <-> forallb is_yielded fs = true.
Proof.
  induction fs as [|[t st] fs IH]; simpl; [tauto|].
  unfold is_yielded at 1. simpl. rewrite andb_true_iff, <- IH.
  destruct st as [|[[]|]|r|r]; simpl; split; try lia;
    try (intros [? ?]; discriminate).
Qed.

(** X15 ([main], lines 191-199, and the executor).  The batch of a page
    ends: each future goes through four events, being taken by a worker,
    the test of line 108, the return of its call and its turn in the loop
    of line 192, each of which brings the batch one event closer to its
    end; a page of [n] tasks adds [4 * n] events; no other step adds any;
    and line 197 is reached exactly when none is left. *)
Theorem batch_work_decreases (e : event) (c c' : config) :
  step e c = Some c' ->
  match e with
  | Start | Check _ | Finish _ _ | Yield _ =>
      work (futures c') + 1 = work (futures c)
  | Fetch _ =>
      work (futures c') =
      work (futures c) + 4 * (length (futures c') - length (futures c))
  | Save _ => work (futures c) = 0 /\ work (futures c') = 0
  | Load | Clear _ => work (futures c') = work (futures c)
  end.
Proof.
  intros Hstep. apply step_inv in Hstep. destruct e.
  - destruct Hstep as [_ ->]. now destruct (do_load_frame c) as (-> & _).
  - destruct Hstep as [_ ->].
    destruct (do_fetch_cases r c)
      as (_ & _ & _ & _ & [[-> _]|(resp & items & xs & _ & _ & _ & _ & _ & ->)]).
    + lia.
    + rewrite work_app, work_pending, length_app, length_map. lia.
  - destruct Hstep as (f & t & _ & Hf & ->). simpl.
    pose proof (work_insert _ _ _ t _ (Running None) Hf). simpl in *. lia.
  - destruct Hstep as (t & Hf & ->). simpl.
    pose proof (work_insert _ _ _ t _
                  (Running (Some (path_exists (snd t) (wld c)))) Hf).
    simpl in *. lia.
  - destruct Hstep as (t & found & w & r & Hf & _ & ->). simpl.
    pose proof (work_insert _ _ _ t _ (Done r) Hf). simpl in *. lia.
  - destruct Hstep as (resp & t & r & _ & Hf & ->).
    destruct (do_yield_frame f t r c) as (-> & _).
    pose proof (work_insert _ _ _ t _ (Yielded r) Hf). simpl in *. lia.
  - destruct Hstep as (resp & _ & Hall & ->).
    destruct (do_save_frame o resp c) as (-> & _).
    apply work_zero in Hall. auto.
  - destruct Hstep as [_ ->]. now destruct (do_clear_frame o c) as (-> & _).
Qed.

(** ** What the run writes *)

Lemma plan_tasks_from_items (xs : list json) (t : task) :
  In t (plan_tasks folder xs) ->
  exists item, In item xs /\ plan_item folder item = Ok (Some t).
Proof.
  rewrite plan_tasks_planned. intros (item & Hin & Ht)%in_flat_map.
  exists item. split; [exact Hin|]. unfold planned in Ht.
  destruct (plan_item folder item) as [[u|]|]; try contradiction.
  now destruct Ht as [->|[]].
Qed.

Lemma futures_are_planned (w0 : world) (es : list event) (c : config) :
  run es (init w0) = Some c ->
  forall f (t : task) st,
    futures c !! f = Some (t, st) ->
    exists item, plan_item folder item = Ok (Some t).
Proof.
  revert es c.
  apply (run_ind (init w0)
           (fun _ c => forall f (t : task) st,
                futures c !! f = Some (t, st) ->
                exists item, plan_item folder item = Ok (Some t))).
  { intros f t st H. discriminate H. }
  intros es c e c' _ IH Hstep. apply step_inv in Hstep.
  assert (Hins : forall g (u : task) s s',
             futures c !! g = Some (u, s) ->
             forall f (t : task) st,
               <[g := (u, s')]> (futures c) !! f = Some (t, st) ->
               exists item, plan_item folder item = Ok (Some t)).
  { intros g u s s' Hg f t st Hf.
    apply list_lookup_insert_Some in Hf as [(_ & [= <- _] & _)|[_ Hf]]; eauto. }
  destruct e.
  - destruct Hstep as [_ ->]. now destruct (do_load_frame c) as (-> & _).
  - destruct Hstep as [_ ->].
    destruct (do_fetch_cases r c)
      as (_ & _ & _ & _ & [[-> _]|(resp & items & xs & _ & _ & _ & _ & _ & ->)]);
      [exact IH|].
    intros f t st Hf. apply lookup_app_Some in Hf as [Hf|[_ Hf]]; [eauto|].
    rewrite list_lookup_fmap in Hf. apply fmap_Some in Hf as (t' & Ht' & [= -> _]).
    apply list_elem_of_lookup_2, list_elem_of_In in Ht'.
    destruct (plan_tasks_from_items xs t' Ht') as (item & _ & H). eauto.
  - destruct Hstep as (f & t & _ & Hf & ->). exact (Hins _ _ _ _ Hf).
  - destruct Hstep as (t & Hf & ->). exact (Hins _ _ _ _ Hf).
  - destruct Hstep as (t & found & w & r & Hf & _ & ->). exact (Hins _ _ _ _ Hf).
  - destruct Hstep as (resp & t & r & _ & Hf & ->).
    destruct (do_yield_frame f t r c) as (-> & _). exact (Hins _ _ _ _ Hf).
  - destruct Hstep as (resp & _ & _ & ->).
    now destruct (do_save_frame o resp c) as (-> & _).
  - destruct Hstep as [_ ->]. now destruct (do_clear_frame o c) as (-> & _).
Qed.

Lemma past_check_insert (fs : list (task * fstatus)) (g : nat) (u : task)
    (s s' : fstatus) :
  fs !! g = Some (u, s) ->
  past_check s = false \/ past_check s' = true ->
  forall t : task,
    (exists f st, fs !! f = Some (t, st) /\ past_check st = true) ->
    exists f st, <[g := (u, s')]> fs !! f = Some (t, st) /\ past_check st = true.
Proof.
  intros Hg Hs t (f & st & Hf & Hst).
  destruct (decide (f = g)) as [->|Hne].
  - rewrite Hg in Hf. injection Hf as -> ->.
    destruct Hs as [Hs|Hs]; [congruence|].
    exists g, s'. split; [|exact Hs].
    apply list_lookup_insert_eq. eapply lookup_lt_Some; eauto.
  - exists f, st. split; [|exact Hst]. now rewrite list_lookup_insert_ne.
Qed.

Lemma new_files_were_requested (w0 : world) (es : list event) (c : config) :
  run es (init w0) = Some c ->
  exists new,
    requests (wld c) = (requests w0 ++ new)%list /\
    (forall p, files w0 !! p = None -> is_Some (files (wld c) !! p) ->
               exists u, In (u, p) new) /\
    (forall t : task, In t new ->
       exists f st, futures c !! f = Some (t, st) /\ past_check st = true).
Proof.
  revert es c.
  apply (run_ind (init w0)
           (fun _ c =>
              exists new,
                requests (wld c) = (requests w0 ++ new)%list /\
                (forall p, files w0 !! p = None -> is_Some (files (wld c) !! p) ->
                           exists u, In (u, p) new) /\
                (forall t : task, In t new ->
                   exists f st, futures c !! f = Some (t, st) /\
                                past_check st = true))).
  { exists []. simpl. split; [now rewrite app_nil_r|]. split.
    - intros p Hp [b Hb]. congruence.
    - intros t []. }
  intros es c e c' _ (new & Hreq & Hfiles & Hfut) Hstep. apply step_inv in Hstep.
  destruct e.
  - destruct Hstep as [_ ->]. destruct (do_load_frame c) as (-> & -> & _).
    now exists new.
  - destruct Hstep as [_ ->].
    destruct (do_fetch_cases r c)
      as (-> & _ & _ & _ & [[-> _]|(resp & items & xs & _ & _ & _ & _ & _ & ->)]);
      [now exists new|].
    exists new. split; [exact Hreq|]. split; [exact Hfiles|].
    intros t Ht. destruct (Hfut t Ht) as (f & st & Hf & Hst).
    exists f, st. split; [|exact Hst]. apply lookup_app_Some. now left.
  - destruct Hstep as (f & t & _ & Hf & ->). simpl.
    exists new. split; [exact Hreq|]. split; [exact Hfiles|].
    intros u Hu. apply (past_check_insert _ _ _ _ _ Hf); [now left|auto].
  - destruct Hstep as (t & Hf & ->). simpl.
    exists new. split; [exact Hreq|]. split; [exact Hfiles|].
    intros u Hu. apply (past_check_insert _ _ _ _ _ Hf); [now left|auto].
  - destruct Hstep as (t & found & w & r & Hf & Hdl & ->). simpl.
    destruct found.
    + injection Hdl as <- <-.
      exists new. split; [exact Hreq|]. split; [exact Hfiles|].
      intros u Hu. apply (past_check_insert _ _ _ _ _ Hf); [now right|auto].
    + destruct t as [url path].
      destruct (download_body_spec a url path (wld c))
        as (w' & b & Hb & _ & Hr & Hfs & _).
      rewrite Hb in Hdl. injection Hdl as <- <-.
      exists (new ++ [(url, path)])%list. split; [now rewrite Hr, Hreq, app_assoc|].
      split.
      * intros p Hp Hsome. destruct (decide (p = path)) as [->|Hne].
        -- exists url. apply in_or_app. right. now left.
        -- rewrite Hfs in Hsome.
           assert (Hold : is_Some (files (wld c) !! p)).
           { destruct (get_ok a && status_ok a && open_ok a); [|exact Hsome].
             now rewrite lookup_insert_ne in Hsome by (intros <-; now apply Hne). }
           destruct (Hfiles p Hp Hold) as [u Hu].
           exists u. apply in_or_app. now left.
      * intros u Hu. apply in_app_or in Hu as [Hu|[<-|[]]].
        -- apply (past_check_insert _ _ _ _ _ Hf); [now right|auto].
        -- exists f, (Done (Ok b)). split; [|reflexivity].
           apply list_lookup_insert_eq. eapply lookup_lt_Some; eauto.
  - destruct Hstep as (resp & t & r & _ & Hf & ->).
    destruct (do_yield_frame f t r c) as (-> & -> & _).
    exists new. split; [exact Hreq|]. split; [exact Hfiles|].
    intros u Hu. apply (past_check_insert _ _ _ _ _ Hf); [now right|auto].
  - destruct Hstep as (resp & _ & _ & ->).
    destruct (do_save_frame o resp c) as (-> & -> & -> & _). now exists new.
  - destruct Hstep as [_ ->].
    destruct (do_clear_frame o c) as (-> & -> & -> & _). now exists new.
Qed.

(** X16 ([main] and [download_photo], lines 106-118 and 175-195).  What a
    run does to the folder.  Every file that was there before is there
    afterwards, with the bytes it had: the run removes none and rewrites
    none.  Every other file found afterwards is at the destination of a
    planned task, named [photo_<id>.<ext>] in the output folder, for which
    the run has issued a request, a worker having taken the task past the
    test of line 108.  The run creates no other file. *)
Theorem only_planned_files_written
    (w0 : world) (es : list event) (c : config) :
  run es (init w0) = Some c ->
  (forall p b, files w0 !! p = Some b -> files (wld c) !! p = Some b) /\
  (forall p b,
      files (wld c) !! p = Some b ->
      files w0 !! p = Some b \/
      (files w0 !! p = None /\
       exists f u st id,
         In (u, p) (new_requests w0 (wld c)) /\
         futures c !! f = Some ((u, p), st) /\ past_check st = true /\
         p = os_path_join folder
               ("photo_" ++ str repr id ++ "." ++ final_segment (strip_query u)))).
Proof.
  intros Hrun. destruct (files_kept w0 es c Hrun) as (Hkeep & _).
  split; [exact Hkeep|]. intros p b Hb.
  destruct (files w0 !! p) as [b0|] eqn:E.
  - left. rewrite (Hkeep p b0 E) in Hb. congruence.
  - right. split; [reflexivity|].
    destruct (new_files_were_requested w0 es c Hrun) as (new & Hreq & Hfiles & Hfut).
    destruct (Hfiles p E (mk_is_Some _ _ Hb)) as [u Hu].
    destruct (Hfut (u, p) Hu) as (f & st & Hf & Hst).
    destruct (futures_are_planned w0 es c Hrun f (u, p) st Hf) as [item Hitem].
    apply plan_item_inv in Hitem
      as (photo & sizes & best & id & _ & _ & _ & _ & _ & _ & Hp).
    exists f, u, st, id. rewrite (new_requests_app w0 (wld c) new Hreq). auto.
Qed.

(** ** Two futures for one path *)

Lemma step_check_spec (c : config) (f : nat) (t : task) :
  futures c !! f = Some (t, Running None) ->
  exists c1,
    step (Check f) c = Some c1 /\
    futures c1 = <[f := (t, Running (Some (path_exists (snd t) (wld c))))]> (futures c) /\
    wld c1 = wld c /\ at_pc c1 = at_pc c /\ total c1 = total c.
Proof.
  intros Hf. eexists. split.
  - unfold step, do_check. rewrite Hf. now destruct (at_pc c).
  - repeat split.
Qed.

Lemma step_finish_spec
    (c : config) (f : nat) (t : task) (a : attempt) (w : world) (r : result bool) :
  futures c !! f = Some (t, Running (Some false)) ->
  download_body a t (wld c) = (w, r) ->
  exists c1,
    step (Finish f a) c = Some c1 /\
    futures c1 = <[f := (t, Done r)]> (futures c) /\
    wld c1 = w /\ at_pc c1 = at_pc c /\ total c1 = total c.
Proof.
  intros Hf Hdl. eexists. split.
  - unfold step, do_finish. rewrite Hf, Hdl. now destruct (at_pc c).
  - repeat split.
Qed.

Lemma step_yield_spec (c : config) (resp : json) (f : nat) (t : task) :
  at_pc c = Collecting resp -> futures c !! f = Some (t, Done (Ok true)) ->
  exists c1,
    step (Yield f) c = Some c1 /\
    futures c1 = <[f := (t, Yielded (Ok true))]> (futures c) /\
    wld c1 = wld c /\ at_pc c1 = at_pc c /\ total c1 = total c + 1.
Proof.
  intros Hpc Hf. eexists. split.
  - unfold step. now rewrite Hpc, Hf.
  - repeat split.
Qed.

Lemma run_cons (e : event) (es : list event) (c c1 : config) :
  step e c = Some c1 -> run (e :: es) c = run es c1.
Proof. intros H. cbn [run]. now rewrite H. Qed.

(** X17 ([download_photo], lines 108-116, under the executor).  The test of
    line 108 and the write of line 113 are two steps.  When a page plans the
    same task twice and two workers both pass line 108 before either has
    opened the file, and the two transfers then go through one after the
    other, both calls return [True]: two requests are issued for the one
    path, the file holds what the later call wrote, and [total] goes up by
    two for one file. *)
Theorem same_path_race_counts_twice
    (c : config) (resp : json) (f1 f2 : nat) (t : task) (a1 a2 : attempt) :
  at_pc c = Collecting resp -> f1 <> f2 ->
  futures c !! f1 = Some (t, Running None) ->
  futures c !! f2 = Some (t, Running None) ->
  files (wld c) !! snd t = None ->
  succeeds a1 = true -> succeeds a2 = true ->
  exists c',
    run [Check f1; Check f2; Finish f1 a1; Finish f2 a2; Yield f1; Yield f2] c
      = Some c' /\
    total c' = total c + 2 /\
    files (wld c') !! snd t = Some (concat (chunks a2)) /\
    requests (wld c') = (requests (wld c) ++ [t; t])%list.
Proof.
  intros Hpc Hne H1 H2 Hnone Ha1 Ha2.
  assert (Hex : path_exists (snd t) (wld c) = false) by now apply path_exists_false.
  pose proof (lookup_lt_Some _ _ _ H1) as Hlt1.
  pose proof (lookup_lt_Some _ _ _ H2) as Hlt2.
  destruct (download_body_spec a1 (fst t) (snd t) (wld c))
    as (w1 & b1 & Hb1 & _ & Hr1 & Hf1 & ->).
  destruct (download_body_spec a2 (fst t) (snd t) w1)
    as (w2 & b2 & Hb2 & _ & Hr2 & Hf2 & ->).
  rewrite <- surjective_pairing in Hb1, Hb2, Hr1, Hr2.
  unfold succeeds in Ha1, Ha2. rewrite Ha1 in Hb1. rewrite Ha2 in Hb2.
  apply andb_prop in Ha2 as [Ha2 _]. rewrite Ha2 in Hf2.
  destruct (step_check_spec c f1 t H1) as (c1 & S1 & F1 & W1 & P1 & T1).
  rewrite Hex in F1.
  assert (E1 : futures c1 !! f2 = Some (t, Running None))
    by (rewrite F1; now rewrite list_lookup_insert_ne).
  destruct (step_check_spec c1 f2 t E1) as (c2 & S2 & F2 & W2 & P2 & T2).
  rewrite W1, Hex in F2.
  assert (E2 : futures c2 !! f1 = Some (t, Running (Some false))).
  { rewrite F2, list_lookup_insert_ne by auto. rewrite F1.
    now apply list_lookup_insert_eq. }
  assert (D2 : download_body a1 t (wld c2) = (w1, Ok true))
    by now rewrite W2, W1.
  destruct (step_finish_spec c2 f1 t a1 w1 _ E2 D2) as (c3 & S3 & F3 & W3 & P3 & T3).
  assert (E3 : futures c3 !! f2 = Some (t, Running (Some false))).
  { rewrite F3, list_lookup_insert_ne by auto. rewrite F2.
    apply list_lookup_insert_eq. rewrite F1, length_insert. exact Hlt2. }
  assert (D3 : download_body a2 t (wld c3) = (w2, Ok true)) by now rewrite W3.
  destruct (step_finish_spec c3 f2 t a2 w2 _ E3 D3) as (c4 & S4 & F4 & W4 & P4 & T4).
  assert (E4 : futures c4 !! f1 = Some (t, Done (Ok true))).
  { rewrite F4, list_lookup_insert_ne by auto. rewrite F3.
    apply list_lookup_insert_eq. rewrite F2, length_insert, F1, length_insert.
    exact Hlt1. }
  assert (Q4 : at_pc c4 = Collecting resp) by congruence.
  destruct (step_yield_spec c4 resp f1 t Q4 E4) as (c5 & S5 & F5 & W5 & P5 & T5).
  assert (E5 : futures c5 !! f2 = Some (t, Done (Ok true))).
  { rewrite F5, list_lookup_insert_ne by auto. rewrite F4.
    apply list_lookup_insert_eq.
    rewrite F3, length_insert, F2, length_insert, F1, length_insert. exact Hlt2. }
  assert (Q5 : at_pc c5 = Collecting resp) by congruence.
  destruct (step_yield_spec c5 resp f2 t Q5 E5) as (c6 & S6 & F6 & W6 & P6 & T6).
  exists c6. split.
  { rewrite (run_cons _ _ _ _ S1), (run_cons _ _ _ _ S2), (run_cons _ _ _ _ S3),
      (run_cons _ _ _ _ S4), (run_cons _ _ _ _ S5), (run_cons _ _ _ _ S6).
    reflexivity. }
  split; [lia|]. rewrite W6, W5, W4. split.
  - rewrite Hf2. apply lookup_insert_eq.
  - rewrite Hr2, Hr1, <- app_assoc. reflexivity.
Qed.

(** ** What the run prints *)

Lemma step_output (e : event) (c c' : config) :
  step e c = Some c' ->
  (output c' = output c /\ (at_pc c' = Finished -> at_pc c = Finished)) \/
  (at_pc c' = Finished /\ total c' = total c /\
   (output c' = (output c ++ [done_line (total c)])%list \/
    exists ex, output c' = (output c ++ [error_line ex; done_line (total c)])%list)).
Proof.
  intros Hstep. apply step_inv in Hstep. destruct e.
  - destruct Hstep as [_ ->]. left. unfold do_load.
    destruct (load_state_total (wld c)) as [st ->].
    destruct (get st key JNull); simpl; split; auto; discriminate.
  - destruct Hstep as [_ ->]. unfold do_fetch.
    destruct r as [resp|ex].
    + destruct (get resp "items" (JArr [])) as [items|ex]; simpl;
        [|left; split; auto; discriminate].
      destruct (truthy items); simpl; [|right; auto].
      destruct (iter items); simpl; left; split; auto; discriminate.
    + right.
      assert (H : forall line,
                 at_pc (leave_loop (print line (log_call (params (start_from c)) c)))
                 = Finished /\
                 total (leave_loop (print line (log_call (params (start_from c)) c)))
                 = total c /\
                 output (leave_loop (print line (log_call (params (start_from c)) c)))
                 = (output c ++ [line; done_line (total c)])%list).
      { intros line. simpl. now rewrite <- app_assoc. }
      destruct ex; (split; [apply H|split; [apply H|right]]);
        match goal with
        | |- exists ex, output (leave_loop (print ?l _)) = _ =>
            first [ exists (ApiError msg); apply H
                  | exists OSError; apply H ]
        end.
  - destruct Hstep as (f & t & _ & _ & ->). left. auto.
  - destruct Hstep as (t & _ & ->). left. auto.
  - destruct Hstep as (t & found & w & r & _ & _ & ->). left. auto.
  - destruct Hstep as (resp & t & r & Hpc & _ & ->). left. unfold do_yield.
    destruct r as [[]|ex]; simpl; split; auto; try congruence; discriminate.
  - destruct Hstep as (resp & Hpc & _ & ->). left. unfold do_save.
    destruct (get resp "next_from" JNull) as [sf|ex]; simpl;
      [|split; auto; discriminate].
    destruct (setitem (state c) key sf) as [st|ex]; simpl;
      [|split; auto; discriminate].
    destruct (save_state_total o st (wld c)) as (w & Hw & _).
    simpl in Hw. rewrite Hw. simpl. split; [reflexivity|].
    destruct (truthy sf); discriminate.
  - destruct Hstep as [_ ->]. unfold do_clear.
    destruct (pop (state c) key) as [st|ex]; simpl;
      [|left; split; auto; discriminate].
    destruct (save_state_total o st (wld c)) as (w & Hw & _).
    simpl in Hw. rewrite Hw. simpl. right. auto.
Qed.

(** X18 ([main], lines 164-207).  All that [main] prints with [print] from
    line 145 on: nothing until the loop is left by a [break], then the line
    of the failed request, if that is how the loop ended, and the line
    [Done. Downloaded: <total>], after which nothing happens any more.  The
    number in it is the number of futures that returned [True].  A run that
    an exception ends prints neither. *)
Theorem output_is_report (w0 : world) (es : list event) (c : config) :
  run es (init w0) = Some c ->
  (at_pc c <> Finished /\ output c = []) \/
  (at_pc c = Finished /\
   total c = count is_counted (futures c) /\
   (output c = [done_line (total c)] \/
    exists ex, output c = [error_line ex; done_line (total c)]) /\
   forall e, step e c = None).
Proof.
  intros Hrun.
  assert (H : (at_pc c <> Finished /\ output c = []) \/
              (at_pc c = Finished /\
               (output c = [done_line (total c)] \/
                exists ex, output c = [error_line ex; done_line (total c)]))).
  { revert es c Hrun.
    apply (run_ind (init w0)
             (fun _ c =>
                (at_pc c <> Finished /\ output c = []) \/
                (at_pc c = Finished /\
                 (output c = [done_line (total c)] \/
                  exists ex, output c = [error_line ex; done_line (total c)])))).
    { left. split; [discriminate|reflexivity]. }
    intros es c e c' Hrun IH Hstep. destruct IH as [[Hpc Hout]|[Hpc _]].
    - destruct (step_output e c c' Hstep) as [[Ho Hp]|(Hp & Ht & Ho)].
      + left. split; [intros H; now apply Hpc, Hp|congruence].
      + right. split; [exact Hp|]. rewrite Ht, Hout in *. exact Ho.
    - rewrite finished_is_final in Hstep; [discriminate|exact Hpc|].
      apply (quiet_all_yielded w0 es c Hrun). now rewrite Hpc. }
  destruct H as [H|[Hpc Hout]]; [now left|right].
  split; [exact Hpc|]. split; [exact (total_counts w0 es c Hrun)|].
  split; [exact Hout|]. apply finished_is_final; [exact Hpc|].
  apply (quiet_all_yielded w0 es c Hrun). now rewrite Hpc.
Qed.

(** ** A response that is not what the API documents *)

Lemma crashed_is_final (c : config) (ex : exn) :
  at_pc c = Crashed ex -> forallb is_yielded (futures c) = true ->
  forall e, step e c = None.
Proof.
  intros Hpc Hall e. destruct (step e c) as [c'|] eqn:E; [exfalso|reflexivity].
  apply step_inv in E. destruct e.
  - destruct E as [H _]. congruence.
  - destruct E as [H _]. congruence.
  - destruct E as (f & t & _ & Hf & _).
    destruct (forallb_is_yielded_lookup _ Hall _ _ _ Hf) as [? [=]].
  - destruct E as (t & Hf & _).
    destruct (forallb_is_yielded_lookup _ Hall _ _ _ Hf) as [? [=]].
  - destruct E as (t & found & w & r & Hf & _).
    destruct (forallb_is_yielded_lookup _ Hall _ _ _ Hf) as [? [=]].
  - destruct E as (resp & t & r & H & _). congruence.
  - destruct E as (resp & H & _). congruence.
  - destruct E as [H _]. congruence.
Qed.

(** X19 ([main], lines 171-176).  Lines 171-176 stand outside every [try]:
    a response that is not an object raises [AttributeError] at
    [resp.get], and true [items] that cannot be iterated raise [TypeError]
    at the [for]; either ends [main] at once, with the world as it was,
    nothing submitted and no [Done] line printed. *)
Theorem malformed_response_crashes
    (w0 : world) (es : list event) (c : config) (resp : json) :
  run es (init w0) = Some c -> at_pc c = Fetching ->
  (forall d, resp <> JObj d) \/
  (exists items, getitem resp "items" = Ok items /\ truthy items = true /\
                 iter items = Raise TypeError) ->
  exists c' ex,
    step (Fetch (Ok resp)) c = Some c' /\ at_pc c' = Crashed ex /\
    (ex = AttributeError \/ ex = TypeError) /\
    wld c' = wld c /\ futures c' = futures c /\ output c' = output c /\
    forall e, step e c' = None.
Proof.
  intros Hrun Hpc Hbad.
  assert (Hall : forallb is_yielded (futures c) = true)
    by (apply (quiet_all_yielded w0 es c Hrun); now rewrite Hpc).
  assert (Hc : exists ex,
             do_fetch (Ok resp) c = crash ex (log_call (params (start_from c)) c) /\
             (ex = AttributeError \/ ex = TypeError)).
  { unfold do_fetch. destruct Hbad as [Hno|(items & Hget & Ht & Hit)].
    - exists AttributeError. split; [|now left].
      destruct resp; try reflexivity. now contradiction (Hno d).
    - exists TypeError. split; [|now right].
      rewrite (getitem_get _ _ _ (JArr []) Hget), Ht, Hit. reflexivity. }
  destruct Hc as (ex & Hc & Hex).
  exists (do_fetch (Ok resp) c), ex.
  split; [unfold step; now rewrite Hpc|]. rewrite Hc.
  repeat split; auto. apply (crashed_is_final _ ex); [reflexivity|exact Hall].
Qed.

End Dumper.

(** * The scenario, evaluated *)

(** C1 (the code departs from it): in the scenario of the specification the
    second page has no items; the run ends there with the cursor [abc] of
    the first page still in the resume-state file, where the claim has the
    conversation's key removed. *)
Theorem C1_empty_page_keeps_cursor :
  exists c,
    run no_repr 12345 "out"
        (first_page ++ [Save Written; Fetch (Ok page2)]) (init empty_world)
      = Some c /\
    at_pc c = Finished /\ total c = 2 /\
    state_file (wld c) = Present true (Json (JObj [("12345", JStr "abc")])) /\
    persisted_cursor 12345 (wld c) = Ok (JStr "abc") /\
    forall ev, step no_repr 12345 "out" ev c = None.
Proof.
  pose (c := default (init empty_world)
               (run no_repr 12345 "out"
                    (first_page ++ [Save Written; Fetch (Ok page2)])
                    (init empty_world))).
  exists c. split; [vm_compute; reflexivity|].
  repeat split; try (vm_compute; reflexivity).
  apply finished_is_final; vm_compute; reflexivity.
Qed.

(** The other way a conversation ends: a page without [next_from] has the
    key removed from the resume-state file. *)
Example last_page_clears_cursor :
  exists c,
    run no_repr 12345 "out"
        [Load; Fetch (Ok page_last); Start; Check 0; Finish 0 whole; Yield 0;
         Save Written; Clear Written] (init empty_world)
      = Some c /\
    at_pc c = Finished /\
    state_file (wld c) = Present true (Json (JObj [])).
Proof.
  eexists. split; [vm_compute; reflexivity|]. split; reflexivity.
Qed.

(** C5 as stated fails on [sizes_old]: the variant selected has no width and
    is not the only variant. *)
Lemma C5_missing_width_selected : ~ selects_as_claimed sizes_old.
Proof.
  intros H.
  destruct (H (JObj [("url", JStr "https://cdn.example/o_a.jpg")]) eq_refl)
    as [_ Honly].
  specialize (Honly eq_refl). discriminate Honly.
Qed.

(** C4 as it is worded fails for a URL whose fragment has a dot in it: the
    code takes the extension [2] from [https://cdn.example.com/p.jpg#v1.2],
    where the path component [/p.jpg] gives [jpg]. *)
Lemma C4_fragment_extension : ~ destination_as_claimed no_repr "out" item_fragment.
Proof.
  intros H.
  destruct (H "https://cdn.example.com/p.jpg#v1.2" "out/photo_5.2" eq_refl)
    as (photo & id & Hp & Hi & Hpath).
  vm_compute in Hp. injection Hp as <-.
  vm_compute in Hi. injection Hi as <-.
  vm_compute in Hpath. discriminate Hpath.
Qed.


(** C2 in the scenario: the first page is saved after both its downloads. *)
Lemma C2_cursor_saved_after_batch_witness :
  exists c c',
    run no_repr 12345 "out" first_page (init empty_world) = Some c /\
    step no_repr 12345 "out" (Save Written) c = Some c' /\
    batch_over first_page c.
Proof.
  pose (c := default (init empty_world)
               (run no_repr 12345 "out" first_page (init empty_world))).
  pose (c' := default c (step no_repr 12345 "out" (Save Written) c)).
  assert (Hrun : run no_repr 12345 "out" first_page (init empty_world) = Some c)
    by (vm_compute; reflexivity).
  assert (Hstep : step no_repr 12345 "out" (Save Written) c = Some c')
    by (vm_compute; reflexivity).
  exists c, c'. split; [exact Hrun|]. split; [exact Hstep|].
  exact (proj1 (C2_cursor_saved_after_batch no_repr 12345 "out" empty_world
                  first_page c (Save Written) c' Hrun Hstep)).
Defined.

(** C3 in a folder that holds the first photo. *)
Lemma C3_existing_file_skipped_witness :
  is_Some (files half_done_world !! path1) /\
  download_photo whole (url1, path1) half_done_world = (half_done_world, Ok false).
Proof.
  assert (H : is_Some (files half_done_world !! snd (url1, path1)))
    by (vm_compute; eauto).
  split; [exact H|].
  exact (proj1 (C3_existing_file_skipped no_repr 12345 "out" whole
                  (url1, path1) half_done_world H)).
Defined.

(** C4 on the first item of the scenario. *)
Lemma C4_destination_path_witness :
  plan_item no_repr "out" item1 = Ok (Some (url1, path1)) /\
  strip_fragment url1 = url1 /\ url_path url1 = "/a_x.jpg" /\
  path1 = "out" ++ "/" ++ "photo_" ++ "101" ++ "." ++ final_segment (url_path url1) /\
  path1 = "out" ++ "/" ++ "photo_" ++ "101" ++ "." ++ "jpg".
Proof.
  assert (H : plan_item no_repr "out" item1 = Ok (Some (url1, path1)))
    by reflexivity.
  split; [exact H|]. split; [reflexivity|]. split; [reflexivity|].
  destruct (C4_destination_path no_repr "out" item1 url1 path1 H)
    as (photo & pid & Hp & Hi & _ & _ & Hpath & _ & Hclaimed).
  injection Hp as <-. injection Hi as <-.
  split.
  - apply (Hclaimed eq_refl eq_refl); [discriminate|reflexivity].
  - apply Hpath; [discriminate|reflexivity].
Defined.

(** C5 on the size variants of the first item: the variant of width 600. *)
Lemma C5_first_widest_variant_witness :
  sizes1 <> [] /\ Forall (fun s => is_Some (width_of s)) sizes1 /\
  exists best, max (JArr sizes1) width_key = Ok best /\ wz best = 600%Z.
Proof.
  assert (Hne : sizes1 <> []) by discriminate.
  assert (Hall : Forall (fun s => is_Some (width_of s)) sizes1)
    by (repeat constructor; eexists; reflexivity).
  split; [exact Hne|]. split; [exact Hall|].
  destruct (C5_first_widest_variant no_repr sizes1 Hne Hall)
    as (best & pre & post & Hmax & _).
  exists best. split; [exact Hmax|].
  injection Hmax as <-. reflexivity.
Defined.


(** C7 when the first request fails with an API error. *)
Lemma C7_fetch_error_aborts_witness :
  exists c c',
    run no_repr 12345 "out" [Load] (init empty_world) = Some c /\
    at_pc c = Fetching /\
    step no_repr 12345 "out" (Fetch (Raise (ApiError "[6] Too many requests"))) c
      = Some c' /\
    at_pc c' = Finished /\ wld c' = wld c /\
    output c' = [String "010" "VK API error: [6] Too many requests";
                 "Done. Downloaded: 0"].
Proof.
  pose (c := default (init empty_world)
               (run no_repr 12345 "out" [Load] (init empty_world))).
  assert (Hrun : run no_repr 12345 "out" [Load] (init empty_world) = Some c)
    by reflexivity.
  assert (Hpc : at_pc c = Fetching) by reflexivity.
  destruct (C7_fetch_error_aborts no_repr 12345 "out" empty_world [Load] c
              (ApiError "[6] Too many requests") Hrun Hpc)
    as (c' & Hstep & Hfin & Hw & _ & _ & Hout & _).
  exists c, c'. repeat split; assumption.
Defined.

(** C9 for a transfer cut after its first chunk. *)
Lemma C9_partial_file_stays_witness :
  files empty_world !! path1 = None /\
  get_ok cut_short = true /\ status_ok cut_short = true /\
  open_ok cut_short = true /\ stream_ok cut_short = false /\
  exists w1,
    download_photo cut_short (url1, path1) empty_world = (w1, Ok false) /\
    files w1 !! path1 = Some [Byte.x89; Byte.x50] /\
    download_photo whole (url1, path1) w1 = (w1, Ok false).
Proof.
  assert (Hnone : files empty_world !! path1 = None) by reflexivity.
  destruct (C9_partial_file_stays no_repr 12345 "out" cut_short url1 path1
              empty_world Hnone eq_refl eq_refl eq_refl eq_refl)
    as (w1 & Hdl & Hfile & Hagain & _).
  repeat split; try reflexivity.
  exists w1. split; [exact Hdl|]. split; [exact Hfile|].
  specialize (Hagain [whole]). simpl in Hagain.
  destruct (download_photo whole (url1, path1) w1) as [w2 r].
  now injection Hagain as -> ->.
Defined.

(** C10 with two workers busy on the first page. *)
Lemma C10_at_most_six_downloads_witness :
  exists c,
    run no_repr 12345 "out" [Load; Fetch (Ok page1); Start; Start]
        (init empty_world) = Some c /\
    in_flight (futures c) = 2 /\ in_flight (futures c) <= 6.
Proof.
  pose (c := default (init empty_world)
               (run no_repr 12345 "out" [Load; Fetch (Ok page1); Start; Start]
                    (init empty_world))).
  assert (Hrun : run no_repr 12345 "out" [Load; Fetch (Ok page1); Start; Start]
                     (init empty_world) = Some c)
    by (vm_compute; reflexivity).
  exists c. split; [exact Hrun|]. split; [reflexivity|].
  exact (proj1 (C10_at_most_six_downloads no_repr 12345 "out" empty_world _ c Hrun)).
Defined.

(** * The command line and the token store *)

Import Cli.

Lemma append_nil (s : string) : "" ++ s = s.
Proof. reflexivity. Qed.

Lemma append_cons (c : ascii) (a b : string) :
  String c a ++ b = String c (a ++ b).
Proof. reflexivity. Qed.

Ltac norm_app := repeat (rewrite append_cons in * || rewrite append_nil in * ).

Lemma is_digit_not_minus (c : ascii) :
  is_digit c = true -> Ascii.eqb c "-" = false.
Proof.
  destruct (Ascii.eqb_spec c "-") as [->|]; [simpl; discriminate|reflexivity].
Qed.

Lemma digits_spec (s : string) :
  s = fst (digits s) ++ snd (digits s) /\
  all_digits (fst (digits s)) = true /\
  starts_with_digit (snd (digits s)) = false.
Proof.
  induction s as [|c s (IH1 & IH2 & IH3)]; simpl; [auto|].
  destruct (is_digit c) eqn:E.
  - destruct (digits s) as [ds rest]; simpl in *.
    rewrite E, IH2. split; [exact (f_equal (String c) IH1)|auto].
  - simpl. rewrite E. auto.
Qed.

Lemma digits_app (ds rest : string) :
  all_digits ds = true -> starts_with_digit rest = false ->
  digits (ds ++ rest) = (ds, rest).
Proof.
  intros Hds Hrest. induction ds as [|c ds IH]; simpl in *.
  - destruct rest as [|c r]; simpl in *; [reflexivity|now rewrite Hrest].
  - apply andb_prop in Hds as [-> Hds]. now rewrite IH.
Qed.

Lemma strip_prefix_spec (p : string) :
  forall s r, strip_prefix p s = Some r <-> s = p ++ r.
Proof.
  induction p as [|a p IH]; intros s r; simpl; norm_app.
  - split; congruence.
  - destruct s as [|b s]; [split; discriminate|].
    destruct (Ascii.eqb_spec a b) as [->|Hab].
    + rewrite IH. split; congruence.
    + split; [discriminate|intros [= -> _]; contradiction].
Qed.

Lemma number_at_spec (r g : string) :
  number_at r = Some g ->
  exists post,
    r = g ++ post /\ is_number g = true /\ starts_with_digit post = false.
Proof.
  destruct r as [|c r]; [discriminate|]. unfold number_at.
  destruct (Ascii.eqb_spec c "-") as [->|Hc].
  - destruct (digits_spec r) as (Hr & Hds & Hpost).
    destruct (fst (digits r)) as [|d ds] eqn:E; [discriminate|].
    intros [= <-]. exists (snd (digits r)).
    split; [exact (f_equal (String "-") Hr)|]. split; [|exact Hpost].
    change (is_number (String "-" (String d ds)))
      with (all_digits (String d ds) && true).
    now rewrite Hds.
  - destruct (digits_spec (String c r)) as (Hr & Hds & Hpost).
    destruct (fst (digits (String c r))) as [|d ds] eqn:E; [discriminate|].
    intros [= <-]. exists (snd (digits (String c r))).
    split; [exact Hr|]. split; [|exact Hpost].
    simpl in *. apply andb_prop in Hds as [Hd Hds].
    now rewrite (is_digit_not_minus d Hd), Hd, Hds.
Qed.

Lemma number_at_app (g post : string) :
  is_number g = true -> starts_with_digit post = false ->
  number_at (g ++ post) = Some g.
Proof.
  intros Hg Hpost. destruct g as [|c g]; [discriminate|]. simpl in *.
  destruct (Ascii.eqb_spec c "-") as [->|Hc].
  - apply andb_prop in Hg as [Hds Hne].
    rewrite (digits_app g post Hds Hpost). simpl.
    destruct g; [discriminate|reflexivity].
  - apply andb_prop in Hg as [Hc' Hds].
    rewrite Hc', (digits_app g post Hds Hpost). reflexivity.
Qed.

Lemma match_at_convo (r : string) : match_at ("/convo/" ++ r) = number_at r.
Proof. reflexivity. Qed.

Lemma match_at_spec (s g : string) :
  match_at s = Some g ->
  exists post,
    s = "/convo/" ++ g ++ post /\ is_number g = true /\
    starts_with_digit post = false.
Proof.
  unfold match_at. destruct (strip_prefix "/convo/" s) as [r|] eqn:E; [|discriminate].
  apply strip_prefix_spec in E as ->. intros (post & -> & Hg & Hpost)%number_at_spec.
  eauto.
Qed.

Lemma re_search_cons (c : ascii) (s : string) :
  re_search (String c s) =
  match match_at (String c s) with
  | Some g => Some g
  | None => re_search s
  end.
Proof. reflexivity. Qed.

Lemma re_search_spec (s g : string) :
  re_search s = Some g ->
  exists pre post,
    s = pre ++ "/convo/" ++ g ++ post /\ is_number g = true /\
    starts_with_digit post = false /\
    forall a b, s = a ++ b -> String.length a < String.length pre ->
                match_at b = None.
Proof.
  induction s as [|c s IH].
  - discriminate.
  - rewrite re_search_cons. destruct (match_at (String c s)) as [g'|] eqn:E.
    + intros [= ->]. apply match_at_spec in E as (post & E & Hg & Hpost).
      exists "", post. simpl. repeat split; auto. intros a b _ Hlt. simpl in Hlt. lia.
    + intros (pre & post & -> & Hg & Hpost & Hleft)%IH.
      exists (String c pre), post. repeat split; auto.
      intros [|c' a] b Hab Hlt.
      * change ("" ++ b) with b in Hab. now subst b.
      * change (String c' a ++ b) with (String c' (a ++ b)) in Hab.
        injection Hab as -> Hab. apply (Hleft a b Hab). simpl in Hlt. lia.
Qed.

Lemma re_search_none (s : string) :
  re_search s = None <-> forall a b, s = a ++ b -> match_at b = None.
Proof.
  induction s as [|c s IH].
  - split; [|reflexivity]. intros _ [|c a] b Hab.
    + change ("" ++ b) with b in Hab. now subst b.
    + change (String c a ++ b) with (String c (a ++ b)) in Hab. discriminate.
  - rewrite re_search_cons. split.
    + destruct (match_at (String c s)) eqn:E; [discriminate|].
      intros Hs [|c' a] b Hab.
      * change ("" ++ b) with b in Hab. now subst b.
      * change (String c' a ++ b) with (String c' (a ++ b)) in Hab.
        injection Hab as -> Hab. now apply (proj1 IH Hs a b).
    + intros H. rewrite (H "" (String c s) eq_refl). apply IH.
      intros a b ->. now apply (H (String c a) b).
Qed.

Lemma uint_of_string_digits (ds : string) :
  all_digits ds = true -> is_Some (NilEmpty.uint_of_string ds).
Proof.
  induction ds as [|c ds IH]; simpl; [eauto|].
  intros [Hc Hds]%andb_prop. destruct (IH Hds) as [d ->].
  destruct c as [[|] [|] [|] [|] [|] [|] [|] [|]];
    try discriminate Hc; simpl; eauto.
Qed.

Lemma int_of_group_number (g : string) :
  is_number g = true ->
  exists d, NilZero.int_of_string g = Some d /\
            int_of_group g = Returns (Z.of_int d).
Proof.
  intros Hg. unfold int_of_group. destruct g as [|c g]; [discriminate|].
  unfold is_number in Hg. unfold NilZero.int_of_string.
  destruct (Ascii.eqb c "-").
  - apply andb_prop in Hg as [Hds Hne]. destruct g as [|c' g]; [discriminate|].
    destruct (uint_of_string_digits _ Hds) as [d Hd].
    unfold NilZero.uint_of_string. rewrite Hd. simpl. eauto.
  - destruct (uint_of_string_digits _ Hg) as [d Hd].
    unfold NilZero.uint_of_string. rewrite Hd. simpl. eauto.
Qed.

Lemma string_of_uint_digits (d : Decimal.uint) :
  all_digits (NilEmpty.string_of_uint d) = true.
Proof. induction d; simpl; auto. Qed.

Lemma is_number_str (n : Z) : is_number (str_of_int n) = true.
Proof.
  unfold str_of_int. destruct n as [|p|p]; [reflexivity| |]; simpl;
    pose proof (Unsigned.to_uint_nonnil p) as Hp;
    destruct (Pos.to_uint p) as [|d|d|d|d|d|d|d|d|d|d]; try contradiction;
    simpl; rewrite ?andb_true_r; apply string_of_uint_digits.
Qed.

Lemma int_of_group_str (n : Z) : int_of_group (str_of_int n) = Returns n.
Proof.
  unfold int_of_group. rewrite int_of_string_str. now rewrite DecimalZ.of_to.
Qed.

Lemma number_at_no_digit (t s : string) :
  no_digit t = true -> number_at (t ++ "/convo/" ++ s) = None.
Proof.
  intros Hnd. destruct t as [|c t]; [reflexivity|].
  simpl in Hnd. apply andb_prop in Hnd as [Hc Hnd].
  apply negb_true_iff in Hc.
  change (String c t ++ "/convo/" ++ s) with (String c (t ++ "/convo/" ++ s)).
  unfold number_at. destruct (Ascii.eqb c "-").
  - destruct t as [|c' t]; [reflexivity|].
    simpl in Hnd. apply andb_prop in Hnd as [Hc' _].
    apply negb_true_iff in Hc'.
    change (String c' t ++ "/convo/" ++ s) with (String c' (t ++ "/convo/" ++ s)).
    simpl. now rewrite Hc'.
  - simpl. now rewrite Hc.
Qed.

Lemma strip_prefix_cons (a b : ascii) (p s : string) :
  strip_prefix (String a p) (String b s) =
  if Ascii.eqb a b then strip_prefix p s else None.
Proof. reflexivity. Qed.

Ltac next_char t :=
  let c := fresh "c" in
  destruct t as [|c t]; [reflexivity|];
  match goal with
  | |- context [String c t ++ ?x] =>
      change (String c t ++ x) with (String c (t ++ x))
  end;
  rewrite strip_prefix_cons;
  match goal with
  | |- context [Ascii.eqb ?x c] => destruct (Ascii.eqb x c); [|reflexivity]
  end.

Lemma match_at_before_convo (t s : string) :
  t <> "" -> no_digit t = true -> match_at (t ++ "/convo/" ++ s) = None.
Proof.
  intros Hne Hnd. unfold match_at.
  destruct t as [|c t]; [contradiction|].
  change (String c t ++ "/convo/" ++ s) with (String c (t ++ "/convo/" ++ s)).
  rewrite strip_prefix_cons. destruct (Ascii.eqb "/" c); [|reflexivity].
  do 6 next_char t.
  change (number_at (t ++ "/convo/" ++ s) = None).
  apply number_at_no_digit.
  simpl in Hnd. repeat (apply andb_prop in Hnd; destruct Hnd as [_ Hnd]).
  exact Hnd.
Qed.

Lemma re_search_skip (pre s : string) :
  no_digit pre = true ->
  re_search (pre ++ "/convo/" ++ s) = re_search ("/convo/" ++ s).
Proof.
  induction pre as [|c pre IH]; intros Hnd; [reflexivity|].
  change (String c pre ++ "/convo/" ++ s) with (String c (pre ++ "/convo/" ++ s)).
  rewrite re_search_cons.
  change (String c (pre ++ "/convo/" ++ s)) with (String c pre ++ "/convo/" ++ s).
  rewrite match_at_before_convo by (discriminate || exact Hnd).
  apply IH. simpl in Hnd. now apply andb_prop in Hnd as [_ ?].
Qed.

Lemma re_search_at_match (s g : string) :
  match_at s = Some g -> re_search s = Some g.
Proof.
  intros H. destruct s as [|c s]; [discriminate|].
  now rewrite re_search_cons, H.
Qed.

Lemma extract_raises_bare (url : string) (e : exc) :
  extract_peer_id_from_link url = Raises e -> e = ValueErrorWith None.
Proof.
  unfold extract_peer_id_from_link.
  destruct (re_search url) as [g|] eqn:E; [|congruence].
  apply re_search_spec in E as (_ & _ & _ & Hg & _).
  destruct (int_of_group_number g Hg) as (d & _ & ->). discriminate.
Qed.

(** X1 ([extract_peer_id_from_link], lines 76-80).  For a link within the
    scope of the model ([covered]): when the function returns [n], the link
    holds [/convo/] followed by a decimal number [g], digits after an
    optional minus sign, that is not followed by a further digit; [g] is a
    decimal writing of [n]; and no earlier position of the link matches the
    pattern: the leftmost conversation number is taken, and all of its
    digits. *)
Theorem extract_peer_id_sound (url : string) (n : Z) :
  covered url = true ->
  extract_peer_id_from_link url = Returns n ->
  exists pre g post d,
    url = pre ++ "/convo/" ++ g ++ post /\
    is_number g = true /\ starts_with_digit post = false /\
    NilZero.string_of_int d = g /\ n = Z.of_int d /\
    forall a b, url = a ++ b -> String.length a < String.length pre ->
                match_at b = None.
Proof.
  intros _. unfold extract_peer_id_from_link.
  destruct (re_search url) as [g|] eqn:E; [|discriminate].
  apply re_search_spec in E as (pre & post & Hurl & Hg & Hpost & Hleft).
  destruct (int_of_group_number g Hg) as (d & Hd & ->). intros [= <-].
  exists pre, g, post, d. repeat split; auto. now apply NilZero.sis.
Qed.

(** X2 ([extract_peer_id_from_link], lines 76-80).  For a link within the
    scope of the model: the only exception the function raises is the bare
    [ValueError] of line 79, [int] never fails on the text the pattern
    matched; and it is raised exactly when no [/convo/] of the link is
    followed by a decimal number. *)
Theorem extract_peer_id_raises_iff (url : string) :
  covered url = true ->
  (forall e, extract_peer_id_from_link url = Raises e -> e = ValueErrorWith None) /\
  (extract_peer_id_from_link url = Raises (ValueErrorWith None) <->
   forall pre post, url = pre ++ "/convo/" ++ post -> number_at post = None).
Proof.
  intros _. split; [exact (extract_raises_bare url)|]. split.
  - unfold extract_peer_id_from_link.
    destruct (re_search url) as [g|] eqn:E.
    + apply re_search_spec in E as (_ & _ & _ & Hg & _).
      destruct (int_of_group_number g Hg) as (d & _ & ->). discriminate.
    + intros _ pre post Hurl. rewrite <- match_at_convo.
      exact (proj1 (re_search_none url) E pre _ Hurl).
  - intros H. unfold extract_peer_id_from_link.
    rewrite (proj2 (re_search_none url)); [reflexivity|].
    intros a b Hab. unfold match_at.
    destruct (strip_prefix "/convo/" b) as [r|] eqn:E; [|reflexivity].
    apply strip_prefix_spec in E as ->. exact (H a r Hab).
Qed.

(** X3 ([extract_peer_id_from_link], lines 76-80).  Round trip with [str]:
    from a link, within the scope of the model, made of a text without
    digits, [/convo/], the decimal text of an integer [n] as [str(n)] writes
    it, and a rest that does not start with a digit, the function returns
    [n]. *)
Theorem extract_peer_id_round_trip (pre post : string) (n : Z) :
  covered (pre ++ "/convo/" ++ str_of_int n ++ post) = true ->
  no_digit pre = true -> starts_with_digit post = false ->
  extract_peer_id_from_link (pre ++ "/convo/" ++ str_of_int n ++ post)
  = Returns n.
Proof.
  intros _ Hpre Hpost. unfold extract_peer_id_from_link.
  rewrite (re_search_skip pre _ Hpre).
  rewrite (re_search_at_match _ (str_of_int n)).
  - apply int_of_group_str.
  - rewrite match_at_convo. apply number_at_app; [apply is_number_str|exact Hpost].
Qed.

Lemma parse_conversation_cases (link dir : string) :
  (exists pid,
      parse_conversation link dir = Returns (pid, dir) /\ (0 <= pid)%Z /\
      extract_peer_id_from_link link = Returns pid) \/
  parse_conversation link dir = Raises (ValueErrorWith None) \/
  parse_conversation link dir = Raises (ValueErrorWith (Some unsupported)).
Proof.
  unfold parse_conversation.
  destruct (extract_peer_id_from_link link) as [n|e] eqn:E.
  - unfold validate_peer_id. destruct (Z.ltb_spec n 0); [auto|].
    left. exists n. auto.
  - apply extract_raises_bare in E as ->. auto.
Qed.

Lemma pairs_ind (A : Type) (P : list A -> Prop) :
  P [] -> (forall x, P [x]) -> (forall x y l, P l -> P (x :: y :: l)) ->
  forall l, P l.
Proof.
  intros H0 H1 H2.
  assert (forall l, P l /\ forall x, P (x :: l)) as H; [|intros l; apply H].
  induction l as [|y l [IH1 IH2]]; split; auto.
Qed.

Lemma input_conversation_pair (link dir : string) (rest : list string) :
  input_conversation (link :: dir :: rest) =
  match parse_conversation (strip link) (strip dir) with
  | Returns r => (Returns r, prompts)
  | Raises (ValueErrorWith msg) =>
      (fst (input_conversation rest),
       prompts ++ Printed (reject_line msg) :: snd (input_conversation rest))%list
  | Raises e => (Raises e, prompts)
  end.
Proof.
  cbn [input_conversation].
  destruct (parse_conversation (strip link) (strip dir)) as [r|[msg|]];
    try reflexivity.
  now destruct (input_conversation rest).
Qed.

(** X4 ([input_conversation], lines 121-133).  For typed lines within the
    scope of the model: what the function returns is a conversation for
    which the dump is supported: the identifier is not negative, it was read
    from a link the operator typed, the folder is the line typed after that
    link, both stripped, and every pair of lines typed before them was
    rejected with one printed line.  Two lines are read per turn, the folder
    also when the link is bad. *)
Theorem input_conversation_returns (inputs : list string) (pid : Z) (dir : string) :
  forallb covered inputs = true ->
  fst (input_conversation inputs) = Returns (pid, dir) ->
  (0 <= pid)%Z /\
  exists before link d after,
    inputs = (before ++ link :: d :: after)%list /\
    extract_peer_id_from_link (strip link) = Returns pid /\
    dir = strip d /\
    length before = 2 * length (printed (snd (input_conversation inputs))).
Proof.
  intros _.
  induction inputs as [|x|link d rest IH] using pairs_ind; try discriminate.
  rewrite input_conversation_pair.
  destruct (parse_conversation_cases (strip link) (strip d))
    as [(n & -> & Hn & Hlink)|[-> | ->]].
  - intros [= <- <-]. split; [exact Hn|].
    exists [], link, d, rest. auto.
  - cbn [fst snd]. intros (Hpid & before & l' & d' & after & -> & ? & ? & Hlen)%IH.
    split; [exact Hpid|].
    exists (link :: d :: before), l', d', after. repeat split; auto.
    cbn. rewrite Hlen. lia.
  - cbn [fst snd]. intros (Hpid & before & l' & d' & after & -> & ? & ? & Hlen)%IH.
    split; [exact Hpid|].
    exists (link :: d :: before), l', d', after. repeat split; auto.
    cbn. rewrite Hlen. lia.
Qed.

(** X5 ([input_conversation], line 133).  For typed lines within the
    scope of the model: every line the function prints is the mark alone,
    for a link without a conversation number, or the mark and the message of
    [validate_peer_id]; the fallback text of line 133 is never printed, an
    exception object being true whatever its message; and no [ValueError]
    leaves the function. *)
Theorem input_conversation_messages (inputs : list string) :
  forallb covered inputs = true ->
  Forall (fun line => line = "❌ " \/ line = "❌ " ++ unsupported)
         (printed (snd (input_conversation inputs))) /\
  ~ In "❌ Invalid conversation link" (printed (snd (input_conversation inputs))) /\
  forall msg, fst (input_conversation inputs) <> Raises (ValueErrorWith msg).
Proof.
  intros _.
  assert (Forall (fun line => line = "❌ " \/ line = "❌ " ++ unsupported)
                 (printed (snd (input_conversation inputs))) /\
          forall msg, fst (input_conversation inputs) <> Raises (ValueErrorWith msg))
    as [Hall Hexc].
  { induction inputs as [|x|link d rest [IH1 IH2]] using pairs_ind;
      try (split; [constructor|discriminate]).
    rewrite input_conversation_pair.
    destruct (parse_conversation_cases (strip link) (strip d))
      as [(n & -> & _)|[-> | ->]]; cbn [fst snd].
    - split; [constructor|discriminate].
    - split; [|exact IH2]. constructor; [left; reflexivity|exact IH1].
    - split; [|exact IH2]. constructor; [right; reflexivity|exact IH1]. }
  split; [exact Hall|]. split; [|exact Hexc].
  intros Hin. rewrite Forall_forall in Hall.
  apply list_elem_of_In in Hin. apply Hall in Hin as [H|H]; discriminate H.
Qed.

(** X6 ([load_token], [save_token], lines 32-47).  Reading the token back
    after [save_token]: the saved token when the file could be written and
    can be read, [None] when the write broke off or the file cannot be read,
    and what was there before when the file could not be opened for
    writing.  Neither function raises. *)
Theorem load_token_after_save (o : write_outcome) (token : string) (f : sfile) :
  load_token (save_token o token f) =
  match o with
  | Written => if keeps_readable f then JStr token else JNull
  | OpenFails => load_token f
  | DumpFails => JNull
  end.
Proof.
  destruct o; simpl; try reflexivity; now destruct (keeps_readable f).
Qed.

(** X7 ([load_token], lines 32-39).  The function gives a token only for a
    file that exists, can be read and holds a JSON object with the key
    [access_token]; the token is the value of that key. *)
Theorem load_token_found (f : sfile) (v : json) :
  load_token f = v -> v <> JNull ->
  exists d, f = Present true (Json (JObj d)) /\
            dict_lookup "access_token" d = Some v.
Proof.
  intros <- Hv. destruct f as [|[] [[]|]]; try (now destruct Hv).
  - simpl in Hv. exists d. split; [reflexivity|].
    unfold load_token, read_token_file, get in *.
    destruct (dict_lookup "access_token" d); [reflexivity|now destruct Hv].
Qed.

(** * The properties, at concrete inputs *)

Lemma extract_peer_id_sound_witness :
  extract_peer_id_from_link "https://vk.com/im/convo/-007/" = Returns (-7)%Z /\
  exists pre g post d,
    "https://vk.com/im/convo/-007/" = pre ++ "/convo/" ++ g ++ post /\
    is_number g = true /\ starts_with_digit post = false /\
    NilZero.string_of_int d = g /\ (-7)%Z = Z.of_int d /\
    forall a b, "https://vk.com/im/convo/-007/" = a ++ b ->
                String.length a < String.length pre -> match_at b = None.
Proof.
  split; [reflexivity|].
  exact (extract_peer_id_sound "https://vk.com/im/convo/-007/" (-7)
           eq_refl eq_refl).
Defined.

Lemma extract_peer_id_raises_iff_witness :
  covered "https://vk.com/im/conv/9" = true /\
  extract_peer_id_from_link "https://vk.com/im/conv/9"
  = Raises (ValueErrorWith None) /\
  forall pre post,
    "https://vk.com/im/conv/9" = pre ++ "/convo/" ++ post ->
    number_at post = None.
Proof.
  split; [reflexivity|]. split; [reflexivity|].
  exact (proj1 (proj2 (extract_peer_id_raises_iff "https://vk.com/im/conv/9"
                         eq_refl))
               eq_refl).
Defined.

Lemma extract_peer_id_round_trip_witness :
  covered ("https://vk.com/im" ++ "/convo/" ++ str_of_int 12345 ++ "?tab=all")
  = true /\
  no_digit "https://vk.com/im" = true /\ starts_with_digit "?tab=all" = false /\
  extract_peer_id_from_link
    ("https://vk.com/im" ++ "/convo/" ++ str_of_int 12345 ++ "?tab=all")
  = Returns 12345%Z.
Proof.
  split; [reflexivity|]. split; [reflexivity|]. split; [reflexivity|].
  exact (extract_peer_id_round_trip "https://vk.com/im" "?tab=all" 12345
           eq_refl eq_refl eq_refl).
Defined.

Lemma input_conversation_returns_witness :
  fst (input_conversation
         ["vk.com/im"; "x"; "https://vk.com/im/convo/-5"; "y";
          " https://vk.com/im/convo/77 "; "  out dir  "])
  = Returns (77%Z, "out dir") /\
  (0 <= 77)%Z.
Proof.
  split; [reflexivity|].
  exact (proj1 (input_conversation_returns
                  ["vk.com/im"; "x"; "https://vk.com/im/convo/-5"; "y";
                   " https://vk.com/im/convo/77 "; "  out dir  "]
                  77 "out dir" eq_refl eq_refl)).
Defined.

Lemma input_conversation_messages_witness :
  forallb covered ["vk.com/im"; "x"; "https://vk.com/im/convo/-5"; "y"] = true /\
  printed (snd (input_conversation
                  ["vk.com/im"; "x"; "https://vk.com/im/convo/-5"; "y"]))
  = ["❌ "; "❌ Dialogs with bots or communities are not supported"] /\
  ~ In "❌ Invalid conversation link"
       (printed (snd (input_conversation
                        ["vk.com/im"; "x"; "https://vk.com/im/convo/-5"; "y"]))).
Proof.
  split; [reflexivity|]. split; [reflexivity|].
  exact (proj1 (proj2 (input_conversation_messages
                         ["vk.com/im"; "x"; "https://vk.com/im/convo/-5"; "y"]
                         eq_refl))).
Defined.

Lemma load_token_found_witness :
  load_token (Present true (Json (JObj [("access_token", JStr "vk1.a.token")])))
  = JStr "vk1.a.token" /\
  exists d,
    Present true (Json (JObj [("access_token", JStr "vk1.a.token")]))
    = Present true (Json (JObj d)) /\
    dict_lookup "access_token" d = Some (JStr "vk1.a.token").
Proof.
  split; [reflexivity|].
  apply (load_token_found
           (Present true (Json (JObj [("access_token", JStr "vk1.a.token")])))
           (JStr "vk1.a.token") eq_refl).
  discriminate.
Defined.

Lemma failed_request_is_retried_witness :
  files empty_world !! path1 = None /\
  get_ok refused && status_ok refused && open_ok refused = false /\
  exists w1,
    download_photo refused (url1, path1) empty_world = (w1, Ok false) /\
    files w1 = files empty_world.
Proof.
  assert (Hnone : files empty_world !! path1 = None) by reflexivity.
  destruct (failed_request_is_retried refused whole url1 path1 empty_world
              Hnone eq_refl)
    as (w1 & Hdl & Hfiles & _).
  split; [exact Hnone|]. split; [reflexivity|]. exists w1. auto.
Defined.

Lemma first_request_resumes_witness :
  persisted_cursor 12345 resumed_world = Ok (JStr "abc") /\
  exists c,
    run no_repr 12345 "out" [Load; Fetch (Ok page2)] (init resumed_world)
      = Some c /\
    calls c = [params 12345 (JStr "abc")].
Proof.
  assert (H : persisted_cursor 12345 resumed_world = Ok (JStr "abc"))
    by (vm_compute; reflexivity).
  destruct (first_request_resumes no_repr 12345 "out" resumed_world
              (JStr "abc") (Ok page2) H)
    as (c & Hrun & Hcalls & _).
  split; [exact H|]. exists c. auto.
Defined.

Lemma non_object_state_crashes_witness :
  state_file list_state_world = Present true (Json (JArr [])) /\
  exists c,
    run no_repr 12345 "out" [Load] (init list_state_world) = Some c /\
    at_pc c = Crashed AttributeError.
Proof.
  split; [reflexivity|].
  destruct (non_object_state_crashes no_repr 12345 "out" list_state_world
              (JArr []) eq_refl)
    as (c & Hrun & Hpc & _); [discriminate|].
  exists c. auto.
Defined.

Lemma other_conversations_kept_witness :
  exists c,
    load_state resumed_world
      = (resumed_world,
         Ok (JObj [("12345", JStr "abc"); ("777", JStr "xyz")])) /\
    run no_repr 12345 "out" (first_page ++ [Save Written]) (init resumed_world)
      = Some c /\
    (at_pc c = Loading \/
     others_agree 12345 (state c)
       (JObj [("12345", JStr "abc"); ("777", JStr "xyz")])).
Proof.
  pose (c := default (init resumed_world)
               (run no_repr 12345 "out" (first_page ++ [Save Written])
                    (init resumed_world))).
  assert (Hload : load_state resumed_world
                  = (resumed_world,
                     Ok (JObj [("12345", JStr "abc"); ("777", JStr "xyz")])))
    by reflexivity.
  assert (Hrun : run no_repr 12345 "out" (first_page ++ [Save Written])
                     (init resumed_world) = Some c)
    by (vm_compute; reflexivity).
  exists c. split; [exact Hload|]. split; [exact Hrun|].
  exact (proj1 (other_conversations_kept no_repr 12345 "out" resumed_world _
                  (first_page ++ [Save Written]) c Hload Hrun)).
Defined.

Lemma batch_never_stuck_witness :
  exists c,
    run no_repr 12345 "out" [Load; Fetch (Ok page1)] (init empty_world)
      = Some c /\
    at_pc c = Collecting page1 /\
    exists e c', step no_repr 12345 "out" e c = Some c'.
Proof.
  pose (c := default (init empty_world)
               (run no_repr 12345 "out" [Load; Fetch (Ok page1)]
                    (init empty_world))).
  assert (Hrun : run no_repr 12345 "out" [Load; Fetch (Ok page1)]
                     (init empty_world) = Some c)
    by (vm_compute; reflexivity).
  assert (Hpc : at_pc c = Collecting page1) by (vm_compute; reflexivity).
  exists c. split; [exact Hrun|]. split; [exact Hpc|].
  exact (batch_never_stuck no_repr 12345 "out" c page1 Hpc).
Defined.

Lemma batch_work_decreases_witness :
  exists c c',
    run no_repr 12345 "out" [Load; Fetch (Ok page1)] (init empty_world)
      = Some c /\
    step no_repr 12345 "out" Start c = Some c' /\
    work (futures c) = 8 /\
    work (futures c') + 1 = work (futures c).
Proof.
  pose (c := default (init empty_world)
               (run no_repr 12345 "out" [Load; Fetch (Ok page1)]
                    (init empty_world))).
  pose (c' := default c (step no_repr 12345 "out" Start c)).
  assert (Hrun : run no_repr 12345 "out" [Load; Fetch (Ok page1)]
                     (init empty_world) = Some c)
    by (vm_compute; reflexivity).
  assert (Hstep : step no_repr 12345 "out" Start c = Some c')
    by (vm_compute; reflexivity).
  exists c, c'. split; [exact Hrun|]. split; [exact Hstep|].
  split; [vm_compute; reflexivity|].
  exact (batch_work_decreases no_repr 12345 "out" Start c c' Hstep).
Defined.

Lemma only_planned_files_written_witness :
  exists c,
    run no_repr 12345 "out" first_page (init half_done_world) = Some c /\
    files (wld c) !! path1 = Some [Byte.x89; Byte.x50] /\
    files (wld c) !! "out/photo_102.jpg"
    = Some [Byte.x89; Byte.x50; Byte.x4e; Byte.x47] /\
    files half_done_world !! "out/photo_102.jpg" = None /\
    exists f u st id,
      In (u, "out/photo_102.jpg") (new_requests half_done_world (wld c)) /\
      futures c !! f = Some ((u, "out/photo_102.jpg"), st) /\
      past_check st = true /\
      "out/photo_102.jpg"
      = os_path_join "out"
          ("photo_" ++ str no_repr id ++ "." ++ final_segment (strip_query u)).
Proof.
  pose (c := default (init half_done_world)
               (run no_repr 12345 "out" first_page (init half_done_world))).
  assert (Hrun : run no_repr 12345 "out" first_page (init half_done_world)
                 = Some c)
    by (vm_compute; reflexivity).
  assert (Hfile : files (wld c) !! "out/photo_102.jpg"
                  = Some [Byte.x89; Byte.x50; Byte.x4e; Byte.x47])
    by (vm_compute; reflexivity).
  destruct (only_planned_files_written no_repr 12345 "out" half_done_world
              first_page c Hrun) as [Hkeep Hnew].
  exists c. split; [exact Hrun|].
  split; [apply Hkeep; vm_compute; reflexivity|]. split; [exact Hfile|].
  destruct (Hnew "out/photo_102.jpg" _ Hfile) as [Hold|Hthere].
  - discriminate Hold.
  - exact Hthere.
Defined.

Lemma same_path_race_counts_twice_witness :
  exists c c',
    run no_repr 12345 "out" [Load; Fetch (Ok page_twice); Start; Start]
        (init empty_world) = Some c /\
    run no_repr 12345 "out"
        [Check 0; Check 1; Finish 0 whole; Finish 1 whole; Yield 0; Yield 1] c
      = Some c' /\
    total c' = total c + 2.
Proof.
  pose (c := default (init empty_world)
               (run no_repr 12345 "out"
                    [Load; Fetch (Ok page_twice); Start; Start]
                    (init empty_world))).
  assert (Hrun : run no_repr 12345 "out"
                     [Load; Fetch (Ok page_twice); Start; Start]
                     (init empty_world) = Some c)
    by (vm_compute; reflexivity).
  assert (Hpc : at_pc c = Collecting page_twice) by (vm_compute; reflexivity).
  assert (H0 : futures c !! 0
               = Some (("https://cdn.example/b_s.jpg", "out/photo_102.jpg"),
                       Running None))
    by (vm_compute; reflexivity).
  assert (H1 : futures c !! 1
               = Some (("https://cdn.example/b_s.jpg", "out/photo_102.jpg"),
                       Running None))
    by (vm_compute; reflexivity).
  assert (Hne : 0 <> 1) by discriminate.
  assert (Hnone : files (wld c) !! "out/photo_102.jpg" = None)
    by (vm_compute; reflexivity).
  destruct (same_path_race_counts_twice no_repr 12345 "out" c page_twice 0 1
              ("https://cdn.example/b_s.jpg", "out/photo_102.jpg") whole whole
              Hpc Hne H0 H1 Hnone eq_refl eq_refl)
    as (c' & Hrace & Htotal & _).
  exists c, c'. auto.
Defined.

Lemma output_is_report_witness :
  exists c,
    run no_repr 12345 "out"
        (first_page ++ [Save Written; Fetch (Ok page2)]) (init empty_world)
      = Some c /\
    output c = ["Done. Downloaded: 2"] /\
    (at_pc c <> Finished /\ output c = [] \/
     at_pc c = Finished /\
     total c = count is_counted (futures c) /\
     (output c = [done_line (total c)] \/
      exists ex, output c = [error_line ex; done_line (total c)]) /\
     forall e, step no_repr 12345 "out" e c = None).
Proof.
  pose (c := default (init empty_world)
               (run no_repr 12345 "out"
                    (first_page ++ [Save Written; Fetch (Ok page2)])
                    (init empty_world))).
  assert (Hrun : run no_repr 12345 "out"
                     (first_page ++ [Save Written; Fetch (Ok page2)])
                     (init empty_world) = Some c)
    by (vm_compute; reflexivity).
  exists c. split; [exact Hrun|]. split; [vm_compute; reflexivity|].
  exact (output_is_report no_repr 12345 "out" empty_world _ c Hrun).
Defined.

Lemma malformed_response_crashes_witness :
  exists c c' ex,
    run no_repr 12345 "out" [Load] (init empty_world) = Some c /\
    at_pc c = Fetching /\
    step no_repr 12345 "out" (Fetch (Ok (JArr []))) c = Some c' /\
    at_pc c' = Crashed ex.
Proof.
  pose (c := default (init empty_world)
               (run no_repr 12345 "out" [Load] (init empty_world))).
  assert (Hrun : run no_repr 12345 "out" [Load] (init empty_world) = Some c)
    by reflexivity.
  assert (Hpc : at_pc c = Fetching) by reflexivity.
  assert (Hbad : (forall d, JArr [] <> JObj d) \/
                 (exists items, getitem (JArr []) "items" = Ok items /\
                                truthy items = true /\
                                iter items = Raise TypeError))
    by (left; discriminate).
  destruct (malformed_response_crashes no_repr 12345 "out" empty_world [Load] c
              (JArr []) Hrun Hpc Hbad)
    as (c' & ex & Hstep & Hcrash & _).
  exists c, c', ex. auto.
Defined.

Lemma empty_page_keeps_world_witness :
  exists c c',
    run no_repr 12345 "out" (first_page ++ [Save Written]) (init empty_world)
      = Some c /\
    at_pc c = Fetching /\
    step no_repr 12345 "out" (Fetch (Ok page2)) c = Some c' /\
    at_pc c' = Finished /\ wld c' = wld c.
Proof.
  pose (c := default (init empty_world)
               (run no_repr 12345 "out" (first_page ++ [Save Written])
                    (init empty_world))).
  assert (Hrun : run no_repr 12345 "out" (first_page ++ [Save Written])
                     (init empty_world) = Some c)
    by (vm_compute; reflexivity).
  assert (Hpc : at_pc c = Fetching) by (vm_compute; reflexivity).
  destruct (empty_page_keeps_world no_repr 12345 "out" empty_world _ c page2
              (JArr []) Hrun Hpc eq_refl eq_refl)
    as (c' & Hstep & Hfin & Hw & _).
  exists c, c'. auto.
Defined.

Lemma save_persists_next_from_witness :
  exists c c' r st,
    run no_repr 12345 "out" first_page (init empty_world) = Some c /\
    step no_repr 12345 "out" (Save Written) c = Some c' /\
    state_file (wld c') = Present r (Json st) /\
    getitem st (key 12345) = get page1 "next_from" JNull.
Proof.
  pose (c := default (init empty_world)
               (run no_repr 12345 "out" first_page (init empty_world))).
  pose (c' := default c (step no_repr 12345 "out" (Save Written) c)).
  assert (Hrun : run no_repr 12345 "out" first_page (init empty_world) = Some c)
    by (vm_compute; reflexivity).
  assert (Hpc : at_pc c = Collecting page1) by (vm_compute; reflexivity).
  assert (Hstep : step no_repr 12345 "out" (Save Written) c = Some c')
    by (vm_compute; reflexivity).
  destruct (save_persists_next_from no_repr 12345 "out" empty_world first_page
              c c' page1 Hrun Hpc Hstep)
    as (r & st & Hfile & Hkey).
  exists c, c', r, st. auto.
Defined.

Lemma clear_removes_key_witness :
  exists c c' r st,
    run no_repr 12345 "out"
        [Load; Fetch (Ok page_last); Start; Check 0; Finish 0 whole; Yield 0;
         Save Written] (init empty_world) = Some c /\
    step no_repr 12345 "out" (Clear Written) c = Some c' /\
    state_file (wld c') = Present r (Json st) /\
    getitem st (key 12345) = Raise KeyError.
Proof.
  pose (c := default (init empty_world)
               (run no_repr 12345 "out"
                    [Load; Fetch (Ok page_last); Start; Check 0; Finish 0 whole;
                     Yield 0; Save Written] (init empty_world))).
  pose (c' := default c (step no_repr 12345 "out" (Clear Written) c)).
  assert (Hrun : run no_repr 12345 "out"
                     [Load; Fetch (Ok page_last); Start; Check 0; Finish 0 whole;
                      Yield 0; Save Written] (init empty_world) = Some c)
    by (vm_compute; reflexivity).
  assert (Hstep : step no_repr 12345 "out" (Clear Written) c = Some c')
    by (vm_compute; reflexivity).
  destruct (clear_removes_key no_repr 12345 "out" empty_world _ c c' Hrun Hstep)
    as (r & st & Hfile & Hkey).
  exists c, c', r, st. auto.
Defined.

(** * Getting a token *)

Section LoginFacts.

Variable extract : string -> option string.
Variable valid : nat -> json -> bool.
Variable saving : write_outcome.

Lemma token_loop_cons (fuel checks : nat) (line : string) (rest : list string)
    (f : sfile) :
  token_loop extract valid saving (S fuel) checks (line :: rest) f =
  match extract (strip line) with
  | None =>
      (fst (token_loop extract valid saving fuel checks rest f),
       oauth_prompt :: Printed "Invalid OAuth URL"
         :: snd (token_loop extract valid saving fuel checks rest f))
  | Some token =>
      if valid checks (JStr token)
      then (Token (JStr token) (save_token saving token f), [oauth_prompt])
      else
        (fst (token_loop extract valid saving fuel (S checks) rest f),
         oauth_prompt :: Printed "Invalid token"
           :: snd (token_loop extract valid saving fuel (S checks) rest f))
  end.
Proof.
  cbn [token_loop]. destruct (extract (strip line)) as [token|].
  - destruct (valid checks (JStr token)); [reflexivity|].
    now destruct (token_loop extract valid saving fuel (S checks) rest f).
  - now destruct (token_loop extract valid saving fuel checks rest f).
Qed.

Lemma token_loop_eof (fuel checks : nat) (f : sfile) :
  fst (token_loop extract valid saving fuel checks [] f) = Waiting /\
  printed (snd (token_loop extract valid saving fuel checks [] f))
  = repeat "Invalid OAuth URL" fuel.
Proof.
  induction fuel as [|fuel [IH1 IH2]]; [now split|]. cbn [token_loop].
  destruct (token_loop extract valid saving fuel checks [] f) as [r seen].
  simpl in *. now rewrite IH1, IH2.
Qed.

Lemma token_loop_returns (inputs : list string) :
  forall fuel checks f t f' seen,
    token_loop extract valid saving fuel checks inputs f = (Token t f', seen) ->
    exists before line after tok k,
      inputs = (before ++ line :: after)%list /\
      extract (strip line) = Some tok /\ t = JStr tok /\
      valid k t = true /\ f' = save_token saving tok f /\
      length (printed seen) = length before /\
      length before < fuel.
Proof.
  induction inputs as [|line rest IH]; intros fuel checks f t f' seen H.
  - pose proof (token_loop_eof fuel checks f) as [E _].
    rewrite H in E. discriminate E.
  - destruct fuel as [|fuel]; [discriminate H|].
    rewrite token_loop_cons in H.
    destruct (extract (strip line)) as [token|] eqn:E.
    + destruct (valid checks (JStr token)) eqn:V.
      * injection H as <- <- <-.
        exists [], line, rest, token, checks. repeat split; auto. simpl. lia.
      * destruct (token_loop extract valid saving fuel (S checks) rest f)
          as [r seen'] eqn:L.
        injection H as -> <-.
        destruct (IH _ _ _ _ _ _ L)
          as (before & l & after & tok & k & -> & ? & ? & ? & ? & Hlen & Hlt).
        exists (line :: before), l, after, tok, k. repeat split; auto.
        -- simpl. now rewrite Hlen.
        -- simpl. lia.
    + destruct (token_loop extract valid saving fuel checks rest f)
        as [r seen'] eqn:L.
      injection H as -> <-.
      destruct (IH _ _ _ _ _ _ L)
        as (before & l & after & tok & k & -> & ? & ? & ? & ? & Hlen & Hlt).
      exists (line :: before), l, after, tok, k. repeat split; auto.
      * simpl. now rewrite Hlen.
      * simpl. lia.
Qed.

Lemma token_loop_dichotomy (inputs : list string) :
  forall checks f,
    (exists t f',
        forall fuel, length inputs <= fuel ->
                     fst (token_loop extract valid saving fuel checks inputs f)
                     = Token t f') \/
    (forall fuel,
        fst (token_loop extract valid saving fuel checks inputs f) = Waiting /\
        length (printed (snd (token_loop extract valid saving fuel checks inputs f)))
        = fuel).
Proof.
  induction inputs as [|line rest IH]; intros checks f.
  - right. intros fuel. destruct (token_loop_eof fuel checks f) as [E1 E2].
    split; [exact E1|]. now rewrite E2, repeat_length.
  - assert (Hstep : forall checks',
               (extract (strip line) = None /\ checks' = checks) \/
               (exists token, extract (strip line) = Some token /\
                              valid checks (JStr token) = false /\
                              checks' = S checks) ->
               forall fuel,
                 token_loop extract valid saving (S fuel) checks (line :: rest) f
                 = (fst (token_loop extract valid saving fuel checks' rest f),
                    oauth_prompt
                      :: Printed (match extract (strip line) with
                                  | None => "Invalid OAuth URL"
                                  | Some _ => "Invalid token"
                                  end)
                      :: snd (token_loop extract valid saving fuel checks' rest f))).
    { intros checks' [[E ->]|(token & E & V & ->)] fuel;
        rewrite token_loop_cons, E; [reflexivity|now rewrite V]. }
    assert (Hgo : forall checks',
               (extract (strip line) = None /\ checks' = checks) \/
               (exists token, extract (strip line) = Some token /\
                              valid checks (JStr token) = false /\
                              checks' = S checks) ->
               (exists t f',
                   forall fuel, length (line :: rest) <= fuel ->
                     fst (token_loop extract valid saving fuel checks
                            (line :: rest) f) = Token t f') \/
               (forall fuel,
                   fst (token_loop extract valid saving fuel checks
                          (line :: rest) f) = Waiting /\
                   length (printed (snd (token_loop extract valid saving fuel
                                           checks (line :: rest) f))) = fuel)).
    { intros checks' Hc. destruct (IH checks' f) as [(t & f' & Ht)|Hw].
      - left. exists t, f'. intros [|fuel] Hle; [simpl in Hle; lia|].
        rewrite (Hstep checks' Hc). apply Ht. simpl in Hle. lia.
      - right. intros [|fuel]; [now split|].
        rewrite (Hstep checks' Hc). cbn [fst snd printed oauth_prompt].
        destruct (Hw fuel) as [E1 E2]. split; [exact E1|].
        simpl. now rewrite E2. }
    destruct (extract (strip line)) as [token|] eqn:E.
    + destruct (valid checks (JStr token)) eqn:V.
      * left. exists (JStr token), (save_token saving token f).
        intros [|fuel] Hle; [simpl in Hle; lia|].
        now rewrite token_loop_cons, E, V.
      * apply (Hgo (S checks)). right. now exists token.
    + apply (Hgo checks). now left.
Qed.

(** X23 ([get_valid_token], lines 59-73).  For typed lines within the scope
    of the model: the token the function returns has passed
    [is_token_valid].  It is the stored token, returned without a prompt and
    without a write; or it is the token of a URL the operator typed, returned
    after [save_token], every line typed before it having been answered with
    one printed line. *)
Theorem get_valid_token_returns
    (fuel : nat) (inputs : list string) (f : sfile)
    (t : json) (f' : sfile) (seen : list shown) :
  forallb covered inputs = true ->
  get_valid_token extract valid saving fuel inputs f = (Token t f', seen) ->
  (t = load_token f /\ truthy t = true /\ valid 0 t = true /\
   f' = f /\ seen = []) \/
  (exists before line after tok k,
      inputs = (before ++ line :: after)%list /\
      extract (strip line) = Some tok /\ t = JStr tok /\
      valid k t = true /\ f' = save_token saving tok f /\
      length (printed seen) = length before /\
      length before < fuel).
Proof.
  intros _. unfold get_valid_token.
  destruct (truthy (load_token f)) eqn:T.
  - destruct (valid 0 (load_token f)) eqn:V.
    + intros [= <- <- <-]. left. auto.
    + intros H. right. exact (token_loop_returns _ _ _ _ _ _ _ H).
  - intros H. right. exact (token_loop_returns _ _ _ _ _ _ _ H).
Qed.

(** X24 ([get_valid_token], lines 59-73).  The function returns within as
    many turns of its loop as there are lines to read, or it never returns:
    it then goes on printing one line per turn.  In particular it never
    returns once the input has ended without a valid token, the [EOFError]
    of [input] being caught at line 72 like every other exception. *)
Theorem get_valid_token_returns_or_loops (inputs : list string) (f : sfile) :
  (exists t f',
      forall fuel, length inputs <= fuel ->
                   fst (get_valid_token extract valid saving fuel inputs f)
                   = Token t f') \/
  (forall fuel,
      fst (get_valid_token extract valid saving fuel inputs f) = Waiting /\
      length (printed (snd (get_valid_token extract valid saving fuel inputs f)))
      = fuel /\
      (inputs = [] ->
       printed (snd (get_valid_token extract valid saving fuel inputs f))
       = repeat "Invalid OAuth URL" fuel)).
Proof.
  assert (H : forall checks,
             (exists t f',
                 forall fuel, length inputs <= fuel ->
                   fst (token_loop extract valid saving fuel checks inputs f)
                   = Token t f') \/
             (forall fuel,
                 fst (token_loop extract valid saving fuel checks inputs f)
                 = Waiting /\
                 length (printed (snd (token_loop extract valid saving fuel
                                         checks inputs f))) = fuel /\
                 (inputs = [] ->
                  printed (snd (token_loop extract valid saving fuel checks
                                  inputs f))
                  = repeat "Invalid OAuth URL" fuel))).
  { intros checks. destruct (token_loop_dichotomy inputs checks f) as [Ht|Hw];
      [now left|right].
    intros fuel. destruct (Hw fuel) as [E1 E2]. split; [exact E1|].
    split; [exact E2|]. intros ->. apply token_loop_eof. }
  unfold get_valid_token. destruct (truthy (load_token f)); [|apply H].
  destruct (valid 0 (load_token f)); [|apply H].
  left. now exists (load_token f), f.
Qed.

End LoginFacts.

(** X25 ([get_valid_token], [save_token], [load_token], lines 32-73).  A
    token that was typed and saved is found by the next run: when the write
    went through and the file can be read, [get_valid_token] on the file
    that was left returns that token without a prompt, for as long as the
    API takes it as valid. *)
Theorem saved_token_is_reused
    (extract : string -> option string) (valid valid' : nat -> json -> bool)
    (saving' : write_outcome)
    (fuel fuel' : nat) (inputs inputs' : list string) (f f' : sfile)
    (tok : string) (seen : list shown) :
  get_valid_token extract valid Written fuel inputs f
  = (Token (JStr tok) f', seen) ->
  seen <> [] -> keeps_readable f = true -> tok <> "" ->
  valid' 0 (JStr tok) = true ->
  get_valid_token extract valid' saving' fuel' inputs' f'
  = (Token (JStr tok) f', []).
Proof.
  intros H Hseen Hread Htok Hvalid.
  assert (Hf : f' = save_token Written tok f).
  { unfold get_valid_token in H.
    assert (Hloop : forall checks,
               token_loop extract valid Written fuel checks inputs f
               = (Token (JStr tok) f', seen) -> f' = save_token Written tok f).
    { intros checks L.
      destruct (token_loop_returns extract valid Written inputs _ _ _ _ _ _ L)
        as (_ & _ & _ & tok' & _ & _ & _ & [= ->] & _ & -> & _). reflexivity. }
    destruct (truthy (load_token f)); [|exact (Hloop _ H)].
    destruct (valid 0 (load_token f)); [|exact (Hloop _ H)].
    injection H as _ _ <-. now contradiction Hseen. }
  unfold get_valid_token.
  assert (Hl : load_token f' = JStr tok).
  { rewrite Hf. simpl. now rewrite Hread. }
  rewrite Hl. simpl. destruct (String.eqb_spec tok ""); [contradiction|].
  simpl. now rewrite Hvalid.
Qed.

Lemma get_valid_token_returns_witness :
  forallb covered [" https://oauth.vk.com/blank.html#access_token=abc "] = true /\
  get_valid_token (fun _ => Some "abc") (fun _ _ => true) Written 1
    [" https://oauth.vk.com/blank.html#access_token=abc "] Absent
  = (Token (JStr "abc") (save_token Written "abc" Absent), [oauth_prompt]) /\
  exists before line after,
    [" https://oauth.vk.com/blank.html#access_token=abc "]
    = (before ++ line :: after)%list /\
    length (printed [oauth_prompt]) = length before.
Proof.
  split; [reflexivity|]. split; [reflexivity|].
  destruct (get_valid_token_returns (fun _ => Some "abc") (fun _ _ => true)
              Written 1
              [" https://oauth.vk.com/blank.html#access_token=abc "] Absent
              (JStr "abc") (save_token Written "abc" Absent) [oauth_prompt]
              eq_refl eq_refl)
    as [(H & _)|(before & line & after & tok & k & Hin & _ & _ & _ & _ & Hlen & _)].
  - discriminate H.
  - exists before, line, after. auto.
Defined.

Lemma saved_token_is_reused_witness :
  get_valid_token (fun _ => Some "abc") (fun _ _ => true) Written 1
    ["https://oauth.vk.com/blank.html#access_token=abc"] Absent
  = (Token (JStr "abc") (save_token Written "abc" Absent), [oauth_prompt]) /\
  get_valid_token (fun _ => None) (fun _ _ => true) DumpFails 0 []
    (save_token Written "abc" Absent)
  = (Token (JStr "abc") (save_token Written "abc" Absent), []).
Proof.
  split; [reflexivity|].
  apply (saved_token_is_reused (fun _ => Some "abc") (fun _ _ => true)
           (fun _ _ => true) DumpFails 1 0
           ["https://oauth.vk.com/blank.html#access_token=abc"] [] Absent
           (save_token Written "abc" Absent) "abc" [oauth_prompt] eq_refl).
  - discriminate.
  - reflexivity.
  - discriminate.
  - reflexivity.
Defined.
